(** * Minecraft chat components: validation and rendering

    A shallow embedding of [src/client/resources/web/js/message_parsing.mjs]
    and the properties of its validator ([assertIsComponent]), colour check
    ([isValidColor]), linkifier ([linkifyText]), substitution engine
    ([formatTranslation]), tooltip formatter ([formatHoverEvent]) and renderer
    ([formatComponent]).

    The program is JavaScript: it receives arbitrary deserialised JSON, tests
    types at run time and relies on exceptions.  The embedding therefore works
    on untyped JavaScript values, with the coercions the program uses written
    out, and on a small monad that carries the console log and the three ways
    a call can end. *)

From Stdlib Require Import String Ascii List ZArith Lia Bool Arith PeanoNat.
From Stdlib Require Import Numbers.DecimalString Numbers.DecimalNat.
Import ListNotations.

Set Warnings "-register-all".

Open Scope string_scope.
Open Scope list_scope.

Infix "+++" := String.append (right associativity, at level 60).

(** ** JavaScript values

    Strings are sequences of code units; the model takes the code units below
    256 (Rocq's [ascii]), so [String.length] is JavaScript's [.length] and
    [substring] its [.slice].  A number is given by the string Number::toString
    prints for it, such as "5", "-1.5", "1e+21" or "NaN", and "0" for both
    zeros: the program tests the type of a number and whether it is zero or
    NaN, and converts it to a string, and does nothing else with it.  (Two
    numbers print the same only when both are zero; a string that no number
    prints stands for no value of the program.)  An object is the list of its
    own properties; a property read returns the first binding of the name. *)

Inductive value : Type :=
| VUndefined
| VNull
| VBool (b : bool)
| VNum (shown : string)
| VStr (s : string)
| VArr (items : list value)
| VObj (fields : list (string * value)).

(** [typeof v]. *)
Definition typeof (v : value) : string :=
  match v with
  | VUndefined => "undefined"
  | VNull => "object"
  | VBool _ => "boolean"
  | VNum _ => "number"
  | VStr _ => "string"
  | VArr _ => "object"
  | VObj _ => "object"
  end.

(** [Array.isArray(v)]. *)
Definition isArray (v : value) : bool :=
  match v with VArr _ => true | _ => false end.

(** ToBoolean: what [if (v)], [!v] and [v || w] test. *)
Definition truthy (v : value) : bool :=
  match v with
  | VUndefined | VNull => false
  | VBool b => b
  | VNum shown => negb (shown =? "0") && negb (shown =? "NaN")
  | VStr s => negb (s =? "")
  | VArr _ | VObj _ => true
  end.

(** [v === undefined || v === null], the test of [??]. *)
Definition nullish (v : value) : bool :=
  match v with VUndefined | VNull => true | _ => false end.

(** [a ?? b]. *)
Definition coalesce (a b : value) : value := if nullish a then b else a.

(** [a || b]. *)
Definition or_else (a b : value) : value := if truthy a then a else b.

(** [n.toString()] for an array index. *)
Definition nat_toString (n : nat) : string :=
  NilZero.string_of_uint (Nat.to_uint n).

(** The largest integer below which every integer is a Number. *)
Definition MAX_SAFE_INTEGER : Z := 9007199254740991.

(** Number::toString for an integer: its decimal digits, which is what the
    program prints for an integer up to [MAX_SAFE_INTEGER]. *)
Definition Z_toString (n : Z) : string :=
  NilZero.string_of_int (Z.to_int n).

(** [arr.join(sep)] on strings. *)
Definition join (sep : string) (parts : list string) : string :=
  String.concat sep parts.

Fixpoint lookup (k : string) (fields : list (string * value)) : option value :=
  match fields with
  | [] => None
  | (k', v) :: rest => if k' =? k then Some v else lookup k rest
  end.

(** Whether the conversion of a value to a string returns.  The conversion of
    an object calls its [toString] and, when that is not a function, its
    [valueOf]; a deserialised object has no function of its own, and the
    [valueOf] it inherits gives the object back.  So the conversion throws
    exactly for an object with an own property [toString]; an array converts
    the elements it joins. *)
Fixpoint convertible (v : value) : bool :=
  match v with
  | VArr items => forallb (fun x => nullish x || convertible x) items
  | VObj fields =>
      match lookup "toString" fields with Some _ => false | None => true end
  | _ => true
  end.

(** The string the conversion gives when it returns.  An array joins its
    elements with a comma, [null] and [undefined] elements giving the empty
    string. *)
Fixpoint ToString (v : value) : string :=
  match v with
  | VUndefined => "undefined"
  | VNull => "null"
  | VBool true => "true"
  | VBool false => "false"
  | VNum shown => shown
  | VStr s => s
  | VArr items =>
      join "," (map (fun x => if nullish x then "" else ToString x) items)
  | VObj _ => "[object Object]"
  end.

(** [k in o] for a value that passed [typeof o === 'object'] and is not
    [null].  None of the property names this program tests is inherited by a
    plain object; [with], which an array inherits, is tested only on a
    component that has [text], [translate] or [extra], hence not an array. *)
Definition has (k : string) (o : value) : bool :=
  match o with
  | VObj fields =>
      match lookup k fields with Some _ => true | None => false end
  | _ => false
  end.

(** [o.k] for an own property, [undefined] when there is none. *)
Definition field (o : value) (k : string) : value :=
  match o with
  | VObj fields =>
      match lookup k fields with Some v => v | None => VUndefined end
  | _ => VUndefined
  end.

Arguments has : simpl never.
Arguments field : simpl never.

(** ** Outcomes, exceptions and the console *)

Inductive exn : Type :=
| TypeError (message : string)
| ComponentError (message : string) (path : list string).

(** What [console.warn] and [console.error] receive. *)
Inductive log_arg : Type :=
| LStr (s : string)
| LVal (v : value)
| LExn (e : exn)
| LOther (what : string).   (* a string the model does not spell out *)

Inductive log_entry : Type :=
| Warn (args : list log_arg)
| Error (args : list log_arg).

(** The two ways the model, rather than the program, ends a call: the
    recursion budget of a definition is used up, or the program reaches a
    coercion the model does not describe. *)
Inductive halt_reason : Type :=
| OutOfFuel
| Unmodelled (what : string).

Inductive outcome (A : Type) : Type :=
| Ok (a : A)
| Throw (e : exn)
| Halt (h : halt_reason).

Arguments Ok {A} a.
Arguments Throw {A} e.
Arguments Halt {A} h.

(** A computation: how it ended and what it wrote to the console. *)
Definition M (A : Type) : Type := (outcome A * list log_entry)%type.

Definition ret {A} (a : A) : M A := (Ok a, []).

Definition bind {A B} (m : M A) (f : A -> M B) : M B :=
  match m with
  | (Ok a, l) => let (r, l') := f a in (r, l ++ l')
  | (Throw e, l) => (Throw e, l)
  | (Halt h, l) => (Halt h, l)
  end.

Definition throw {A} (e : exn) : M A := (Throw e, []).

Definition halt {A} (h : halt_reason) : M A := (Halt h, []).

(** ToString as the program runs it: [String(v)], [s + v], a template
    literal, a property key [o[v]], and a value stored as the text of a DOM
    node or in a DOM string attribute. *)
Definition to_string (v : value) : M string :=
  if convertible v then ret (ToString v)
  else throw (TypeError "Cannot convert object to primitive value").

Definition console_warn (args : list log_arg) : M unit := (Ok tt, [Warn args]).

Definition console_error (args : list log_arg) : M unit := (Ok tt, [Error args]).

(** [try { m } catch (error) { handler error }]: only a JavaScript exception
    is caught. *)
Definition try_catch {A} (m : M A) (handler : exn -> M A) : M A :=
  match m with
  | (Throw e, l) => let (r, l') := handler e in (r, l ++ l')
  | _ => m
  end.

Declare Scope js_scope.
Delimit Scope js_scope with js.

Notation "x <- m ;; k" := (bind m (fun x => k))
  (at level 100, m at next level, right associativity) : js_scope.
Notation "m ;; k" := (bind m (fun _ => k))
  (at level 100, right associativity) : js_scope.

Open Scope js_scope.

(** [if (b) { m }] where [m] has no value. *)
Definition when (b : bool) (m : M unit) : M unit := if b then m else ret tt.

(** [o.k]: reading a property of [undefined] or [null] throws; on a string or
    an array the read is described for the names this program reads that
    these do not inherit, which leaves out [String.prototype.bold], a
    function that the renderer only tests ([flag_set]), and
    [Array.prototype.with], which the program never reads: it reads [with]
    of a component with a truthy [translate], and an array has none. *)
Definition get (o : value) (k : string) : M value :=
  match o with
  | VUndefined | VNull =>
      throw (TypeError ("Cannot read properties of " +++ ToString o))
  | VStr _ =>
      if k =? "bold" then halt (Unmodelled "String.prototype.bold")
      else ret VUndefined
  | VArr _ =>
      if k =? "with" then halt (Unmodelled "Array.prototype.with")
      else ret VUndefined
  | _ => ret (field o k)
  end.

(** [items.forEach((x, index) => f x index)]. *)
Fixpoint forEach_from (index : nat) (items : list value)
    (f : value -> nat -> M unit) : M unit :=
  match items with
  | [] => ret tt
  | x :: rest => f x index ;; forEach_from (S index) rest f
  end.

Definition forEach := forEach_from 0.

(** [items.map(f)] for an [f] with effects. *)
Fixpoint mapM {A B} (f : A -> M B) (items : list A) : M (list B) :=
  match items with
  | [] => ret []
  | x :: rest => y <- f x ;; ys <- mapM f rest ;; ret (y :: ys)
  end.

(** ** Constants *)

Definition MAX_CHAT_LENGTH : nat := 4096.
Definition MAX_CHAT_DEPTH : nat := 8.

Definition VALID_COLORS : list string :=
  [ "black"; "dark_blue"; "dark_green"; "dark_aqua"; "dark_red";
    "dark_purple"; "gold"; "gray"; "dark_gray"; "blue"; "green"; "aqua";
    "red"; "light_purple"; "yellow"; "white"; "reset" ].

Definition VALID_HOVER_EVENTS : list string :=
  [ "show_text"; "show_item"; "show_entity" ].

(** [list.includes(s)]. *)
Definition includes (l : list string) (s : string) : bool :=
  existsb (String.eqb s) l.

(** ** The validator *)

Module Validator.

Definition fail (message : string) (path : list string) : M unit :=
  throw (ComponentError message path).

Section HoverEvents.

(** The nested helpers of [assertIsComponent] call it back on the components
    of a tooltip. *)
Variable assertIsComponent : value -> list string -> M unit.

Definition assertIsShowTextHoverEvent (hoverEvent : value)
    (path : list string) : M unit :=
  when (negb (has "contents" hoverEvent) && negb (has "value" hoverEvent))
    (fail "HoverEvent does not have a contents or value property" path) ;;
  let contents :=
    if has "contents" hoverEvent then field hoverEvent "contents"
    else field hoverEvent "value" in
  if typeof contents =? "string" then ret tt
  else
    match contents with
    | VArr items =>
        forEach items (fun component index =>
          if typeof component =? "string" then ret tt
          else assertIsComponent component
                 (path ++ ["contents"; nat_toString index]))
    | _ => assertIsComponent contents (path ++ ["contents"])
    end.

Definition assertIsShowItemHoverEvent (hoverEvent : value)
    (path : list string) : M unit :=
  when (negb (has "contents" hoverEvent) && negb (has "value" hoverEvent))
    (fail "HoverEvent does not have a contents or value property" path) ;;
  if has "value" hoverEvent then
    when (negb (typeof (field hoverEvent "value") =? "string"))
      (fail "HoverEvent.value is not a string" (path ++ ["value"]))
  else
    let contents := field hoverEvent "contents" in
    when (negb (typeof contents =? "object") || nullish contents)
      (fail "HoverEvent.contents is not an object" (path ++ ["contents"])) ;;
    when (negb (has "id" contents))
      (fail "HoverEvent.contents.id is not present"
         (path ++ ["contents"; "id"])) ;;
    when (negb (typeof (field contents "id") =? "string"))
      (fail "HoverEvent.contents.id is not a string"
         (path ++ ["contents"; "id"])) ;;
    when (has "count" contents
          && negb (typeof (field contents "count") =? "number"))
      (fail "HoverEvent.contents.count is not a number"
         (path ++ ["contents"; "count"])) ;;
    when (has "tag" contents
          && negb (typeof (field contents "tag") =? "string"))
      (fail "HoverEvent.contents.tag is not a string"
         (path ++ ["contents"; "tag"])).

Definition assertIsShowEntityHoverEvent (hoverEvent : value)
    (path : list string) : M unit :=
  when (negb (has "contents" hoverEvent) && negb (has "value" hoverEvent))
    (fail "HoverEvent does not have a contents or value property" path) ;;
  if has "value" hoverEvent then
    when (negb (typeof (field hoverEvent "value") =? "string"))
      (fail "HoverEvent.value is not a string" (path ++ ["value"]))
  else
    let contents := field hoverEvent "contents" in
    when (negb (typeof contents =? "object") || nullish contents)
      (fail "HoverEvent.contents is not an object" (path ++ ["contents"])) ;;
    when (negb (has "type" contents))
      (fail "HoverEvent.contents.type is not present"
         (path ++ ["contents"; "type"])) ;;
    when (negb (typeof (field contents "type") =? "string"))
      (fail "HoverEvent.contents.type is not a string"
         (path ++ ["contents"; "type"])) ;;
    when (negb (has "id" contents))
      (fail "HoverEvent.contents.id is not present"
         (path ++ ["contents"; "id"])) ;;
    when (has "name" contents
          && negb (typeof (field contents "name") =? "string"))
      (fail "HoverEvent.contents.name is not a string"
         (path ++ ["contents"; "name"])).

Definition assertIsHoverEvent (hoverEvent : value) (path : list string)
    : M unit :=
  when (negb (truthy hoverEvent) || negb (typeof hoverEvent =? "object"))
    (fail "HoverEvent is not an object" path) ;;
  when (negb (has "action" hoverEvent))
    (fail "HoverEvent.action is not present" path) ;;
  let action := field hoverEvent "action" in
  when (negb (typeof action =? "string"))
    (fail "HoverEvent.action is not a string" (path ++ ["action"])) ;;
  when (negb (includes VALID_HOVER_EVENTS (ToString action)))
    (fail ("HoverEvent.action is not a valid hover event: "
           +++ ToString action) (path ++ ["action"])) ;;
  if ToString action =? "show_text" then
    assertIsShowTextHoverEvent hoverEvent path
  else if ToString action =? "show_item" then
    assertIsShowItemHoverEvent hoverEvent path
  else if ToString action =? "show_entity" then
    assertIsShowEntityHoverEvent hoverEvent path
  else ret tt.

End HoverEvents.

(** The type of a field that is present: [if (k in component && typeof
    component.k !== ty) throw ...]. *)
Definition check_field (component : value) (k ty message : string)
    (path : list string) : M unit :=
  when (has k component && negb (typeof (field component k) =? ty))
    (fail message (path ++ [k])).

(** The [extra] and [with] blocks: the field must be an array, and each of
    its entries that is not a string a component. *)
Definition check_children (assertIsComponent : value -> list string -> M unit)
    (component : value) (k message : string) (path : list string) : M unit :=
  when (has k component)
    (match field component k with
     | VArr items =>
         forEach items (fun component index =>
           if typeof component =? "string" then ret tt
           else assertIsComponent component
                  (path ++ [k; nat_toString index]))
     | _ => fail message (path ++ [k])
     end).

End Validator.

Import Validator.

(** [assertIsComponent(component, path)].  The recursion of the source is
    bounded by its own depth check; here it runs on a budget [fuel], and
    [assertIsComponent_budget] shows that a budget of ten is never used up. *)
Fixpoint assertIsComponent (fuel : nat) (component : value)
    (path : list string) : M unit :=
  match fuel with
  | O => halt OutOfFuel
  | S fuel =>
      when (MAX_CHAT_DEPTH <? List.length path)%nat
        (fail "Maximum chat depth exceeded" path) ;;
      when (negb (truthy component) || negb (typeof component =? "object"))
        (fail "Component is not an object" path) ;;
      when (negb (has "text" component) && negb (has "translate" component)
            && negb (has "extra" component))
        (fail "Component does not have a text, translate, or extra property"
           path) ;;
      check_field component "text" "string"
        "Component.text is not a string" path ;;
      check_field component "translate" "string"
        "Component.translate is not a string" path ;;
      check_field component "color" "string"
        "Component.color is not a string" path ;;
      check_field component "bold" "boolean"
        "Component.bold is not a boolean" path ;;
      check_field component "italic" "boolean"
        "Component.italic is not a boolean" path ;;
      check_field component "underlined" "boolean"
        "Component.underlined is not a boolean" path ;;
      check_field component "strikethrough" "boolean"
        "Component.strikethrough is not a boolean" path ;;
      check_field component "obfuscated" "boolean"
        "Component.obfuscated is not a boolean" path ;;
      check_children (assertIsComponent fuel) component "extra"
        "Component.extra is not an array" path ;;
      check_children (assertIsComponent fuel) component "with"
        "Component.with is not an array" path ;;
      when (has "hoverEvent" component)
        (assertIsHoverEvent (assertIsComponent fuel)
           (field component "hoverEvent") (path ++ ["hoverEvent"]))
  end.

(** ** The DOM nodes the renderer builds

    A node is a text node or an element with its tag, the attributes this
    program sets, and its children in order. *)

Record Attributes : Type := {
  classList : list string;
  style_color : option string;
  title : option string;
  href : option string;
  rel : option string;
  target : option string
}.

Inductive Node : Type :=
| Text (data : string)
| Element (tagName : string) (attributes : Attributes) (childNodes : list Node).

Definition no_attributes : Attributes :=
  {| classList := []; style_color := None; title := None;
     href := None; rel := None; target := None |}.

(** [document.createElement(tag)] and [document.createTextNode(data)]. *)
Definition createElement (tag : string) : Node := Element tag no_attributes [].
Definition createTextNode (data : string) : Node := Text data.

(** [node.textContent]: the text of the descendants, in document order. *)
Fixpoint textContent (node : Node) : string :=
  match node with
  | Text data => data
  | Element _ _ children => String.concat "" (map textContent children)
  end.

Definition children (node : Node) : list Node :=
  match node with Text _ => [] | Element _ _ cs => cs end.

Definition attributes_of (node : Node) : Attributes :=
  match node with Text _ => no_attributes | Element _ a _ => a end.

Definition with_attributes (f : Attributes -> Attributes) (node : Node) : Node :=
  match node with
  | Text data => Text data
  | Element tag a cs => Element tag (f a) cs
  end.

(** [node.classList.add(token)]: a token already in the list is not added
    again. *)
Definition classList_add (token : string) : Node -> Node :=
  with_attributes (fun a =>
    {| classList := if includes (classList a) token then classList a
                    else classList a ++ [token];
       style_color := style_color a; title := title a;
       href := href a; rel := rel a; target := target a |}).

(** [node.style.color = c]. *)
Definition set_style_color (c : string) : Node -> Node :=
  with_attributes (fun a =>
    {| classList := classList a; style_color := Some c; title := title a;
       href := href a; rel := rel a; target := target a |}).

(** [node.title = t]. *)
Definition set_title (t : string) : Node -> Node :=
  with_attributes (fun a =>
    {| classList := classList a; style_color := style_color a;
       title := Some t; href := href a; rel := rel a; target := target a |}).

(** [parent.appendChild(child)], for a child that has no parent yet. *)
Definition appendChild (child : Node) (parent : Node) : Node :=
  match parent with
  | Text data => Text data
  | Element tag a cs => Element tag a (cs ++ [child])
  end.

(** [nodes.forEach(child => parent.appendChild(child))]. *)
Definition appendChildren (nodes : list Node) (parent : Node) : Node :=
  fold_left (fun parent child => appendChild child parent) nodes parent.

(** [node.textContent = data]: every child is removed and, unless [data] is
    empty, one text node takes their place. *)
Definition set_textContent (data : string) (node : Node) : Node :=
  match node with
  | Text _ => Text data
  | Element tag a _ =>
      Element tag a (if data =? "" then [] else [Text data])
  end.

(** The anchor [linkifyText] builds for a URL. *)
Definition anchor (url : string) : Node :=
  Element "a"
    {| classList := []; style_color := None; title := None;
       href := Some url; rel := Some "noopener noreferrer";
       target := Some "_blank" |}
    [Text url].

(** ** Strings *)

(** [s.slice(from, to)] for [from <= to]. *)
Definition slice (s : string) (from to : nat) : string :=
  substring from (to - from) s.

(** [s.slice(from)]. *)
Definition slice_from (s : string) (from : nat) : string :=
  substring from (String.length s - from) s.

(** [s.startsWith(p)]. *)
Definition startsWith (p s : string) : bool := String.prefix p s.

(** The rest of [s] after the prefix [p]. *)
Fixpoint strip_prefix (p s : string) : option string :=
  match p, s with
  | EmptyString, _ => Some s
  | String a p', String b s' =>
      if Ascii.eqb a b then strip_prefix p' s' else None
  | String _ _, EmptyString => None
  end.

(** [s.includes(p)]. *)
Fixpoint string_includes (p s : string) : bool :=
  if String.prefix p s then true
  else match s with
       | EmptyString => false
       | String _ s' => string_includes p s'
       end.

Definition code (c : ascii) : nat := nat_of_ascii c.

(** One code unit of [s.toLowerCase()]: the capital letters of Latin-1. *)
Definition lower (c : ascii) : ascii :=
  let n := code c in
  if ((65 <=? n) && (n <=? 90))%nat then ascii_of_nat (n + 32)
  else if ((192 <=? n) && (n <=? 222) && negb (n =? 215))%nat then
    ascii_of_nat (n + 32)
  else c.

(** [s.toLowerCase()]. *)
Fixpoint toLowerCase (s : string) : string :=
  match s with
  | EmptyString => EmptyString
  | String c s' => String (lower c) (toLowerCase s')
  end.

(** The class [\s] among the code units below 256. *)
Definition is_space (c : ascii) : bool :=
  let n := code c in
  (((9 <=? n) && (n <=? 13)) || (n =? 32) || (n =? 160))%nat.

(** The class [\d]. *)
Definition is_digit (c : ascii) : bool :=
  let n := code c in ((48 <=? n) && (n <=? 57))%nat.

(** The class [[0-9a-fA-F]]. *)
Definition is_hex (c : ascii) : bool :=
  let n := code c in
  is_digit c || ((97 <=? n) && (n <=? 102))%nat
  || ((65 <=? n) && (n <=? 70))%nat.

(** The length of the longest prefix of [s] whose code units satisfy [p]:
    what a greedy [p*] consumes. *)
Fixpoint span (p : ascii -> bool) (s : string) : nat :=
  match s with
  | EmptyString => 0
  | String c s' => if p c then S (span p s') else 0
  end.

Fixpoint string_forallb (p : ascii -> bool) (s : string) : bool :=
  match s with
  | EmptyString => true
  | String c s' => p c && string_forallb p s'
  end.

(** [s.replace(/_/g, '-')]. *)
Fixpoint replace_underscores (s : string) : string :=
  match s with
  | EmptyString => EmptyString
  | String c s' =>
      String (if Ascii.eqb c "_" then "-"%char else c) (replace_underscores s')
  end.

(** [parseInt(digits)] for a string of decimal digits: the integer they
    denote.  The program gets the Number nearest to it, which is this integer
    when it is at most [MAX_SAFE_INTEGER + 1]. *)
Definition parseInt (digits : string) : Z :=
  (fix go (acc : Z) (s : string) : Z :=
     match s with
     | EmptyString => acc
     | String c s' => go (acc * 10 + Z.of_nat (code c - 48))%Z s'
     end) 0%Z digits.

(** ** Global regular expressions

    A regular expression is given by its matcher at a position: the length of
    the match that starts at the head of the string, if there is one.  The
    three global expressions of the program never match the empty string. *)

Record regmatch : Type := {
  index : nat;        (* match.index *)
  matched : string    (* match[0] *)
}.

(** The end of a match: [regex.lastIndex] after [exec] returned it. *)
Definition match_end (m : regmatch) : nat := index m + String.length (matched m).

(** The matches successive calls of [regex.exec(s)] return before [null]:
    the leftmost match from the current position, then on from its end.
    [skip] counts the code units still covered by the last match, [pos] is
    the position of the head of [s] in the whole string. *)
Fixpoint exec_from (match_at : string -> option nat) (skip pos : nat)
    (s : string) : list regmatch :=
  match s with
  | EmptyString => []
  | String _ rest =>
      match skip with
      | S k => exec_from match_at k (S pos) rest
      | O =>
          match match_at s with
          | Some n =>
              {| index := pos; matched := substring 0 n s |}
                :: exec_from match_at (n - 1) (S pos) rest
          | None => exec_from match_at 0 (S pos) rest
          end
      end
  end.

Definition exec_all (match_at : string -> option nat) (s : string)
    : list regmatch :=
  exec_from match_at 0 0 s.

(** [/(https?:\/\/[^\s]+)/]: "http", an optional "s" (taken when it is there:
    without it the next code unit would have to be ":"), "://", then as many
    code units that are not white space as there are, at least one. *)
Definition url_at (s : string) : option nat :=
  match strip_prefix "http" s with
  | None => None
  | Some r =>
      let (scheme, r) :=
        match strip_prefix "s" r with
        | Some r' => (5, r')
        | None => (4, r)
        end in
      match strip_prefix "://" r with
      | None => None
      | Some r =>
          let n := span (fun c => negb (is_space c)) r in
          if (n =? 0)%nat then None else Some (scheme + 3 + n)
      end
  end.

(** [/%(\d+)\$s/]: "%", one or more digits, "$s". *)
Definition numbered_at (s : string) : option nat :=
  match strip_prefix "%" s with
  | None => None
  | Some r =>
      let n := span is_digit r in
      if (n =? 0)%nat then None
      else if String.prefix "$s" (substring n (String.length r - n) r)
           then Some (1 + n + 2)
           else None
  end.

(** The group [(\d+)] of a match of [/%(\d+)\$s/]: [match[1]]. *)
Definition group1 (m : regmatch) : string :=
  substring 1 (String.length (matched m) - 3) (matched m).

(** [/%s/]. *)
Definition simple_at (s : string) : option nat :=
  if String.prefix "%s" s then Some 2 else None.

(** [/^#[0-9a-fA-F]{6}$/.test(s)]. *)
Definition is_hex_color (s : string) : bool :=
  match s with
  | String c digits =>
      Ascii.eqb c "#" && (String.length digits =? 6)%nat
      && string_forallb is_hex digits
  | EmptyString => false
  end.

(** ** The colour check *)

(** [isValidColor(color)] on a string. *)
Definition isValidColor (color : string) : bool :=
  if color =? "" then false
  else
    let color := toLowerCase color in
    if includes VALID_COLORS color then true
    else is_hex_color color.

(** ** The linkifier *)

(** One turn of the [while (match !== null)] loop shared by [linkifyText] and
    the two substitutions: the text between the last match and this one. *)
Definition text_before (s : string) (lastIndex : nat) (m : regmatch)
    : list Node :=
  if (lastIndex <? index m)%nat then [createTextNode (slice s lastIndex (index m))]
  else [].

(** The statement after the loop: the text after the last match. *)
Definition text_after (s : string) (lastIndex : nat) : list Node :=
  if (lastIndex <? String.length s)%nat then [createTextNode (slice_from s lastIndex)]
  else [].

Fixpoint linkify_loop (text : string) (matches : list regmatch)
    (lastIndex : nat) (result : list Node) : list Node :=
  match matches with
  | [] => result ++ text_after text lastIndex
  | m :: rest =>
      let result := result ++ text_before text lastIndex m in
      let url := matched m in
      let result := result ++ [anchor url] in
      linkify_loop text rest (match_end m) result
  end.

(** [linkifyText(text)] on a string. *)
Definition linkifyText (text : string) : list Node :=
  linkify_loop text (exec_all url_at text) 0 [].

(** [linkifyText(text)] on a value that is not a string, which the renderer
    passes for a [text] it has not validated.  [regex.exec] converts its
    argument to a string and matches that; [text.slice] and [text.length] are
    those of the value itself: an array has both, a number or a boolean has
    neither, and an object has the own properties of these names, none of
    which is a function. *)

(** [text.slice(from, to)] as the argument of [createTextNode]. *)
Definition slice_value (text : value) (from : nat) (to : option nat)
    : M string :=
  match text with
  | VUndefined | VNull =>
      throw (TypeError ("Cannot read properties of " +++ ToString text))
  | VStr s =>
      ret (match to with Some to => slice s from to | None => slice_from s from end)
  | VArr items =>
      let rest := skipn from items in
      to_string
        (VArr (match to with Some to => firstn (to - from) rest | None => rest end))
  | _ => throw (TypeError "text.slice is not a function")
  end.

(** [0 < n] for a number. *)
Definition is_positive (shown : string) : bool :=
  negb (shown =? "0") && negb (shown =? "NaN") && negb (String.prefix "-" shown).

(** [lastIndex < text.length]: a comparison with [undefined] is false. *)
Definition below_length (lastIndex : nat) (text : value) : M bool :=
  match text with
  | VUndefined | VNull =>
      throw (TypeError ("Cannot read properties of " +++ ToString text))
  | VStr s => ret (lastIndex <? String.length s)%nat
  | VArr items => ret (lastIndex <? List.length items)%nat
  | VBool _ | VNum _ => ret false
  | VObj _ =>
      match field text "length" with
      | VUndefined | VNull => ret false
      | VBool b => ret (lastIndex <? (if b then 1 else 0))%nat
      | VNum shown =>
          if (lastIndex =? 0)%nat then ret (is_positive shown)
          else halt (Unmodelled "the order of two numbers")
      | _ => halt (Unmodelled "the number a string or an object converts to")
      end
  end.

Fixpoint linkify_value_loop (text : value) (matches : list regmatch)
    (lastIndex : nat) (result : list Node) : M (list Node) :=
  match matches with
  | [] =>
      more <- below_length lastIndex text ;;
      if more then
        rest <- slice_value text lastIndex None ;;
        ret (result ++ [createTextNode rest])
      else ret result
  | m :: rest =>
      result <-
        (if (lastIndex <? index m)%nat then
           before <- slice_value text lastIndex (Some (index m)) ;;
           ret (result ++ [createTextNode before])
         else ret result) ;;
      linkify_value_loop text rest (match_end m) (result ++ [anchor (matched m)])
  end.

Definition linkifyValue (text : value) : M (list Node) :=
  s <- to_string text ;;
  linkify_value_loop text (exec_all url_at s) 0 [].

(** ** Arrays as the program uses them *)

(** [a[i]] for an integer [i].  The key of an object is the string of the
    number, which is the string of the integer up to [MAX_SAFE_INTEGER]. *)
Definition element (a : value) (i : Z) : M value :=
  match a with
  | VUndefined | VNull =>
      throw (TypeError ("Cannot read properties of " +++ ToString a))
  | VArr items =>
      ret (if (i <? 0)%Z || (Z.of_nat (List.length items) <=? i)%Z
           then VUndefined
           else nth (Z.to_nat i) items VUndefined)
  | VStr s =>
      ret (if (i <? 0)%Z || (Z.of_nat (String.length s) <=? i)%Z
           then VUndefined
           else match String.get (Z.to_nat i) s with
                | Some c => VStr (String c EmptyString)
                | None => VUndefined
                end)
  | VObj _ =>
      if (i <=? MAX_SAFE_INTEGER)%Z then ret (field a (Z_toString i))
      else halt (Unmodelled "the property key of a number above 2^53")
  | VBool _ | VNum _ => ret VUndefined
  end.

(** [a.length]. *)
Definition length_of (a : value) : M value :=
  match a with
  | VUndefined | VNull =>
      throw (TypeError ("Cannot read properties of " +++ ToString a))
  | VArr items => ret (VNum (nat_toString (List.length items)))
  | VStr s => ret (VNum (nat_toString (String.length s)))
  | VObj _ => ret (field a "length")
  | VBool _ | VNum _ => ret VUndefined
  end.

(** [a.map(f)]: only an array has a method [map]. *)
Definition array_map {B} (a : value) (f : value -> M B) : M (list B) :=
  match a with
  | VArr items => mapM f items
  | VUndefined | VNull =>
      throw (TypeError ("Cannot read properties of " +++ ToString a))
  | _ => throw (TypeError "map is not a function")
  end.

(** [v === 0]. *)
Definition is_zero (v : value) : bool :=
  match v with VNum shown => shown =? "0" | _ => false end.

(** The double quote, for the messages that quote a template. *)
Definition dquote : string := String (ascii_of_nat 34) EmptyString.

(** The text of the warning for an argument that is not there, for an index
    up to [MAX_SAFE_INTEGER]. *)
Definition missing_argument_message (index : Z) (template : string) : string :=
  "Missing argument " +++ Z_toString index +++ " for template "
  +++ dquote +++ template +++ dquote.

Section Renderer.

(** ** The translation table

    [translations.mjs] is not part of the sources read here: the own
    properties of the object it exports are a parameter.  The object is a
    plain one, so a read also finds what [Object.prototype] defines. *)
Variable translations : string -> option string.

Definition OBJECT_PROTOTYPE : list string :=
  [ "constructor"; "hasOwnProperty"; "isPrototypeOf"; "propertyIsEnumerable";
    "toLocaleString"; "toString"; "valueOf"; "__proto__";
    "__defineGetter__"; "__defineSetter__"; "__lookupGetter__";
    "__lookupSetter__" ].

Inductive table_value : Type :=
| Absent
| Template (template : string)
| Inherited.

(** [translations[key]]. *)
Definition table_read (key : string) : table_value :=
  match translations key with
  | Some template => Template template
  | None => if includes OBJECT_PROTOTYPE key then Inherited else Absent
  end.

(** ** The substitution engine *)

Section Substitution.

Variable formatComponent : value -> M Node.

(** The three cases both substitutions make on an argument. *)
Definition substitute (value : value) (missing : M Node) : M Node :=
  if negb (truthy value) then missing
  else if typeof value =? "string" then ret (createTextNode (ToString value))
  else formatComponent value.

Definition missing_argument (index : Z) (template token : string) : M Node :=
  console_warn
    [if (index <=? MAX_SAFE_INTEGER)%Z
     then LStr (missing_argument_message index template)
     else LOther "Missing argument, with an index above 2^53"] ;;
  ret (createTextNode token).

Fixpoint numbered_loop (template : string) (args : value)
    (matches : list regmatch) (lastIndex : nat) (result : list Node)
    : M (list Node) :=
  match matches with
  | [] => ret (result ++ text_after template lastIndex)
  | m :: rest =>
      let result := result ++ text_before template lastIndex m in
      let index := (parseInt (group1 m) - 1)%Z in
      value <- element args index ;;
      node <- substitute value (missing_argument index template (matched m)) ;;
      numbered_loop template args rest (match_end m) (result ++ [node])
  end.

(** [numberedSubstitution(template, args)]. *)
Definition numberedSubstitution (template : string) (args : value)
    : M (list Node) :=
  numbered_loop template args (exec_all numbered_at template) 0 [].

Fixpoint simple_loop (template : string) (args : value)
    (matches : list regmatch) (lastIndex : nat) (index : nat)
    (result : list Node) : M (list Node) :=
  match matches with
  | [] => ret (result ++ text_after template lastIndex)
  | m :: rest =>
      let result := result ++ text_before template lastIndex m in
      value <- element args (Z.of_nat index) ;;
      let index := S index in
      node <- substitute value
                (missing_argument (Z.of_nat index) template "%s") ;;
      simple_loop template args rest (match_end m) index (result ++ [node])
  end.

(** [simpleSubstitution(template, args)]. *)
Definition simpleSubstitution (template : string) (args : value)
    : M (list Node) :=
  simple_loop template args (exec_all simple_at template) 0 0 [].

(** [formatTranslation(key, args)]. *)
Definition formatTranslation (key args : value) : M (list Node) :=
  if negb (truthy key) then
    console_warn [LStr "Translation key is missing"] ;;
    ret [createTextNode (ToString key)]
  else if (typeof key =? "string") && (ToString key =? "%s") then
    n <- length_of args ;;
    if is_zero n then
      console_warn [LStr "Missing arguments for placeholder key: %s"] ;;
      ret [createTextNode "%s"]
    else
      array_map args (fun value =>
        if typeof value =? "string" then ret (createTextNode (ToString value))
        else formatComponent value)
  else
    key <- to_string key ;;
    let failed (error : exn) :=
      console_error
        [LStr ("Error formatting translation for key: " +++ key); LExn error] ;;
      ret [createTextNode key] in
    match table_read key with
    | Absent | Template EmptyString =>
        console_warn [LStr ("Missing translation for key: " +++ key)] ;;
        ret [createTextNode key]
    | Template template =>
        try_catch
          (if string_includes "$s" template then
             numberedSubstitution template args
           else simpleSubstitution template args)
          failed
    | Inherited =>
        try_catch (throw (TypeError "template.includes is not a function"))
          failed
    end.

End Substitution.

(** ** Plain text and tooltips *)

Section Recursion.

Variable formatComponent : value -> M Node.
Variable formatComponentPlainText : value -> M string.

(** The body of [formatComponentPlainText(component)]. *)
Definition plain_text (component : value) : M string :=
  text <- get component "text" ;;
  result <-
    (if truthy text then to_string text
     else
       translate <- get component "translate" ;;
       if truthy translate then
         args <- get component "with" ;;
         nodes <- formatTranslation formatComponent translate
                    (coalesce args (VArr [])) ;;
         ret (join "" (map textContent nodes))
       else ret "") ;;
  extra <- get component "extra" ;;
  if truthy extra then
    parts <- array_map extra (fun component =>
               if typeof component =? "string" then ret (ToString component)
               else formatComponentPlainText component) ;;
    ret (result +++ join "" parts)
  else ret result.

Definition unsupported_legacy : M value :=
  console_warn [LStr "Unsupported legacy hoverEvent"] ;;
  ret (VStr "").

(** [formatHoverEvent(hoverEvent)].  The result is the value the [switch]
    returns: [undefined] when no case applies, and whatever [contents.id] or
    [contents.name] holds. *)
Definition formatHoverEvent (hoverEvent : value) : M value :=
  action <- get hoverEvent "action" ;;
  if (typeof action =? "string") && (ToString action =? "show_text") then
    c <- get hoverEvent "contents" ;;
    v <- get hoverEvent "value" ;;
    let contents := coalesce c v in
    if typeof contents =? "undefined" then
      console_warn [LStr "HoverEvent.contents is undefined"] ;;
      ret (VStr "")
    else if typeof contents =? "string" then ret contents
    else
      match contents with
      | VArr items =>
          parts <- mapM (fun component =>
                     if typeof component =? "string"
                     then ret (ToString component)
                     else formatComponentPlainText component) items ;;
          ret (VStr (join "" parts))
      | _ =>
          s <- formatComponentPlainText contents ;;
          ret (VStr s)
      end
  else if (typeof action =? "string") && (ToString action =? "show_item") then
    contents <- get hoverEvent "contents" ;;
    if negb (truthy contents) then unsupported_legacy
    else
      count <- get contents "count" ;;
      id <- get contents "id" ;;
      if truthy count then
        count <- to_string count ;;
        id <- to_string id ;;
        ret (VStr (count +++ "x " +++ id))
      else ret id
  else if (typeof action =? "string") && (ToString action =? "show_entity") then
    contents <- get hoverEvent "contents" ;;
    if negb (truthy contents) then unsupported_legacy
    else
      name <- get contents "name" ;;
      ret (or_else name (VStr "Unnamed Entity"))
  else ret VUndefined.

(** ** The renderer *)

(** Lines 662 to 670: the colour. *)
Definition apply_color (component : value) (result : Node) : M Node :=
  color <- get component "color" ;;
  if truthy color then
    match color with
    | VStr c =>
        if negb (isValidColor c) then
          console_warn [LStr "Invalid color format:"; LVal color] ;;
          ret result
        else if startsWith "#" c then ret (set_style_color c result)
        else ret (classList_add ("mc-" +++ replace_underscores c) result)
    | _ => throw (TypeError "color.toLowerCase is not a function")
    end
  else ret result.

(** [if (component.flag)] for one of the five style flags.  A string has no
    property of these names but [bold], a method of every string. *)
Definition flag_set (component : value) (flag : string) : M bool :=
  match component with
  | VStr _ => ret (flag =? "bold")
  | _ =>
      v <- get component flag ;;
      ret (truthy v)
  end.

(** Lines 672 to 686: one style flag. *)
Definition apply_flag (component : value) (flag : string) (result : Node)
    : M Node :=
  flagged <- flag_set component flag ;;
  ret (if flagged then classList_add ("mc-" +++ flag) result else result).

(** Lines 689 to 691: the tooltip. *)
Definition apply_hover (component : value) (result : Node) : M Node :=
  hoverEvent <- get component "hoverEvent" ;;
  if truthy hoverEvent then
    t <- formatHoverEvent hoverEvent ;;
    t <- to_string t ;;
    ret (set_title t result)
  else ret result.

(** Lines 693 to 699: the node's own content. *)
Definition apply_content (component : value) (result : Node) : M Node :=
  text <- get component "text" ;;
  if truthy text then
    match text with
    | VStr s => ret (appendChildren (linkifyText s) result)
    | text =>
        nodes <- linkifyValue text ;;
        ret (appendChildren nodes result)
    end
  else
    translate <- get component "translate" ;;
    if truthy translate then
      args <- get component "with" ;;
      nodes <- formatTranslation formatComponent translate
                 (coalesce args (VArr [])) ;;
      ret (appendChildren nodes result)
    else ret result.

(** Lines 701 to 711: the children. *)
Definition apply_extra (component : value) (result : Node) : M Node :=
  extra <- get component "extra" ;;
  if truthy extra then
    nodes <- array_map extra (fun component =>
               if typeof component =? "string"
               then ret (createTextNode (ToString component))
               else formatComponent component) ;;
    ret (appendChildren nodes result)
  else ret result.

(** The [try] block up to line 711: the node as assembled. *)
Definition assemble (component : value) : M Node :=
  let result := createElement "span" in
  result <- apply_color component result ;;
  result <- apply_flag component "bold" result ;;
  result <- apply_flag component "italic" result ;;
  result <- apply_flag component "underlined" result ;;
  result <- apply_flag component "strikethrough" result ;;
  result <- apply_flag component "obfuscated" result ;;
  result <- apply_hover component result ;;
  result <- apply_content component result ;;
  apply_extra component result.

(** Lines 713 to 718: the length limit. *)
Definition truncate (result : Node) : M Node :=
  if negb (textContent result =? "")
     && (MAX_CHAT_LENGTH <? String.length (textContent result))%nat
  then
    console_warn [LStr "Chat message exceeded maximum length, truncating"] ;;
    ret (set_textContent (slice (textContent result) 0 MAX_CHAT_LENGTH) result)
  else ret result.

(** Lines 719 to 722: the [catch] block. *)
Definition fallback (component : value) (error : exn) : M Node :=
  console_error [LStr "Error formatting component:"; LExn error] ;;
  text <- get component "text" ;;
  text <- to_string (coalesce text (VStr "")) ;;
  ret (createTextNode (slice text 0 MAX_CHAT_LENGTH)).

(** The body of [formatComponent(component)]. *)
Definition render (component : value) : M Node :=
  try_catch (result <- assemble component ;; truncate result)
    (fallback component).

End Recursion.

(** [formatComponent(component)] and [formatComponentPlainText(component)]
    call each other, always on a part of the component; they run here on a
    budget, which [formatComponent_budget] shows is never used up when it
    exceeds the height of the component. *)
Fixpoint formatComponent (fuel : nat) (component : value) : M Node :=
  match fuel with
  | O => halt OutOfFuel
  | S fuel =>
      render (formatComponent fuel) (formatComponentPlainText fuel) component
  end
with formatComponentPlainText (fuel : nat) (component : value) : M string :=
  match fuel with
  | O => halt OutOfFuel
  | S fuel =>
      plain_text (formatComponent fuel) (formatComponentPlainText fuel)
        component
  end.

End Renderer.

(** * Notions used to state the properties *)

(** The console output [l] followed by the computation [m]. *)
Definition after_log {A} (l : list log_entry) (m : M A) : M A :=
  let (r, l') := m in (r, l ++ l').

(** The element [formatComponent] creates. *)
Definition is_span (node : Node) : Prop :=
  exists a cs, node = Element "span" a cs.

(** [n] copies of the code unit [c]. *)
Fixpoint replicate (n : nat) (c : ascii) : string :=
  match n with
  | O => EmptyString
  | S n => String c (replicate n c)
  end.

(** A table with the templates the examples use. *)
Definition example_translations (key : string) : option string :=
  if key =? "swap" then Some "%2$s %1$s"
  else if key =? "chat.type.text" then Some "<%s> %s"
  else if key =? "price" then Some "$s %s"
  else if key =? "greet" then Some "hello %1$s"
  else None.

(** A component whose text has 5000 code units. *)
Definition long_component : value :=
  VObj [("text", VStr (replicate 5000 "a")); ("bold", VBool true)].

(** A long component with a colour, a style, a tooltip, a link and a styled
    child. *)
Definition long_styled_component : value :=
  VObj [("text", VStr ("see http://example.com " +++ replicate 5000 "a"));
        ("color", VStr "red");
        ("italic", VBool true);
        ("hoverEvent",
         VObj [("action", VStr "show_text"); ("contents", VStr "tip")]);
        ("extra", VArr [VObj [("text", VStr "child"); ("bold", VBool true)]])].

(** The property names [formatComponent] reads on a component. *)
Definition COMPONENT_FIELDS : list string :=
  [ "color"; "bold"; "italic"; "underlined"; "strikethrough"; "obfuscated";
    "hoverEvent"; "text"; "translate"; "with"; "extra" ].

(** The properties of a component with a [text] and a [translate]. *)
Definition text_and_translate_fields : list (string * value) :=
  [("text", VStr "go http://a.b"); ("translate", VStr "swap");
   ("with", VArr [VStr "a"; VStr "b"])].

(** A component with an empty [text] and a [translate]. *)
Definition empty_text_component : value :=
  VObj [("text", VStr ""); ("translate", VStr "swap");
        ("with", VArr [VStr "a"; VStr "b"])].

(** The same strings up to the case of the letters. *)
Definition same_ignoring_case (a b : string) : Prop :=
  toLowerCase a = toLowerCase b.

(** A [#] and six hexadecimal digits. *)
Definition hex_digit (c : ascii) : Prop :=
  In c (list_ascii_of_string "0123456789abcdefABCDEF").

Definition hex_pattern (s : string) : Prop :=
  exists digits,
    s = String "#" digits /\ String.length digits = 6 /\
    Forall hex_digit (list_ascii_of_string digits).

(** The warning for a colour that is not valid. *)
Definition invalid_color_warning (color : string) : log_entry :=
  Warn [LStr "Invalid color format:"; LVal (VStr color)].

(** The warning for a tooltip in the legacy form. *)
Definition legacy_warning : log_entry :=
  Warn [LStr "Unsupported legacy hoverEvent"].

(** An entity tooltip whose name is the empty string. *)
Definition unnamed_entity_event : value :=
  VObj [("action", VStr "show_entity");
        ("contents",
         VObj [("type", VStr "minecraft:pig"); ("id", VNum "7");
               ("name", VStr "")])].

(** An argument list in which the empty strings are left out. *)
Definition blank_to_undefined (v : value) : value :=
  match v with
  | VStr EmptyString => VUndefined
  | _ => v
  end.

(** The rest of [s] from position [n] on. *)
Fixpoint drop (n : nat) (s : string) : string :=
  match n, s with
  | O, _ => s
  | S n, String _ s' => drop n s'
  | S _, EmptyString => EmptyString
  end.

(** What the successive calls of [exec] on [text] from position [from] must
    return for a matcher [match_at]: each match is the leftmost one at or
    after the end of the one before, none starts in between, and none starts
    after the last. *)
Inductive scan_chain (match_at : string -> option nat) (text : string)
    : nat -> list regmatch -> Prop :=
| scan_done from :
    (forall p, from <= p < String.length text ->
               match_at (drop p text) = None) ->
    scan_chain match_at text from []
| scan_match from m rest :
    from <= index m ->
    (forall p, from <= p < index m -> match_at (drop p text) = None) ->
    match_at (drop (index m) text) = Some (String.length (matched m)) ->
    matched m = substring 0 (String.length (matched m)) (drop (index m) text) ->
    0 < String.length (matched m) ->
    match_end m <= String.length text ->
    scan_chain match_at text (match_end m) rest ->
    scan_chain match_at text from (m :: rest).

(** A matcher never matches the empty string and never reads past the end. *)
Definition sound_matcher (match_at : string -> option nat) : Prop :=
  forall s n, match_at s = Some n -> 0 < n <= String.length s.

Definition no_space (s : string) : bool :=
  string_forallb (fun c => negb (is_space c)) s.

(** A run of code units that are not white space and that begins with
    [http://] or [https://]. *)
Definition is_url_run (s : string) : bool :=
  (String.prefix "http://" s || String.prefix "https://" s) && no_space s.

(** Such a run with at least one code unit after the two slashes. *)
Definition is_url (u : string) : Prop :=
  exists rest,
    (u = "http://" +++ rest \/ u = "https://" +++ rest) /\
    rest <> "" /\ no_space rest = true.

(** No part of [t] is a URL. *)
Definition url_free (t : string) : Prop :=
  forall a u b, t = a +++ u +++ b -> ~ is_url u.

Definition starts_with_space (s : string) : Prop :=
  exists c r, s = String c r /\ is_space c = true.

(** What may follow a link: nothing, or a text that begins with white
    space. *)
Definition after_link (nodes : list Node) : Prop :=
  match nodes with
  | [] => True
  | Text t :: _ => starts_with_space t
  | Element _ _ _ :: _ => False
  end.

(** The fragments of [linkifyText]: texts that are not empty and hold no URL,
    and links of URLs that end where white space or the end of the input
    follows. *)
Inductive well_linked : list Node -> Prop :=
| linked_nil : well_linked []
| linked_text t rest :
    t <> "" -> url_free t -> well_linked rest -> well_linked (Text t :: rest)
| linked_url url rest :
    is_url url -> after_link rest -> well_linked rest ->
    well_linked (anchor url :: rest).

(** The message of the depth check. *)
Definition DEPTH_EXCEEDED : string := "Maximum chat depth exceeded".

(** The contents of a [show_text] tooltip as the validator reads them. *)
Definition hover_contents (hoverEvent : value) : value :=
  if has "contents" hoverEvent then field hoverEvent "contents"
  else field hoverEvent "value".

(** [node_at c path d]: [d] is the node the validator reaches from the
    component [c] along [path]: through an entry of [extra] or [with] that is
    not a string, or through the contents of a [show_text] tooltip. *)
Inductive node_at : value -> list string -> value -> Prop :=
| node_here c : node_at c [] c
| node_child c k items i x path d :
    k = "extra" \/ k = "with" ->
    field c k = VArr items ->
    nth_error items i = Some x ->
    (typeof x =? "string") = false ->
    node_at x path d ->
    node_at c (k :: nat_toString i :: path) d
| node_tooltip c x path d :
    field (field c "hoverEvent") "action" = VStr "show_text" ->
    hover_contents (field c "hoverEvent") = x ->
    (typeof x =? "string") = false -> isArray x = false ->
    node_at x path d ->
    node_at c ("hoverEvent" :: "contents" :: path) d
| node_tooltip_entry c items i x path d :
    field (field c "hoverEvent") "action" = VStr "show_text" ->
    hover_contents (field c "hoverEvent") = VArr items ->
    nth_error items i = Some x ->
    (typeof x =? "string") = false ->
    node_at x path d ->
    node_at c ("hoverEvent" :: "contents" :: nat_toString i :: path) d.

(** A leaf under [n] levels of [extra]. *)
Fixpoint nested (n : nat) : value :=
  match n with
  | O => VObj [("text", VStr "leaf")]
  | S n => VObj [("extra", VArr [nested n])]
  end.

(** A computation that ends by itself and writes nothing. *)
Definition pure {A} (m : M A) : Prop :=
  (exists a, m = (Ok a, [])) \/ (exists e, m = (Throw e, [])).

(** A depth error cites a path of nine to eleven entries. *)
Definition cites_deep (m : M unit) : Prop :=
  forall q l,
    m = (Throw (ComponentError DEPTH_EXCEEDED q), l) ->
    9 <= List.length q <= 11.

(** The computation [m] stops on the depth error that cites [q]. *)
Definition depth_error (m : M unit) (q : list string) : Prop :=
  exists l, m = (Throw (ComponentError DEPTH_EXCEEDED q), l).

(** A computation that throws. *)
Definition throws {A} (m : M A) : Prop := exists e, m = (Throw e, []).

(** The path of the leaf of [nested 5]. *)
Definition nested_five_path : list string :=
  ["extra"; "0"; "extra"; "0"; "extra"; "0"; "extra"; "0"; "extra"; "0"].

(** The height of a value: how deep its arrays and objects nest. *)
Fixpoint height (v : value) : nat :=
  match v with
  | VArr items => S (list_max (map height items))
  | VObj fields => S (list_max (map (fun kv => height (snd kv)) fields))
  | _ => 0
  end.

(** A component the validator accepted, on some path. *)
Definition validated (component : value) : Prop :=
  exists fuel path l, assertIsComponent fuel component path = (Ok tt, l).

(** An entry of [extra], [with] or of the contents of a tooltip. *)
Definition entry_ok (x : value) : Prop :=
  (typeof x =? "string") = true \/ validated x.

(** A computation that the model follows to its end. *)
Definition no_halt {A} (m : M A) : Prop :=
  match fst m with
  | Halt _ => False
  | _ => True
  end.

(** The leaf [formatComponent] returns when rendering failed. *)
Definition fallback_leaf (component : value) : Node :=
  Text (substring 0 4096
          (ToString (coalesce (field component "text") (VStr "")))).

(** A component with a translation, arguments, a tooltip, a link and styled
    children. *)
Definition example_component : value :=
  VObj [("translate", VStr "chat.type.text");
        ("color", VStr "dark_red");
        ("bold", VBool true);
        ("with",
         VArr [VObj [("text", VStr "Steve");
                     ("hoverEvent",
                      VObj [("action", VStr "show_entity");
                            ("contents",
                             VObj [("type", VStr "minecraft:player");
                                   ("id", VNum "5");
                                   ("name", VStr "Steve")])])];
               VStr "hello"]);
        ("extra",
         VArr [VStr "!";
               VObj [("text", VStr "see http://example.com now");
                     ("color", VStr "#ff0000");
                     ("hoverEvent",
                      VObj [("action", VStr "show_text");
                            ("contents",
                             VArr [VStr "a ";
                                   VObj [("text", VStr "tip")]])])]])].

(** The message logged with the error that was caught. *)
Definition caught_error (error : exn) : log_entry :=
  Error [LStr "Error formatting component:"; LExn error].

(** ** Templates and their tokens *)

(** The digits of a numbered token. *)
Definition digits (ds : string) : Prop :=
  ds <> "" /\ string_forallb is_digit ds = true.

(** The token [%N$s] with the digits [ds] for [N]. *)
Definition numbered_token (ds : string) : string := "%" +++ ds +++ "$s".

(** [occurrences occurs text from ms]: [ms] are the occurrences of a token in
    [text] at or after position [from], the leftmost first, each one sought
    from the end of the one before; [occurs s token] holds when [token]
    begins [s] as a token. *)
Inductive occurrences (occurs : string -> string -> Prop) (text : string)
    : nat -> list regmatch -> Prop :=
| occurrences_none from :
    (forall p token, from <= p -> ~ occurs (drop p text) token) ->
    occurrences occurs text from []
| occurrences_next from m rest :
    from <= index m ->
    (forall p token, from <= p < index m -> ~ occurs (drop p text) token) ->
    occurs (drop (index m) text) (matched m) ->
    occurrences occurs text (match_end m) rest ->
    occurrences occurs text from (m :: rest).

(** A URL begins [s]: [http://] or [https://], then at least one code unit
    that is not white space, up to the next white space or the end. *)
Definition url_occurrence (s url : string) : Prop :=
  is_url url /\
  exists rest, s = url +++ rest /\ (rest = "" \/ starts_with_space rest).

(** A token [%N$s] begins [s]. *)
Definition numbered_occurrence (s token : string) : Prop :=
  exists ds rest, digits ds /\ token = numbered_token ds /\ s = token +++ rest.

(** The token [%s] begins [s]. *)
Definition simple_occurrence (s token : string) : Prop :=
  token = "%s" /\ exists rest, s = token +++ rest.

(** The argument that the number [n] of a token selects, counting from 1:
    none when [n] is not between 1 and the number of arguments. *)
Definition selected (items : list value) (n : Z) : option value :=
  if (n <=? 0)%Z || (Z.of_nat (List.length items) <? n)%Z then None
  else nth_error items (Z.to_nat (n - 1)).

(** What a substitution puts in the place of a token: the argument as a text
    when it is a string, the rendering of the argument when it is a
    component, and [missing] when there is no argument or a falsy one. *)
Definition placed (fc : value -> M Node) (argument : option value)
    (missing : M Node) : M Node :=
  match argument with
  | None => missing
  | Some v =>
      if truthy v then
        match v with
        | VStr s => ret (createTextNode s)
        | _ => fc v
        end
      else missing
  end.

(** The number of a token [%N$s]. *)
Definition token_number (token : string) : Z :=
  parseInt (substring 1 (String.length token - 3) token).

(** What numbered substitution must produce for the tokens of a template:
    the text before each token, then what the argument of its number gives,
    or the token itself and a warning, and the text after the last token. *)
Fixpoint numbered_fragments (fc : value -> M Node) (template : string)
    (items : list value) (tokens : list regmatch) (from : nat)
    : M (list Node) :=
  match tokens with
  | [] => ret (text_after template from)
  | m :: rest =>
      let n := token_number (matched m) in
      node <- placed fc (selected items n)
                (missing_argument (n - 1) template (matched m)) ;;
      more <- numbered_fragments fc template items rest (match_end m) ;;
      ret (text_before template from m ++ node :: more)
  end.

(** What sequential substitution must produce: as above, the token number
    [k], counting from 0, taking the argument of that position. *)
Fixpoint sequential_fragments (fc : value -> M Node) (template : string)
    (items : list value) (tokens : list regmatch) (from k : nat)
    : M (list Node) :=
  match tokens with
  | [] => ret (text_after template from)
  | m :: rest =>
      node <- placed fc (nth_error items k)
                (missing_argument (Z.of_nat (S k)) template "%s") ;;
      more <- sequential_fragments fc template items rest (match_end m) (S k) ;;
      ret (text_before template from m ++ node :: more)
  end.

(** The handler of the [try] block of [formatTranslation]. *)
Definition translation_failed (key : string) (error : exn) : M (list Node) :=
  console_error
    [LStr ("Error formatting translation for key: " +++ key); LExn error] ;;
  ret [createTextNode key].

(** The warning of the length limit. *)
Definition truncation_warning : log_entry :=
  Warn [LStr "Chat message exceeded maximum length, truncating"].

(** The contents of a [show_text] tooltip, once validated: a string, an
    array of entries, or a component. *)
Definition tooltip_ok (contents : value) : Prop :=
  (typeof contents =? "string") = true \/
  (exists items, contents = VArr items /\ Forall entry_ok items) \/
  (isArray contents = false /\ validated contents).

(** What the renderer relies on after validation. *)
Definition children_ok (v : value) : Prop :=
  v = VUndefined \/ exists items, v = VArr items /\ Forall entry_ok items.

Definition hover_ok (hoverEvent : value) : Prop :=
  field hoverEvent "action" = VStr "show_text" ->
  tooltip_ok (hover_contents hoverEvent) /\
  (has "contents" hoverEvent = true \/
   field hoverEvent "contents" = VUndefined).

(** What [assemble] does after the colour. *)
Definition styled (translations : string -> option string)
    (fc : value -> M Node) (fcpt : value -> M string)
    (component : value) (result : Node) : M Node :=
  result <- apply_flag component "bold" result ;;
  result <- apply_flag component "italic" result ;;
  result <- apply_flag component "underlined" result ;;
  result <- apply_flag component "strikethrough" result ;;
  result <- apply_flag component "obfuscated" result ;;
  result <- apply_hover fcpt component result ;;
  result <- apply_content translations fc component result ;;
  apply_extra fc component result.

(** The walk of the contents of a [show_text] tooltip. *)
Definition contents_walk (fuel : nat) (hoverEvent : value)
    (q : list string) : M unit :=
  match hover_contents hoverEvent with
  | VArr items =>
      forEach items (fun component index =>
        if typeof component =? "string" then ret tt
        else assertIsComponent fuel component
               (q ++ ["contents"; nat_toString index]))
  | _ => assertIsComponent fuel (hover_contents hoverEvent) (q ++ ["contents"])
  end.

(** Entries that were validated and are small enough for the callbacks. *)
Definition entries (n : nat) (items : list value) : Prop :=
  Forall entry_ok items /\ forall x, In x items -> height x < n.


(** ** Notions for the further properties *)

(** The checks of [assertIsComponent] after the depth check. *)
Definition component_checks (assertIsComponent : value -> list string -> M unit)
    (component : value) (path : list string) : M unit :=
  when (negb (truthy component) || negb (typeof component =? "object"))
    (fail "Component is not an object" path) ;;
  when (negb (has "text" component) && negb (has "translate" component)
        && negb (has "extra" component))
    (fail "Component does not have a text, translate, or extra property"
       path) ;;
  check_field component "text" "string"
    "Component.text is not a string" path ;;
  check_field component "translate" "string"
    "Component.translate is not a string" path ;;
  check_field component "color" "string"
    "Component.color is not a string" path ;;
  check_field component "bold" "boolean"
    "Component.bold is not a boolean" path ;;
  check_field component "italic" "boolean"
    "Component.italic is not a boolean" path ;;
  check_field component "underlined" "boolean"
    "Component.underlined is not a boolean" path ;;
  check_field component "strikethrough" "boolean"
    "Component.strikethrough is not a boolean" path ;;
  check_field component "obfuscated" "boolean"
    "Component.obfuscated is not a boolean" path ;;
  check_children assertIsComponent component "extra"
    "Component.extra is not an array" path ;;
  check_children assertIsComponent component "with"
    "Component.with is not an array" path ;;
  when (has "hoverEvent" component)
    (assertIsHoverEvent assertIsComponent
       (field component "hoverEvent") (path ++ ["hoverEvent"])).

(** The validator accepts [component] at the root. *)
Definition accepted (component : value) : Prop :=
  assertIsComponent 10 component [] = (Ok tt, []).

(** A computation of the validator that returns or throws a
    [ComponentError] on a path under [path], and writes nothing. *)
Definition reports_under (path : list string) (m : M unit) : Prop :=
  m = (Ok tt, []) \/
  exists message suffix,
    m = (Throw (ComponentError message (path ++ suffix)), []).

(** The colour of a style: none, or [#] and six hexadecimal digits. *)
Definition safe_color (c : option string) : Prop :=
  match c with None => True | Some c => hex_pattern c end.

(** The nodes the renderer may hand over: texts, spans and links.  A span
    has classes that begin with [mc-], a colour of the form above, no
    destination, and such nodes as children; a link is the anchor of a URL
    that begins with [http://] or [https://]. *)
Inductive safe : Node -> Prop :=
| safe_text data : safe (Text data)
| safe_span a cs :
    href a = None -> rel a = None -> target a = None ->
    Forall (fun token => String.prefix "mc-" token = true) (classList a) ->
    safe_color (style_color a) ->
    Forall safe cs ->
    safe (Element "span" a cs)
| safe_link url : is_url url -> safe (anchor url).

(** The five style flags of a component. *)
Definition STYLE_FLAGS : list string :=
  ["bold"; "italic"; "underlined"; "strikethrough"; "obfuscated"].

(** The classes a component asks for: the class of its colour, when that is
    a valid name of the palette, and the class of each flag that is truthy. *)
Definition class_of (component : value) (token : string) : Prop :=
  (exists c,
     field component "color" = VStr c /\ isValidColor c = true /\
     startsWith "#" c = false /\ token = "mc-" +++ replace_underscores c) \/
  (exists flag,
     In flag STYLE_FLAGS /\ truthy (field component flag) = true /\
     token = "mc-" +++ flag).

(** The colour a component asks for in its style: a valid colour that begins
    with [#]. *)
Definition style_of (component : value) (c : string) : Prop :=
  field component "color" = VStr c /\ isValidColor c = true /\
  startsWith "#" c = true.

(** Two nodes with the same classes and the same colour. *)
Definition same_style (r r' : Node) : Prop :=
  classList (attributes_of r') = classList (attributes_of r) /\
  style_color (attributes_of r') = style_color (attributes_of r).

(** A component with a colour, a flag and strings as children. *)
Definition flat_component : value :=
  VObj [("text", VStr "hel"); ("color", VStr "gold"); ("bold", VBool true);
        ("extra", VArr (map VStr ["lo "; "http://a.b"]))].

(** Text nodes only. *)
Definition is_text (node : Node) : Prop := exists data, node = Text data.

(** A warning of the console. *)
Definition is_warning (entry : log_entry) : Prop :=
  exists args, entry = Warn args.

(** No two text nodes next to each other. *)
Fixpoint texts_apart (nodes : list Node) : bool :=
  match nodes with
  | Text _ :: ((Text _ :: _) as rest) => false
  | _ :: rest => texts_apart rest
  | [] => true
  end.

(** A [show_text] event in the legacy form, with [value] in place of
    [contents]. *)
Definition legacy_text_event : value :=
  VObj [("action", VStr "show_text"); ("value", VStr "a tip")].

(** A computation that throws nothing to its caller. *)
Definition no_throw {A} (m : M A) : Prop :=
  match fst m with
  | Throw _ => False
  | _ => True
  end.

(** A hover event whose contents the validator checked: a [show_text] event,
    or an event without the legacy [value]. *)
Definition structured_tooltip (hoverEvent : value) : Prop :=
  field hoverEvent "action" = VStr "show_text" \/
  has "value" hoverEvent = false.

(** What the validator establishes of the contents of an item or an entity
    when the event has no [value]. *)
Definition parts_ok (hoverEvent : value) : Prop :=
  let contents := field hoverEvent "contents" in
  (field hoverEvent "action" = VStr "show_item" ->
   typeof (field contents "id") = "string" /\
   (typeof (field contents "count") = "number" \/
    field contents "count" = VUndefined)) /\
  (field hoverEvent "action" = VStr "show_entity" ->
   typeof (field contents "name") = "string" \/
   field contents "name" = VUndefined).

(** A component with an item tooltip in the legacy form, and contents that
    the validator does not look at. *)
Definition legacy_item_component : value :=
  VObj [("text", VStr "sword");
        ("hoverEvent",
         VObj [("action", VStr "show_item"); ("value", VStr "legacy");
               ("contents", VObj [("id", VObj [("toString", VNum "1")])])])].

(** The fragments the loop adds for the matches still to come. *)
Fixpoint linkify_tail (text : string) (matches : list regmatch)
    (lastIndex : nat) : list Node :=
  match matches with
  | [] => text_after text lastIndex
  | m :: rest =>
      text_before text lastIndex m
      ++ anchor (matched m) :: linkify_tail text rest (match_end m)
  end.

(** * Properties *)

(** ** The monad *)


Lemma after_log_nil {A} (m : M A) : after_log [] m = m.
Proof. destruct m; reflexivity. Qed.

Lemma bind_Ok {A B} (a : A) (l : list log_entry) (f : A -> M B) :
  bind (Ok a, l) f = after_log l (f a).
Proof. reflexivity. Qed.

Lemma bind_ret {A B} (a : A) (f : A -> M B) : bind (ret a) f = f a.
Proof. unfold ret; rewrite bind_Ok; apply after_log_nil. Qed.

Lemma bind_after_log {A B} (l : list log_entry) (m : M A) (f : A -> M B) :
  bind (after_log l m) f = after_log l (bind m f).
Proof.
  destruct m as [[a | e | h] l']; simpl; try reflexivity.
  destruct (f a) as [r l'']; simpl. now rewrite app_assoc.
Qed.

Lemma bind_Ok_inv {A B} (m : M A) (f : A -> M B) (b : B) (l : list log_entry) :
  bind m f = (Ok b, l) ->
  exists a l1 l2, m = (Ok a, l1) /\ f a = (Ok b, l2) /\ l = l1 ++ l2.
Proof.
  destruct m as [[a | e | h] l1]; simpl; try discriminate.
  destruct (f a) as [r l2] eqn:E. intros H; inversion H; subst.
  now exists a, l1, l2.
Qed.

Lemma get_object (fields : list (string * value)) (k : string) :
  get (VObj fields) k = ret (field (VObj fields) k).
Proof. reflexivity. Qed.

(** An index past the end of an array reads [undefined]. *)
Lemma element_nth (items : list value) (i : Z) :
  element (VArr items) i
  = ret (if (i <? 0)%Z then VUndefined else nth (Z.to_nat i) items VUndefined).
Proof.
  unfold element. f_equal. destruct (i <? 0)%Z eqn:N; [reflexivity |].
  cbn [orb]. destruct (Z.leb_spec (Z.of_nat (List.length items)) i) as [L | L];
    [| reflexivity].
  apply Z.ltb_ge in N. now rewrite nth_overflow by lia.
Qed.

Lemma apply_flag_object fields flag result :
  apply_flag (VObj fields) flag result
  = ret (if truthy (field (VObj fields) flag)
         then classList_add ("mc-" +++ flag) result else result).
Proof.
  unfold apply_flag, flag_set. now rewrite get_object, !bind_ret.
Qed.

Lemma to_string_Ok (v : value) (s : string) (l : list log_entry) :
  to_string v = (Ok s, l) ->
  convertible v = true /\ s = ToString v /\ l = [].
Proof.
  unfold to_string. destruct (convertible v); [| discriminate].
  intros H; inversion H; auto.
Qed.

Lemma to_string_convertible (v : value) :
  convertible v = true -> to_string v = ret (ToString v).
Proof. unfold to_string. now intros ->. Qed.

(** ** Strings *)

Lemma length_substring_0 (n : nat) (s : string) :
  n <= String.length s -> String.length (substring 0 n s) = n.
Proof.
  revert s; induction n as [| n IH]; intros s H.
  - destruct s; reflexivity.
  - destruct s as [| c s]; simpl in *; [lia |].
    rewrite IH; [reflexivity | lia].
Qed.

Lemma length_substring_le (from n : nat) (s : string) :
  String.length (substring from n s) <= n.
Proof.
  revert from n; induction s as [| c s IH]; intros from n.
  - destruct from, n; simpl; lia.
  - destruct from as [| from]; simpl.
    + destruct n as [| n]; simpl; [lia |]. specialize (IH 0 n). lia.
    + apply IH.
Qed.

(** The length of an array that is not empty is not printed as "0". *)
Lemma nat_toString_positive (n : nat) : (nat_toString (S n) =? "0") = false.
Proof.
  apply String.eqb_neq. unfold nat_toString. intros E.
  assert (D : Nat.to_uint (S n) <> Decimal.Nil).
  { intros Z. pose proof (Unsigned.of_to (S n)) as O. rewrite Z in O.
    discriminate O. }
  pose proof (NilZero.usu _ D) as U. rewrite E in U. simpl in U.
  inversion U as [U'].
  assert (I : Nat.to_uint 0 = Nat.to_uint (S n)) by (now rewrite <- U').
  apply Unsigned.to_uint_inj in I. discriminate I.
Qed.

Lemma eqb_empty_false (s : string) :
  0 < String.length s -> (s =? "") = false.
Proof. destruct s; simpl; [lia | reflexivity]. Qed.

(** ** Elements *)


Lemma is_span_with_attributes (f : Attributes -> Attributes) (node : Node) :
  is_span node -> is_span (with_attributes f node).
Proof. intros (a & cs & ->). now exists (f a), cs. Qed.

Lemma is_span_appendChild (child node : Node) :
  is_span node -> is_span (appendChild child node).
Proof. intros (a & cs & ->). now exists a, (cs ++ [child]). Qed.

Lemma is_span_appendChildren (nodes : list Node) (node : Node) :
  is_span node -> is_span (appendChildren nodes node).
Proof.
  unfold appendChildren. revert node.
  induction nodes as [| n nodes IH]; intros node H; simpl; [exact H |].
  apply IH, is_span_appendChild, H.
Qed.

(** ** The renderer keeps the span it created *)

Ltac inv_bind H :=
  let a := fresh "a" in
  let l1 := fresh "l" in
  let l2 := fresh "l" in
  let H1 := fresh "H" in
  let E := fresh "E" in
  apply bind_Ok_inv in H; destruct H as (a & l1 & l2 & H1 & H & E).

Ltac inv_ret H := unfold ret in H; inversion H; subst; clear H.

Section RendererFacts.

Variable translations : string -> option string.
Variable fc : value -> M Node.
Variable fcpt : value -> M string.

Lemma apply_color_span component result r l :
  apply_color component result = (Ok r, l) -> is_span result -> is_span r.
Proof.
  unfold apply_color; intros H S. inv_bind H.
  destruct (truthy a); [| now inv_ret H].
  destruct a; try discriminate.
  destruct (negb (isValidColor s)).
  - inv_bind H. now inv_ret H.
  - destruct (startsWith "#" s); inv_ret H;
      now apply is_span_with_attributes.
Qed.

Lemma apply_flag_span component flag result r l :
  apply_flag component flag result = (Ok r, l) -> is_span result -> is_span r.
Proof.
  unfold apply_flag; intros H S. inv_bind H. inv_ret H.
  destruct a; [now apply is_span_with_attributes | exact S].
Qed.

Lemma apply_hover_span component result r l :
  apply_hover fcpt component result = (Ok r, l) -> is_span result -> is_span r.
Proof.
  unfold apply_hover; intros H S. inv_bind H.
  destruct (truthy a); [| now inv_ret H].
  inv_bind H. inv_bind H. inv_ret H. now apply is_span_with_attributes.
Qed.

(** The content is appended to the node. *)
Lemma apply_content_appends component result r l :
  apply_content translations fc component result = (Ok r, l) ->
  exists nodes, r = appendChildren nodes result.
Proof.
  unfold apply_content; intros H. inv_bind H.
  destruct (truthy a).
  - destruct a; try (inv_bind H; inv_ret H; eauto); inv_ret H; eauto.
  - inv_bind H. destruct (truthy a0); [| inv_ret H; now exists []].
    inv_bind H. inv_bind H. inv_ret H. eauto.
Qed.

Lemma apply_content_span component result r l :
  apply_content translations fc component result = (Ok r, l) ->
  is_span result -> is_span r.
Proof.
  intros H S. apply apply_content_appends in H as (nodes & ->).
  now apply is_span_appendChildren.
Qed.

Lemma apply_extra_span component result r l :
  apply_extra fc component result = (Ok r, l) -> is_span result -> is_span r.
Proof.
  unfold apply_extra; intros H S. inv_bind H.
  destruct (truthy a); [| now inv_ret H].
  inv_bind H. inv_ret H. now apply is_span_appendChildren.
Qed.

Lemma assemble_span component node l :
  assemble translations fc fcpt component = (Ok node, l) -> is_span node.
Proof.
  unfold assemble; intros H.
  assert (S0 : is_span (createElement "span"))
    by (now exists no_attributes, []).
  inv_bind H. apply apply_color_span in H0; [| exact S0].
  inv_bind H. apply apply_flag_span in H1; [| exact H0].
  inv_bind H. apply apply_flag_span in H2; [| exact H1].
  inv_bind H. apply apply_flag_span in H3; [| exact H2].
  inv_bind H. apply apply_flag_span in H4; [| exact H3].
  inv_bind H. apply apply_flag_span in H5; [| exact H4].
  inv_bind H. apply apply_hover_span in H6; [| exact H5].
  inv_bind H. apply apply_content_span in H7; [| exact H6].
  apply apply_extra_span in H; [exact H | exact H7].
Qed.

(** What [truncate] does to a node whose text is over the limit. *)
Lemma truncate_over node :
  MAX_CHAT_LENGTH < String.length (textContent node) ->
  truncate node =
    (Ok (set_textContent (slice (textContent node) 0 MAX_CHAT_LENGTH) node),
     [Warn [LStr "Chat message exceeded maximum length, truncating"]]).
Proof.
  intros H. unfold truncate.
  rewrite eqb_empty_false by lia.
  apply Nat.ltb_lt in H. rewrite H. reflexivity.
Qed.

Lemma truncate_within node :
  String.length (textContent node) <= MAX_CHAT_LENGTH ->
  truncate node = (Ok node, []).
Proof.
  intros H. unfold truncate.
  apply Nat.ltb_ge in H. rewrite H, andb_false_r. reflexivity.
Qed.

Lemma length_slice_limit s :
  MAX_CHAT_LENGTH < String.length s ->
  String.length (slice s 0 MAX_CHAT_LENGTH) = MAX_CHAT_LENGTH.
Proof.
  intros H. unfold slice. rewrite Nat.sub_0_r.
  apply length_substring_0. lia.
Qed.

Lemma render_assembled component node l :
  assemble translations fc fcpt component = (Ok node, l) ->
  render translations fc fcpt component = after_log l (truncate node).
Proof.
  intros H. unfold render. rewrite H, bind_Ok.
  destruct (truncate node) as [[r | e | h] l'] eqn:T; try reflexivity.
  exfalso. unfold truncate in T.
  destruct (_ && _) in T; discriminate.
Qed.

End RendererFacts.

(** ** The length limit *)


(** C3.  When the node assembled for a component (its own content and its
    rendered children, appended) has more than 4096 code units of text, the
    node [formatComponent] returns has exactly the first 4096 of them: the
    cut is made once, on the text of the assembled node.  A node within the
    limit is returned as assembled. *)
Theorem formatComponent_truncates_to_limit :
  forall translations fuel component node l,
    assemble translations (formatComponent translations fuel)
      (formatComponentPlainText translations fuel) component = (Ok node, l) ->
    (MAX_CHAT_LENGTH < String.length (textContent node) ->
     exists node',
       formatComponent translations (S fuel) component
         = (Ok node', l ++ [truncation_warning]) /\
       textContent node' = substring 0 4096 (textContent node) /\
       String.length (textContent node') = 4096) /\
    (String.length (textContent node) <= MAX_CHAT_LENGTH ->
     formatComponent translations (S fuel) component = (Ok node, l)).
Proof.
  intros tr fuel c node l A. split; intros H; simpl formatComponent.
  - rewrite (render_assembled _ _ _ _ _ _ A), truncate_over by exact H.
    eexists; split; [reflexivity |].
    destruct (assemble_span _ _ _ _ _ _ A) as (a & cs & ->).
    pose proof (length_slice_limit _ H) as L.
    unfold set_textContent. rewrite eqb_empty_false by (rewrite L; unfold MAX_CHAT_LENGTH; lia).
    split; [| exact L]. reflexivity.
  - rewrite (render_assembled _ _ _ _ _ _ A), truncate_within by exact H.
    simpl. now rewrite app_nil_r.
Qed.

Lemma formatComponent_truncates_to_limit_witness :
  exists node',
    formatComponent example_translations 1 long_component
      = (Ok node', [truncation_warning]) /\
    textContent node' = replicate 4096 "a" /\
    String.length (textContent node') = 4096.
Proof.
  refine (proj1 (formatComponent_truncates_to_limit example_translations 0
                   long_component
                   (Element "span"
                      {| classList := ["mc-bold"]; style_color := None;
                         title := None; href := None; rel := None;
                         target := None |}
                      [Text (replicate 5000 "a")])
                   [] _) _).
  - vm_compute. reflexivity.
  - apply Nat.ltb_lt. vm_compute. reflexivity.
Defined.

(** C9.  When the assembled node has more than 4096 code units of text, the
    node returned has one child, a text node with the first 4096 of them:
    assigning [textContent] removes the links and the styled children that
    were appended.  The classes, the colour and the tooltip of the node
    itself stay. *)
Theorem formatComponent_truncation_replaces_children :
  forall translations fuel component node l,
    assemble translations (formatComponent translations fuel)
      (formatComponentPlainText translations fuel) component = (Ok node, l) ->
    MAX_CHAT_LENGTH < String.length (textContent node) ->
    exists node',
      formatComponent translations (S fuel) component
        = (Ok node', l ++ [truncation_warning]) /\
      children node' = [Text (substring 0 4096 (textContent node))] /\
      attributes_of node' = attributes_of node /\
      is_span node'.
Proof.
  intros tr fuel c node l A H. simpl formatComponent.
  rewrite (render_assembled _ _ _ _ _ _ A), truncate_over by exact H.
  eexists; split; [reflexivity |].
  destruct (assemble_span _ _ _ _ _ _ A) as (a & cs & ->).
  pose proof (length_slice_limit _ H) as L.
  unfold set_textContent.
  rewrite eqb_empty_false by (rewrite L; unfold MAX_CHAT_LENGTH; lia).
  repeat split. now eexists _, _.
Qed.

Lemma formatComponent_truncation_replaces_children_witness :
  exists node',
    formatComponent example_translations 2 long_styled_component
      = (Ok node', [truncation_warning]) /\
    children node'
      = [Text ("see http://example.com " +++ replicate 4073 "a")] /\
    attributes_of node'
      = {| classList := ["mc-red"; "mc-italic"]; style_color := None;
           title := Some "tip"; href := None; rel := None; target := None |} /\
    is_span node'.
Proof.
  eassert (A : assemble example_translations
                 (formatComponent example_translations 1)
                 (formatComponentPlainText example_translations 1)
                 long_styled_component = (Ok _, _))
    by (vm_compute; reflexivity).
  refine (formatComponent_truncation_replaces_children _ _ _ _ _ A _).
  apply Nat.ltb_lt. vm_compute. reflexivity.
Defined.

(** ** What the renderer reads of a component *)

Lemma bind_ext {A B} (m : M A) (f g : A -> M B) :
  (forall a, f a = g a) -> bind m f = bind m g.
Proof.
  intros H. destruct m as [[a | e | h] l]; simpl; try reflexivity.
  now rewrite H.
Qed.

Lemma try_catch_after_log {A} (l : list log_entry) (m : M A) h :
  try_catch (after_log l m) h = after_log l (try_catch m h).
Proof.
  destruct m as [[a | e | x] l']; simpl; try reflexivity.
  destruct (h e) as [r l'']; simpl. now rewrite app_assoc.
Qed.

Lemma try_catch_ext {A} (m : M A) (h1 h2 : exn -> M A) :
  (forall e, h1 e = h2 e) -> try_catch m h1 = try_catch m h2.
Proof.
  intros H. destruct m as [[a | e | x] l]; simpl; try reflexivity.
  now rewrite H.
Qed.

Section Reads.

Variable translations : string -> option string.
Variable fc : value -> M Node.
Variable fcpt : value -> M string.
Variables fs1 fs2 : list (string * value).

Lemma apply_color_ext result :
  field (VObj fs1) "color" = field (VObj fs2) "color" ->
  apply_color (VObj fs1) result = apply_color (VObj fs2) result.
Proof.
  intros H. unfold apply_color. rewrite !get_object, !bind_ret. now rewrite H.
Qed.

Lemma apply_flag_ext flag result :
  field (VObj fs1) flag = field (VObj fs2) flag ->
  apply_flag (VObj fs1) flag result = apply_flag (VObj fs2) flag result.
Proof.
  intros H. rewrite !apply_flag_object. now rewrite H.
Qed.

Lemma apply_hover_ext result :
  field (VObj fs1) "hoverEvent" = field (VObj fs2) "hoverEvent" ->
  apply_hover fcpt (VObj fs1) result = apply_hover fcpt (VObj fs2) result.
Proof.
  intros H. unfold apply_hover. rewrite !get_object, !bind_ret. now rewrite H.
Qed.

Lemma apply_extra_ext result :
  field (VObj fs1) "extra" = field (VObj fs2) "extra" ->
  apply_extra fc (VObj fs1) result = apply_extra fc (VObj fs2) result.
Proof.
  intros H. unfold apply_extra. rewrite !get_object, !bind_ret. now rewrite H.
Qed.

(** The content of a component whose [text] is truthy. *)
Lemma apply_content_text result :
  truthy (field (VObj fs1) "text") = true ->
  apply_content translations fc (VObj fs1) result =
    match field (VObj fs1) "text" with
    | VStr s => ret (appendChildren (linkifyText s) result)
    | text =>
        nodes <- linkifyValue text ;;
        ret (appendChildren nodes result)
    end.
Proof.
  intros H. unfold apply_content. rewrite get_object, bind_ret. rewrite H.
  now destruct (field (VObj fs1) "text").
Qed.

(** The content of a component whose [text] is falsy. *)
Lemma apply_content_no_text result :
  truthy (field (VObj fs1) "text") = false ->
  apply_content translations fc (VObj fs1) result =
    if truthy (field (VObj fs1) "translate") then
      nodes <- formatTranslation translations fc (field (VObj fs1) "translate")
                 (coalesce (field (VObj fs1) "with") (VArr [])) ;;
      ret (appendChildren nodes result)
    else ret result.
Proof.
  intros H. unfold apply_content. rewrite !get_object, !bind_ret.
  rewrite H. destruct (truthy (field (VObj fs1) "translate")); reflexivity.
Qed.

Lemma fallback_ext error :
  field (VObj fs1) "text" = field (VObj fs2) "text" ->
  fallback (VObj fs1) error = fallback (VObj fs2) error.
Proof.
  intros H. unfold fallback. rewrite !get_object. now rewrite H.
Qed.

End Reads.

Lemma apply_content_ext translations fc fs1 fs2 result :
  field (VObj fs1) "text" = field (VObj fs2) "text" ->
  truthy (field (VObj fs1) "text") = true \/
    (field (VObj fs1) "translate" = field (VObj fs2) "translate" /\
     field (VObj fs1) "with" = field (VObj fs2) "with") ->
  apply_content translations fc (VObj fs1) result
  = apply_content translations fc (VObj fs2) result.
Proof.
  intros T H. destruct (truthy (field (VObj fs1) "text")) eqn:E.
  - rewrite (apply_content_text translations fc fs1 result E).
    rewrite T in E |- *.
    now rewrite (apply_content_text translations fc fs2 result E).
  - destruct H as [H | [H1 H2]]; [discriminate |].
    rewrite (apply_content_no_text translations fc fs1 result E).
    rewrite T in E. rewrite H1, H2.
    now rewrite (apply_content_no_text translations fc fs2 result E).
Qed.

(** Two objects that agree on what is read render alike; [translate] and
    [with] are read only when [text] is falsy. *)
Lemma render_ext translations fc fcpt fs1 fs2 :
  (forall k, In k COMPONENT_FIELDS -> k <> "translate" -> k <> "with" ->
             field (VObj fs1) k = field (VObj fs2) k) ->
  truthy (field (VObj fs1) "text") = true \/
    (field (VObj fs1) "translate" = field (VObj fs2) "translate" /\
     field (VObj fs1) "with" = field (VObj fs2) "with") ->
  render translations fc fcpt (VObj fs1) = render translations fc fcpt (VObj fs2).
Proof.
  intros H T.
  assert (F : forall k, In k COMPONENT_FIELDS ->
                String.eqb k "translate" = false ->
                String.eqb k "with" = false ->
                field (VObj fs1) k = field (VObj fs2) k).
  { intros k I E1 E2. apply H; [exact I | |]; intros ->; discriminate. }
  assert (A : assemble translations fc fcpt (VObj fs1)
               = assemble translations fc fcpt (VObj fs2)).
  { unfold assemble.
    rewrite (apply_color_ext fs1 fs2) by (apply F; simpl; tauto).
    apply bind_ext; intros r1.
    rewrite (apply_flag_ext fs1 fs2) by (apply F; simpl; tauto).
    apply bind_ext; intros r2.
    rewrite (apply_flag_ext fs1 fs2) by (apply F; simpl; tauto).
    apply bind_ext; intros r3.
    rewrite (apply_flag_ext fs1 fs2) by (apply F; simpl; tauto).
    apply bind_ext; intros r4.
    rewrite (apply_flag_ext fs1 fs2) by (apply F; simpl; tauto).
    apply bind_ext; intros r5.
    rewrite (apply_flag_ext fs1 fs2) by (apply F; simpl; tauto).
    apply bind_ext; intros r6.
    rewrite (apply_hover_ext fcpt fs1 fs2) by (apply F; simpl; tauto).
    apply bind_ext; intros r7.
    rewrite (apply_content_ext translations fc fs1 fs2)
      by (try exact T; apply F; simpl; tauto).
    apply bind_ext; intros r8.
    apply apply_extra_ext. apply F; simpl; tauto. }
  unfold render. rewrite A. apply try_catch_ext. intros e.
  apply fallback_ext. apply F; simpl; tauto.
Qed.

(** ** Text before translate *)

(** C4, as amended.  [text] is the content source whenever it is truthy, that
    is a string that is not empty: the content is then the linkified text and
    nothing of [translate] or [with] reaches the result, so two components
    that differ only there render alike.  [translate] is the source exactly
    when [text] is falsy (absent or empty) and [translate] is truthy. *)
Theorem formatComponent_text_before_translate :
  forall translations fuel fs,
    (truthy (field (VObj fs) "text") = true ->
     (forall result s,
        field (VObj fs) "text" = VStr s ->
        apply_content translations (formatComponent translations fuel)
          (VObj fs) result
        = ret (appendChildren (linkifyText s) result)) /\
     (forall fs',
        (forall k, In k COMPONENT_FIELDS -> k <> "translate" -> k <> "with" ->
                   field (VObj fs) k = field (VObj fs') k) ->
        formatComponent translations (S fuel) (VObj fs)
        = formatComponent translations (S fuel) (VObj fs'))) /\
    (truthy (field (VObj fs) "text") = false ->
     forall result,
       apply_content translations (formatComponent translations fuel)
         (VObj fs) result
       = if truthy (field (VObj fs) "translate") then
           nodes <- formatTranslation translations
                      (formatComponent translations fuel)
                      (field (VObj fs) "translate")
                      (coalesce (field (VObj fs) "with") (VArr [])) ;;
           ret (appendChildren nodes result)
         else ret result).
Proof.
  intros tr fuel fs. split; [intros T; split |].
  - intros result s E. rewrite apply_content_text by exact T.
    now rewrite E.
  - intros fs' H. simpl. apply render_ext; [exact H | now left].
  - intros T result. now apply apply_content_no_text.
Qed.

(** C4 on an example: with a [text] that is not empty, [translate] and
    [with] change nothing. *)
Lemma formatComponent_text_before_translate_witness :
  truthy (field (VObj text_and_translate_fields) "text") = true /\
  formatComponent example_translations 1 (VObj text_and_translate_fields)
  = formatComponent example_translations 1
      (VObj [("text", VStr "go http://a.b")]) /\
  formatComponent example_translations 1 (VObj text_and_translate_fields)
  = (Ok (Element "span" no_attributes [Text "go "; anchor "http://a.b"]), []).
Proof.
  split; [reflexivity |]. split; [| reflexivity].
  apply (proj1 (formatComponent_text_before_translate
                  example_translations 0 text_and_translate_fields) eq_refl).
  intros k I N1 N2. simpl in I.
  repeat (destruct I as [<- | I]; [first [reflexivity | congruence] |]).
  destruct I.
Defined.

(** C4, the counterexample: a component whose [text] is present and empty
    takes its content from [translate]. *)
Lemma formatComponent_empty_text_uses_translate :
  has "text" empty_text_component = true /\
  has "translate" empty_text_component = true /\
  formatComponent example_translations 1 empty_text_component
  = (Ok (Element "span" no_attributes [Text "b"; Text " "; Text "a"]), []).
Proof. repeat split. Qed.

(** ** Colours *)

Lemma is_hex_in (c : ascii) :
  is_hex c = existsb (Ascii.eqb c) (list_ascii_of_string "0123456789abcdefABCDEF").
Proof.
  destruct c as [[] [] [] [] [] [] [] []]; reflexivity.
Qed.

Lemma is_hex_hex_digit (c : ascii) : is_hex c = true <-> hex_digit c.
Proof.
  rewrite is_hex_in. unfold hex_digit. rewrite existsb_exists. split.
  - intros (x & I & E). apply Ascii.eqb_eq in E. now subst.
  - intros I. exists c. split; [exact I | apply Ascii.eqb_refl].
Qed.

Lemma is_hex_lower (c : ascii) : is_hex (lower c) = is_hex c.
Proof.
  destruct c as [[] [] [] [] [] [] [] []]; reflexivity.
Qed.

Lemma lower_hash (c : ascii) : Ascii.eqb (lower c) "#" = Ascii.eqb c "#".
Proof.
  destruct c as [[] [] [] [] [] [] [] []]; reflexivity.
Qed.

Lemma length_toLowerCase (s : string) :
  String.length (toLowerCase s) = String.length s.
Proof. induction s; simpl; congruence. Qed.

Lemma forallb_hex_toLowerCase (s : string) :
  string_forallb is_hex (toLowerCase s) = string_forallb is_hex s.
Proof.
  induction s as [| c s IH]; simpl; [reflexivity |].
  now rewrite is_hex_lower, IH.
Qed.

Lemma is_hex_color_toLowerCase (s : string) :
  is_hex_color (toLowerCase s) = is_hex_color s.
Proof.
  destruct s as [| c s]; simpl; [reflexivity |].
  now rewrite lower_hash, length_toLowerCase, forallb_hex_toLowerCase.
Qed.

Lemma string_forallb_Forall (p : ascii -> bool) (s : string) :
  string_forallb p s = true <->
  Forall (fun c => p c = true) (list_ascii_of_string s).
Proof.
  induction s as [| c s IH]; simpl.
  - split; [constructor | reflexivity].
  - rewrite andb_true_iff, IH. split.
    + intros [H1 H2]. now constructor.
    + intros H. inversion H; subst. now split.
Qed.

Lemma is_hex_color_pattern (s : string) :
  is_hex_color s = true <-> hex_pattern s.
Proof.
  unfold hex_pattern. destruct s as [| c s]; simpl.
  - split; [discriminate | intros (d & E & _); discriminate].
  - rewrite !andb_true_iff, Nat.eqb_eq, string_forallb_Forall. split.
    + intros [[E L] F]. apply Ascii.eqb_eq in E. subst c.
      exists s. repeat split; [exact L |].
      eapply Forall_impl; [| exact F]. intros a. apply is_hex_hex_digit.
    + intros (d & E & L & F). inversion E; subst. repeat split.
      * exact L.
      * eapply Forall_impl; [| exact F]. intros a. apply is_hex_hex_digit.
Qed.

Lemma includes_In (l : list string) (s : string) :
  includes l s = true <-> In s l.
Proof.
  unfold includes. rewrite existsb_exists. split.
  - intros (x & I & E). apply String.eqb_eq in E. now subst.
  - intros I. exists s. split; [exact I | apply String.eqb_refl].
Qed.

Lemma VALID_COLORS_lower (name : string) :
  In name VALID_COLORS -> toLowerCase name = name.
Proof.
  unfold VALID_COLORS. simpl.
  intros H; repeat (destruct H as [<- | H]; [reflexivity |]); contradiction.
Qed.

Lemma isValidColor_iff (s : string) :
  isValidColor s = true <->
  (exists name, In name VALID_COLORS /\ same_ignoring_case s name) \/
  hex_pattern s.
Proof.
  unfold isValidColor, same_ignoring_case. split.
  - destruct (String.eqb_spec s ""); [discriminate |].
    destruct (includes VALID_COLORS (toLowerCase s)) eqn:I.
    + intros _. left. apply includes_In in I.
      exists (toLowerCase s). split; [exact I |].
      symmetry. now apply VALID_COLORS_lower.
    + rewrite is_hex_color_toLowerCase. intros H. right.
      now apply is_hex_color_pattern.
  - intros [(name & I & E) | H].
    + rewrite (VALID_COLORS_lower _ I) in E.
      destruct (String.eqb_spec s "") as [-> | _].
      * simpl in E. subst name. exfalso. revert I. unfold VALID_COLORS. simpl.
        intros I; repeat (destruct I as [I | I]; [discriminate |]); contradiction.
      * rewrite E. apply includes_In in I. now rewrite I.
    + apply is_hex_color_pattern in H.
      destruct (String.eqb_spec s "") as [-> | _]; [discriminate |].
      rewrite is_hex_color_toLowerCase, H.
      now destruct (includes VALID_COLORS (toLowerCase s)).
Qed.

Section InvalidColor.

Variable translations : string -> option string.
Variable fc : value -> M Node.
Variable fcpt : value -> M string.


Lemma apply_color_invalid fs s result :
  field (VObj fs) "color" = VStr s -> s <> "" -> isValidColor s = false ->
  apply_color (VObj fs) result = (Ok result, [invalid_color_warning s]).
Proof.
  intros F N V. unfold apply_color. rewrite get_object, bind_ret, F.
  simpl truthy. destruct (String.eqb_spec s ""); [contradiction |].
  simpl. now rewrite V.
Qed.

Lemma apply_color_falsy fs result :
  truthy (field (VObj fs) "color") = false ->
  apply_color (VObj fs) result = ret result.
Proof.
  intros F. unfold apply_color. rewrite get_object, bind_ret. now rewrite F.
Qed.

Lemma render_invalid_color fs fs' s :
  field (VObj fs) "color" = VStr s -> s <> "" -> isValidColor s = false ->
  field (VObj fs') "color" = VUndefined ->
  (forall k, In k COMPONENT_FIELDS -> k <> "color" ->
             field (VObj fs) k = field (VObj fs') k) ->
  render translations fc fcpt (VObj fs)
  = after_log [invalid_color_warning s]
      (render translations fc fcpt (VObj fs')).
Proof.
  intros F N V F' H.
  assert (G : forall k, In k COMPONENT_FIELDS -> String.eqb k "color" = false ->
                field (VObj fs) k = field (VObj fs') k).
  { intros k I E. apply H; [exact I |]. intros ->; discriminate. }
  assert (K : forall result, styled translations fc fcpt (VObj fs) result
                        = styled translations fc fcpt (VObj fs') result).
  { intros r0. unfold styled.
    rewrite (apply_flag_ext fs fs') by (apply G; simpl; tauto).
    apply bind_ext; intros r2.
    rewrite (apply_flag_ext fs fs') by (apply G; simpl; tauto).
    apply bind_ext; intros r3.
    rewrite (apply_flag_ext fs fs') by (apply G; simpl; tauto).
    apply bind_ext; intros r4.
    rewrite (apply_flag_ext fs fs') by (apply G; simpl; tauto).
    apply bind_ext; intros r5.
    rewrite (apply_flag_ext fs fs') by (apply G; simpl; tauto).
    apply bind_ext; intros r6.
    rewrite (apply_hover_ext fcpt fs fs') by (apply G; simpl; tauto).
    apply bind_ext; intros r7.
    rewrite (apply_content_ext translations fc fs fs')
      by (try (right; split); apply G; simpl; tauto).
    apply bind_ext; intros r8.
    apply apply_extra_ext. apply G; simpl; tauto. }
  unfold render.
  change (assemble translations fc fcpt (VObj fs))
    with (bind (apply_color (VObj fs) (createElement "span")) (styled translations fc fcpt (VObj fs))).
  change (assemble translations fc fcpt (VObj fs'))
    with (bind (apply_color (VObj fs') (createElement "span"))
            (styled translations fc fcpt (VObj fs'))).
  rewrite (apply_color_invalid fs s _ F N V), bind_Ok.
  rewrite apply_color_falsy by (now rewrite F'). rewrite bind_ret.
  rewrite bind_after_log, try_catch_after_log, K. f_equal.
  apply try_catch_ext. intros e. apply fallback_ext. apply G; simpl; tauto.
Qed.

End InvalidColor.

(** C8, as amended.  [isValidColor] accepts exactly the strings that are one
    of the 17 palette names up to the case of the letters, or [#] and six
    hexadecimal digits; the empty string is not valid.  A [color] that is a
    string, not empty and not valid is reported with one warning and the
    rendering goes on as for the component without a colour: the result is
    the same node.  (An empty [color] is not valid either, and is skipped
    without a warning.) *)
Theorem isValidColor_spec_and_invalid_color_skipped :
  (forall s,
     isValidColor s = true <->
     (exists name, In name VALID_COLORS /\ same_ignoring_case s name) \/
     hex_pattern s) /\
  List.length VALID_COLORS = 17 /\
  isValidColor "" = false /\
  (forall translations fuel fs fs' s,
     field (VObj fs) "color" = VStr s -> s <> "" -> isValidColor s = false ->
     field (VObj fs') "color" = VUndefined ->
     (forall k, In k COMPONENT_FIELDS -> k <> "color" ->
                field (VObj fs) k = field (VObj fs') k) ->
     formatComponent translations (S fuel) (VObj fs)
     = after_log [invalid_color_warning s]
         (formatComponent translations (S fuel) (VObj fs'))).
Proof.
  split; [exact isValidColor_iff |].
  split; [reflexivity |]. split; [reflexivity |].
  intros tr fuel fs fs' s F N V F' H. simpl formatComponent.
  now apply render_invalid_color.
Qed.

(** C8 on an example: a colour that is not valid leaves the node without a
    colour and is reported once. *)
Lemma isValidColor_spec_and_invalid_color_skipped_witness :
  isValidColor "not-a-color" = false /\
  formatComponent example_translations 1
    (VObj [("text", VStr "hi"); ("color", VStr "not-a-color")])
  = (Ok (Element "span" no_attributes [Text "hi"]),
     [invalid_color_warning "not-a-color"]).
Proof.
  split; [reflexivity |].
  refine (eq_trans
            (proj2 (proj2 (proj2 isValidColor_spec_and_invalid_color_skipped))
               example_translations 0
               [("text", VStr "hi"); ("color", VStr "not-a-color")]
               [("text", VStr "hi")] "not-a-color"
               eq_refl _ eq_refl eq_refl _)
            eq_refl).
  - discriminate.
  - intros k I N. simpl in I.
    repeat (destruct I as [<- | I]; [first [reflexivity | congruence] |]).
    destruct I.
Defined.

(** C8, the counterexample: an empty [color] is present and not valid, and
    rendering logs nothing. *)
Lemma formatComponent_empty_color_not_logged :
  has "color" (VObj [("text", VStr "hi"); ("color", VStr "")]) = true /\
  isValidColor "" = false /\
  formatComponent example_translations 1
    (VObj [("text", VStr "hi"); ("color", VStr "")])
  = (Ok (Element "span" no_attributes [Text "hi"]), []).
Proof. repeat split. Qed.

(** ** Tooltips of items and entities *)

Lemma field_absent (k : string) (o : value) :
  has k o = false -> field o k = VUndefined.
Proof.
  destruct o; try reflexivity. unfold has, field.
  destruct (lookup k fields); [discriminate | reflexivity].
Qed.

(** C7, as amended.  For a [show_item] event with structured [contents] the
    tooltip is the count, "x ", and the id, each as the string it converts
    to, when [count] is truthy, and the id alone otherwise; the call throws
    when [count] is truthy and the count or the id is an object with a
    property [toString], which has no conversion.  For a [show_entity] event
    the tooltip is the name when [name] is truthy (present and not empty),
    and "Unnamed Entity" otherwise.  For both actions an event without
    [contents] gives the empty string and a warning, and [value] is not
    read. *)
Theorem formatHoverEvent_item_and_entity :
  forall (fcpt : value -> M string) (fs : list (string * value)),
    (field (VObj fs) "action" = VStr "show_item" ->
     (has "contents" (VObj fs) = false ->
      formatHoverEvent fcpt (VObj fs) = (Ok (VStr ""), [legacy_warning])) /\
     (forall contents,
        field (VObj fs) "contents" = VObj contents ->
        let count := field (VObj contents) "count" in
        let id := field (VObj contents) "id" in
        (truthy count = false -> formatHoverEvent fcpt (VObj fs) = ret id) /\
        (truthy count = true ->
         convertible count = true -> convertible id = true ->
         formatHoverEvent fcpt (VObj fs)
         = ret (VStr (ToString count +++ "x " +++ ToString id))) /\
        (forall shown name,
           truthy count = true -> count = VNum shown -> id = VStr name ->
           formatHoverEvent fcpt (VObj fs)
           = ret (VStr (shown +++ "x " +++ name))) /\
        (truthy count = true ->
         convertible count = false \/ convertible id = false ->
         exists message,
           formatHoverEvent fcpt (VObj fs) = throw (TypeError message)))) /\
    (field (VObj fs) "action" = VStr "show_entity" ->
     (has "contents" (VObj fs) = false ->
      formatHoverEvent fcpt (VObj fs) = (Ok (VStr ""), [legacy_warning])) /\
     (forall contents,
        field (VObj fs) "contents" = VObj contents ->
        formatHoverEvent fcpt (VObj fs)
        = ret (if truthy (field (VObj contents) "name")
               then field (VObj contents) "name"
               else VStr "Unnamed Entity"))) /\
    formatHoverEvent fcpt
      (VObj [("action", VStr "show_item");
             ("contents",
              VObj [("id", VStr "minecraft:diamond"); ("count", VNum "5")])])
    = ret (VStr "5x minecraft:diamond") /\
    formatHoverEvent fcpt
      (VObj [("action", VStr "show_item");
             ("contents",
              VObj [("id", VStr "minecraft:dirt"); ("count", VNum "1e+21")])])
    = ret (VStr "1e+21x minecraft:dirt").
Proof.
  intros fcpt fs.
  assert (I : field (VObj fs) "action" = VStr "show_item" ->
              forall contents,
                field (VObj fs) "contents" = VObj contents ->
                formatHoverEvent fcpt (VObj fs)
                = if truthy (field (VObj contents) "count") then
                    count <- to_string (field (VObj contents) "count") ;;
                    id <- to_string (field (VObj contents) "id") ;;
                    ret (VStr (count +++ "x " +++ id))
                  else ret (field (VObj contents) "id")).
  { intros H contents C. unfold formatHoverEvent.
    rewrite !get_object, !bind_ret, H. simpl.
    rewrite C. cbn [truthy negb]. rewrite !get_object, !bind_ret.
    reflexivity. }
  split; [| split; [| split; reflexivity]].
  - intros H. split.
    + intros N. unfold formatHoverEvent.
      rewrite !get_object, !bind_ret, H. simpl.
      rewrite (field_absent _ _ N). reflexivity.
    + intros contents C count id. subst count id.
      specialize (I H contents C). repeat split.
      * intros T. now rewrite I, T.
      * intros T Cc Ci. rewrite I, T.
        now rewrite !to_string_convertible, !bind_ret by assumption.
      * intros shown name T Ec Ei. rewrite I, T, Ec, Ei. reflexivity.
      * intros T [Cc | Ci]; rewrite I, T; unfold to_string.
        -- rewrite Cc. eexists. reflexivity.
        -- rewrite Ci.
           destruct (convertible (field (VObj contents) "count"));
             eexists; reflexivity.
  - intros H. split.
    + intros N. unfold formatHoverEvent.
      rewrite !get_object, !bind_ret, H. simpl.
      rewrite (field_absent _ _ N). reflexivity.
    + intros contents C. unfold formatHoverEvent.
      rewrite !get_object, !bind_ret, H. simpl.
      rewrite C. simpl.
      unfold or_else. now destruct (truthy (field (VObj contents) "name")).
Qed.

(** C7, the counterexample: a name that is present and empty is replaced by
    "Unnamed Entity". *)
Lemma formatHoverEvent_empty_name :
  has "name" (field unnamed_entity_event "contents") = true /\
  field (field unnamed_entity_event "contents") "name" = VStr "" /\
  forall fcpt,
    formatHoverEvent fcpt unnamed_entity_event = ret (VStr "Unnamed Entity").
Proof. repeat split. Qed.

(** ** Empty arguments *)

Section EmptyArguments.

Variable fc : value -> M Node.

Lemma substitute_blank (v : value) (missing : M Node) :
  substitute fc (blank_to_undefined v) missing = substitute fc v missing.
Proof.
  destruct v as [| | b | n | s | items | fields]; try reflexivity.
  destruct s; reflexivity.
Qed.

Lemma element_blank (args : list value) (i : Z) :
  exists v,
    element (VArr args) i = ret v /\
    element (VArr (map blank_to_undefined args)) i = ret (blank_to_undefined v).
Proof.
  rewrite !element_nth. destruct (i <? 0)%Z.
  - now exists VUndefined.
  - exists (nth (Z.to_nat i) args VUndefined). split; [reflexivity |].
    f_equal. f_equal.
    change VUndefined with (blank_to_undefined VUndefined) at 1.
    apply map_nth.
Qed.

Lemma numbered_loop_blank template args matches lastIndex result :
  numbered_loop fc template (VArr (map blank_to_undefined args)) matches
    lastIndex result
  = numbered_loop fc template (VArr args) matches lastIndex result.
Proof.
  revert lastIndex result.
  induction matches as [| m rest IH]; intros lastIndex result;
    [reflexivity |].
  cbn [numbered_loop].
  destruct (element_blank args (parseInt (group1 m) - 1)) as (v & E1 & E2).
  rewrite E1, E2, !bind_ret, substitute_blank.
  apply bind_ext. intros node. apply IH.
Qed.

Lemma simple_loop_blank template args matches lastIndex index result :
  simple_loop fc template (VArr (map blank_to_undefined args)) matches
    lastIndex index result
  = simple_loop fc template (VArr args) matches lastIndex index result.
Proof.
  revert lastIndex index result.
  induction matches as [| m rest IH]; intros lastIndex index result;
    [reflexivity |].
  cbn [simple_loop].
  destruct (element_blank args (Z.of_nat index)) as (v & E1 & E2).
  rewrite E1, E2, !bind_ret, substitute_blank.
  apply bind_ext. intros node. apply IH.
Qed.

End EmptyArguments.

(** C10.  In both substitutions an argument that is the empty string is
    handled as a missing one: replacing the empty strings of the argument list
    by [undefined] changes nothing, and the token itself is emitted with a
    missing-argument warning.  For the templates ["%1$s"] and ["%s"] the
    result is the token, not the empty text. *)
Theorem empty_argument_is_missing :
  forall (fc : value -> M Node),
    (forall template args,
       numberedSubstitution fc template (VArr args)
       = numberedSubstitution fc template
           (VArr (map blank_to_undefined args))) /\
    (forall template args,
       simpleSubstitution fc template (VArr args)
       = simpleSubstitution fc template
           (VArr (map blank_to_undefined args))) /\
    (forall missing,
       substitute fc (VStr "") missing = substitute fc VUndefined missing) /\
    numberedSubstitution fc "%1$s" (VArr [VStr ""])
    = (Ok [Text "%1$s"], [Warn [LStr (missing_argument_message 0 "%1$s")]]) /\
    numberedSubstitution fc "%1$s" (VArr [])
    = (Ok [Text "%1$s"], [Warn [LStr (missing_argument_message 0 "%1$s")]]) /\
    simpleSubstitution fc "%s" (VArr [VStr ""])
    = (Ok [Text "%s"], [Warn [LStr (missing_argument_message 1 "%s")]]) /\
    simpleSubstitution fc "%s" (VArr [])
    = (Ok [Text "%s"], [Warn [LStr (missing_argument_message 1 "%s")]]).
Proof.
  intros fc. repeat split.
  - intros template args. unfold numberedSubstitution.
    now rewrite numbered_loop_blank.
  - intros template args. unfold simpleSubstitution.
    now rewrite simple_loop_blank.
Qed.

(** ** Substrings *)

Lemma append_nil_r (s : string) : s +++ "" = s.
Proof. induction s; simpl; congruence. Qed.

Lemma append_assoc (a b c : string) : (a +++ b) +++ c = a +++ b +++ c.
Proof. induction a; simpl; congruence. Qed.

Lemma length_append (a b : string) :
  String.length (a +++ b) = String.length a + String.length b.
Proof. induction a; simpl; congruence. Qed.

Lemma drop_0 (s : string) : drop 0 s = s.
Proof. reflexivity. Qed.

Lemma drop_nil (n : nat) : drop n "" = "".
Proof. destruct n; reflexivity. Qed.

Lemma drop_app_length (a b : string) : drop (String.length a) (a +++ b) = b.
Proof. induction a; simpl; [apply drop_0 | assumption]. Qed.

Lemma length_drop (n : nat) (s : string) :
  String.length (drop n s) = String.length s - n.
Proof.
  revert n; induction s as [| c s IH]; intros [| n]; simpl; try reflexivity.
  apply IH.
Qed.

Lemma drop_drop (a b : nat) (s : string) : drop a (drop b s) = drop (b + a) s.
Proof.
  revert b; induction s as [| c s IH]; intros [| b]; simpl;
    try reflexivity; try apply drop_nil. apply IH.
Qed.

Lemma drop_all (n : nat) (s : string) :
  String.length s <= n -> drop n s = "".
Proof.
  revert n; induction s as [| c s IH]; intros [| n] H; simpl in *;
    try reflexivity; try lia. apply IH. lia.
Qed.

Lemma substring_drop (n m : nat) (s : string) :
  substring n m s = substring 0 m (drop n s).
Proof.
  revert n; induction s as [| c s IH]; intros [| n]; simpl; try reflexivity.
  - destruct m; reflexivity.
  - apply IH.
Qed.

Lemma substring_empty (n : nat) (s : string) : substring n 0 s = "".
Proof.
  revert n; induction s as [| c s IH]; intros [| n]; simpl; try reflexivity.
  apply IH.
Qed.

Lemma substring_0_length (s : string) : substring 0 (String.length s) s = s.
Proof. induction s; simpl; congruence. Qed.

Lemma take_drop (n : nat) (s : string) : substring 0 n s +++ drop n s = s.
Proof.
  revert n; induction s as [| c s IH]; intros [| n]; simpl; try reflexivity.
  now rewrite IH.
Qed.

Lemma substring_0_app (a b : string) (k : nat) :
  substring 0 (String.length a + k) (a +++ b) = a +++ substring 0 k b.
Proof. induction a; simpl; congruence. Qed.

Lemma slice_from_drop (s : string) (from : nat) : slice_from s from = drop from s.
Proof.
  unfold slice_from. rewrite substring_drop, <- length_drop.
  apply substring_0_length.
Qed.

Lemma slice_drop (s : string) (a b : nat) :
  a <= b -> slice s a b +++ drop b s = drop a s.
Proof.
  intros H. unfold slice. rewrite substring_drop.
  replace (drop b s) with (drop (b - a) (drop a s))
    by (rewrite drop_drop; f_equal; lia).
  apply take_drop.
Qed.

Lemma strip_prefix_Some (p s r : string) :
  strip_prefix p s = Some r <-> s = p +++ r.
Proof.
  revert s; induction p as [| a p IH]; intros s; simpl.
  - split; congruence.
  - destruct s as [| b s]; [split; discriminate |].
    destruct (Ascii.eqb_spec a b) as [-> | N].
    + rewrite IH. split; congruence.
    + split; [discriminate | congruence].
Qed.

Lemma prefix_strip (p s : string) :
  String.prefix p s = true <-> exists r, s = p +++ r.
Proof.
  revert s; induction p as [| a p IH]; intros s.
  - split; [now exists s | destruct s; reflexivity].
  - destruct s as [| b s]; simpl;
      [split; [discriminate | intros (r & E); discriminate] |].
    destruct (ascii_dec a b) as [-> | N].
    + rewrite IH. split; intros (r & E); exists r; congruence.
    + split; [discriminate | intros (r & E); congruence].
Qed.

Lemma span_length (p : ascii -> bool) (s : string) :
  span p s <= String.length s.
Proof. induction s as [| c s IH]; simpl; [lia | destruct (p c); simpl; lia]. Qed.

Lemma span_forallb (p : ascii -> bool) (s : string) :
  string_forallb p (substring 0 (span p s) s) = true.
Proof.
  induction s as [| c s IH]; simpl; [reflexivity |].
  destruct (p c) eqn:E; simpl; [now rewrite E | reflexivity].
Qed.

(** ** The matches of a global regular expression *)

Lemma scan_chain_back match_at text from matches :
  match_at (drop from text) = None ->
  scan_chain match_at text (S from) matches ->
  scan_chain match_at text from matches.
Proof.
  intros N H. inversion H; subst.
  - apply scan_done. intros p Hp.
    destruct (Nat.eq_dec p from) as [-> | D]; [exact N | apply H0; lia].
  - apply scan_match; try assumption; [lia |].
    intros p Hp.
    destruct (Nat.eq_dec p from) as [-> | D]; [exact N | apply H1; lia].
Qed.

Lemma exec_from_chain match_at :
  sound_matcher match_at ->
  forall s pre skip,
    skip <= String.length s ->
    scan_chain match_at (pre +++ s) (String.length pre + skip)
      (exec_from match_at skip (String.length pre) s).
Proof.
  intros Sound s. induction s as [| c s IH]; intros pre skip Hs.
  - simpl in *. apply scan_done. intros p Hp.
    rewrite length_append in Hp. simpl in Hp. lia.
  - assert (E : forall x, pre +++ String c x = (pre +++ String c "") +++ x)
      by (intros x; now rewrite append_assoc).
    assert (L : String.length (pre +++ String c "") = S (String.length pre))
      by (rewrite length_append; simpl; lia).
    destruct skip as [| k]; cbn [exec_from].
    + pose proof (drop_app_length pre (String c s)) as D.
      destruct (match_at (String c s)) as [n |] eqn:M.
      * destruct (Sound _ _ M) as [N1 N2].
        assert (LM : String.length (substring 0 n (String c s)) = n)
          by (now apply length_substring_0).
        apply scan_match; cbn [index matched]; unfold match_end;
          cbn [index matched]; rewrite ?LM, ?D; try lia; try assumption.
        -- reflexivity.
        -- rewrite length_append. lia.
        -- specialize (IH (pre +++ String c "") (n - 1)).
           rewrite <- E, L in IH.
           replace (S (String.length pre) + (n - 1))
             with (String.length pre + n) in IH by lia.
           apply IH. simpl in N2. lia.
      * apply scan_chain_back; [rewrite Nat.add_0_r, D; exact M |].
        specialize (IH (pre +++ String c "") 0).
        rewrite <- E, L in IH. rewrite !Nat.add_0_r in *.
        apply IH. lia.
    + specialize (IH (pre +++ String c "") k).
      rewrite <- E, L in IH.
      replace (String.length pre + S k) with (S (String.length pre) + k) by lia.
      apply IH. simpl in Hs. lia.
Qed.

Lemma exec_all_chain match_at text :
  sound_matcher match_at ->
  scan_chain match_at text 0 (exec_all match_at text).
Proof.
  intros Sound. exact (exec_from_chain match_at Sound text "" 0 (Nat.le_0_l _)).
Qed.

(** ** The URL matcher *)

Lemma url_at_Some (s : string) (n : nat) :
  url_at s = Some n ->
  0 < n <= String.length s /\ is_url (substring 0 n s).
Proof.
  unfold url_at.
  destruct (strip_prefix "http" s) as [r |] eqn:P; [| discriminate].
  apply strip_prefix_Some in P. subst s.
  destruct (strip_prefix "s" r) as [r' |] eqn:S.
  - apply strip_prefix_Some in S. subst r.
    destruct (strip_prefix "://" r') as [r2 |] eqn:C; [| discriminate].
    apply strip_prefix_Some in C. subst r'.
    pose proof (span_length (fun c => negb (is_space c)) r2) as SL.
    pose proof (span_forallb (fun c => negb (is_space c)) r2) as SF.
    destruct (Nat.eqb_spec (span (fun c => negb (is_space c)) r2) 0) as [| NZ];
      [discriminate |].
    intros H; inversion H; subst n; clear H.
    split; [simpl; lia |].
    exists (substring 0 (span (fun c => negb (is_space c)) r2) r2).
    split; [right; reflexivity |]. split; [| exact SF].
    intros E. apply (f_equal String.length) in E.
    rewrite length_substring_0 in E by exact SL. simpl in E. lia.
  - destruct (strip_prefix "://" r) as [r2 |] eqn:C; [| discriminate].
    apply strip_prefix_Some in C. subst r.
    pose proof (span_length (fun c => negb (is_space c)) r2) as SL.
    pose proof (span_forallb (fun c => negb (is_space c)) r2) as SF.
    destruct (Nat.eqb_spec (span (fun c => negb (is_space c)) r2) 0) as [| NZ];
      [discriminate |].
    intros H; inversion H; subst n; clear H.
    split; [simpl; lia |].
    exists (substring 0 (span (fun c => negb (is_space c)) r2) r2).
    split; [left; reflexivity |]. split; [| exact SF].
    intros E. apply (f_equal String.length) in E.
    rewrite length_substring_0 in E by exact SL. simpl in E. lia.
Qed.

Lemma url_at_sound : sound_matcher url_at.
Proof. intros s n H. now apply url_at_Some in H. Qed.

Lemma url_at_is_url (u rest : string) :
  is_url u -> url_at (u +++ rest) <> None.
Proof.
  intros (r & [-> | ->] & N & S); destruct r as [| c r]; try contradiction;
    unfold no_space in S; simpl in S; apply andb_true_iff in S;
    destruct S as [S _]; unfold url_at; simpl; rewrite S; discriminate.
Qed.

(** ** The linkifier covers its input *)

Lemma concat_cons (x : string) (xs : list string) :
  String.concat "" (x :: xs) = x +++ String.concat "" xs.
Proof. destruct xs; simpl; [now rewrite append_nil_r | reflexivity]. Qed.

Lemma concat_app (l1 l2 : list string) :
  String.concat "" (l1 ++ l2) = String.concat "" l1 +++ String.concat "" l2.
Proof.
  induction l1 as [| x l1 IH]; [reflexivity |].
  rewrite <- app_comm_cons, !concat_cons, IH. now rewrite append_assoc.
Qed.

(** A gap in which no match starts holds no URL. *)
Lemma gap_url_free (text : string) (from to : nat) :
  from <= to -> to <= String.length text ->
  (forall p, from <= p < to -> url_at (drop p text) = None) ->
  url_free (substring 0 (to - from) (drop from text)).
Proof.
  intros H1 H2 G a u b E U.
  assert (L : String.length (substring 0 (to - from) (drop from text))
              = to - from).
  { apply length_substring_0. rewrite length_drop. lia. }
  assert (UL : 0 < String.length u).
  { destruct U as (r & [-> | ->] & _); simpl; lia. }
  rewrite E, !length_append in L.
  apply (url_at_is_url u (b +++ drop to text) U).
  rewrite <- (G (from + String.length a)) by lia.
  f_equal. rewrite <- drop_drop.
  rewrite <- (take_drop (to - from) (drop from text)), E.
  rewrite drop_drop. replace (from + (to - from)) with to by lia.
  now rewrite !append_assoc, drop_app_length.
Qed.

Lemma span_maximal (p : ascii -> bool) (s : string) :
  drop (span p s) s = "" \/
  exists c r, drop (span p s) s = String c r /\ p c = false.
Proof.
  induction s as [| c s IH]; simpl; [now left |].
  destruct (p c) eqn:E; simpl; [exact IH |].
  right. now exists c, s.
Qed.

Lemma url_at_maximal (s : string) (n : nat) :
  url_at s = Some n -> drop n s = "" \/ starts_with_space (drop n s).
Proof.
  unfold url_at.
  destruct (strip_prefix "http" s) as [r |] eqn:P; [| discriminate].
  apply strip_prefix_Some in P. subst s.
  assert (K : forall r2 k,
            drop k r2 = "" \/
            (exists c r, drop k r2 = String c r /\ negb (is_space c) = false) ->
            drop k r2 = "" \/ starts_with_space (drop k r2)).
  { intros r2 k [Z | (c & r0 & Z & S)]; [now left | right].
    exists c, r0. split; [exact Z |]. now destruct (is_space c). }
  destruct (strip_prefix "s" r) as [r' |] eqn:S.
  - apply strip_prefix_Some in S. subst r.
    destruct (strip_prefix "://" r') as [r2 |] eqn:C; [| discriminate].
    apply strip_prefix_Some in C. subst r'.
    destruct (Nat.eqb_spec (span (fun c => negb (is_space c)) r2) 0);
      [discriminate |].
    intros H; inversion H; subst n; clear H.
    apply (K r2), span_maximal.
  - destruct (strip_prefix "://" r) as [r2 |] eqn:C; [| discriminate].
    apply strip_prefix_Some in C. subst r.
    destruct (Nat.eqb_spec (span (fun c => negb (is_space c)) r2) 0);
      [discriminate |].
    intros H; inversion H; subst n; clear H.
    apply (K r2), span_maximal.
Qed.

Lemma url_at_not_at_space (s : string) (n : nat) :
  url_at s = Some n -> ~ (s = "" \/ starts_with_space s).
Proof.
  unfold url_at.
  destruct (strip_prefix "http" s) as [r |] eqn:P; [| discriminate].
  apply strip_prefix_Some in P. subst s.
  intros _ [Z | (c & r0 & Z & S)]; [discriminate |].
  inversion Z; subst. discriminate.
Qed.

Lemma linkify_loop_spec (text : string) (matches : list regmatch)
    (lastIndex : nat) :
  scan_chain url_at text lastIndex matches ->
  lastIndex <= String.length text ->
  forall result,
  exists fragments,
    linkify_loop text matches lastIndex result = result ++ fragments /\
    String.concat "" (map textContent fragments) = drop lastIndex text /\
    well_linked fragments /\
    (drop lastIndex text = "" \/ starts_with_space (drop lastIndex text) ->
     after_link fragments).
Proof.
  intros C. induction C as [from G | from m rest H1 G M E P B C IH];
    intros L result.
  - cbn [linkify_loop]. eexists; split; [reflexivity |].
    unfold text_after. destruct (Nat.ltb_spec from (String.length text)).
    + rewrite slice_from_drop. split; [reflexivity |].
      assert (N : drop from text <> "").
      { intros Z. apply (f_equal String.length) in Z.
        rewrite length_drop in Z. simpl in Z. lia. }
      split.
      * constructor; [exact N | | constructor].
        rewrite <- (substring_0_length (drop from text)), length_drop.
        apply gap_url_free; [lia | lia | exact G].
      * intros [Z | S]; [contradiction | exact S].
    + split; [| split; [constructor | intros _; exact I]].
      simpl. symmetry. now apply drop_all.
  - cbn [linkify_loop].
    destruct (IH B ((result ++ text_before text from m) ++ [anchor (matched m)]))
      as (fragments & E1 & E2 & E3 & E4).
    exists (text_before text from m ++ [anchor (matched m)] ++ fragments).
    split; [rewrite E1; now rewrite <- !app_assoc |].
    assert (T : String.concat "" (map textContent (text_before text from m))
                = slice text from (index m)).
    { unfold text_before. destruct (Nat.ltb_spec from (index m)).
      - reflexivity.
      - unfold slice. replace (index m - from) with 0 by lia.
        now rewrite substring_empty. }
    assert (A : well_linked (anchor (matched m) :: fragments)).
    { constructor; [| | exact E3].
      - rewrite E. now apply url_at_Some.
      - apply E4. unfold match_end. rewrite <- drop_drop.
        now apply url_at_maximal. }
    split; [| split].
    + rewrite !map_app, !concat_app, T, E2. simpl map.
      rewrite concat_cons. simpl String.concat. rewrite append_nil_r.
      rewrite <- (slice_drop text from (index m)) by exact H1.
      f_equal. rewrite E at 1.
      replace (drop (match_end m) text)
        with (drop (String.length (matched m)) (drop (index m) text))
        by (rewrite drop_drop; reflexivity).
      now rewrite take_drop.
    + unfold text_before. destruct (Nat.ltb_spec from (index m)) as [Lt | Ge];
        [| exact A].
      unfold match_end in B. simpl app.
      constructor; [| | exact A]; unfold slice; rewrite substring_drop.
      * intros Z. apply (f_equal String.length) in Z.
        rewrite length_substring_0 in Z by (rewrite length_drop; lia).
        simpl in Z. lia.
      * apply gap_url_free; [lia | lia | exact G].
    + intros S. unfold text_before.
      destruct (Nat.ltb_spec from (index m)) as [Lt | Ge]; simpl.
      * destruct S as [Z | (c & r & Z & S)].
        -- apply (f_equal String.length) in Z. rewrite length_drop in Z.
           unfold match_end in B. simpl in Z. lia.
        -- unfold slice. rewrite substring_drop, Z.
           destruct (index m - from) as [| k] eqn:K; [lia |].
           simpl. now eexists _, _.
      * replace from with (index m) in S by lia.
        exact (url_at_not_at_space _ _ M S).
Qed.

(** C6, the counterexample: [http://] alone is a run of code units that are
    not white space and that begins with [http://], and it stays a text. *)
Lemma linkifyText_bare_scheme :
  is_url_run "http://" = true /\
  linkifyText "http://" = [Text "http://"] /\
  linkifyText "see https:// now" = [Text "see https:// now"].
Proof. repeat split. Qed.

(** ** The validator ends and writes nothing *)

Lemma pure_ret {A} (a : A) : pure (ret a).
Proof. left. now exists a. Qed.

Lemma pure_fail message path : pure (fail message path).
Proof. right. now eexists. Qed.

Lemma pure_bind {A B} (m : M A) (k : A -> M B) :
  pure m -> (forall a, pure (k a)) -> pure (bind m k).
Proof.
  intros [(a & ->) | (e & ->)] K.
  - rewrite bind_Ok, after_log_nil. apply K.
  - right. now exists e.
Qed.

Lemma pure_when b m : pure m -> pure (when b m).
Proof. destruct b; [trivial | intros _; apply pure_ret]. Qed.

(** The validator is a sequence of checks around calls of itself.  A
    property of computations that holds of [ret tt] and of the failures of the
    checks, and that [bind] preserves, holds of the whole when it holds of the
    calls, which are made on paths longer by one to three entries. *)
Section Walk.

Variable Q : M unit -> Prop.
Hypothesis Q_ret : Q (ret tt).
Hypothesis Q_fail :
  forall message path, message <> DEPTH_EXCEEDED -> Q (fail message path).
Hypothesis Q_bind :
  forall m k, Q m -> (forall a : unit, Q (k a)) -> Q (bind m k).

Lemma Q_when b message path :
  message <> DEPTH_EXCEEDED -> Q (when b (fail message path)).
Proof. intros N. destruct b; [now apply Q_fail | apply Q_ret]. Qed.

Lemma Q_forEach_from (f : value -> nat -> M unit) items index :
  (forall x i, Q (f x i)) -> Q (forEach_from index items f).
Proof.
  intros H. revert index.
  induction items as [| x items IH]; intros index; simpl.
  - apply Q_ret.
  - apply Q_bind; [apply H | intros _; apply IH].
Qed.

Variable assertIsComponent : value -> list string -> M unit.
Variable path : list string.
Hypothesis callback :
  forall x suffix,
    1 <= List.length suffix <= 3 -> Q (assertIsComponent x (path ++ suffix)).

Ltac checks :=
  repeat (apply Q_bind; [apply Q_when; discriminate | intros _]).

Lemma Q_check_field component k ty message :
  message <> DEPTH_EXCEEDED ->
  Q (check_field component k ty message path).
Proof. intros N. now apply Q_when. Qed.

Lemma Q_check_children component k message :
  message <> DEPTH_EXCEEDED ->
  Q (check_children assertIsComponent component k message path).
Proof.
  intros N. unfold check_children.
  destruct (has k component); [| apply Q_ret]. simpl when.
  destruct (field component k); try now apply Q_fail.
  apply Q_forEach_from. intros x i.
  destruct (typeof x =? "string"); [apply Q_ret |].
  apply callback. simpl. lia.
Qed.

Lemma Q_assertIsShowTextHoverEvent hoverEvent :
  Q (assertIsShowTextHoverEvent assertIsComponent hoverEvent
       (path ++ ["hoverEvent"])).
Proof.
  unfold assertIsShowTextHoverEvent. checks.
  destruct (typeof _ =? "string"); [apply Q_ret |].
  destruct (if has "contents" hoverEvent then _ else _);
    try (rewrite <- app_assoc; apply callback; simpl; lia).
  apply Q_forEach_from. intros x i.
  destruct (typeof x =? "string"); [apply Q_ret |].
  rewrite <- app_assoc; apply callback; simpl; lia.
Qed.

Lemma Q_assertIsShowItemHoverEvent hoverEvent p :
  Q (assertIsShowItemHoverEvent hoverEvent p).
Proof.
  unfold assertIsShowItemHoverEvent. checks.
  destruct (has "value" hoverEvent); [apply Q_when; discriminate |].
  checks. apply Q_when; discriminate.
Qed.

Lemma Q_assertIsShowEntityHoverEvent hoverEvent p :
  Q (assertIsShowEntityHoverEvent hoverEvent p).
Proof.
  unfold assertIsShowEntityHoverEvent. checks.
  destruct (has "value" hoverEvent); [apply Q_when; discriminate |].
  checks. apply Q_when; discriminate.
Qed.

Lemma Q_assertIsHoverEvent hoverEvent :
  Q (assertIsHoverEvent assertIsComponent hoverEvent (path ++ ["hoverEvent"])).
Proof.
  unfold assertIsHoverEvent. checks.
  destruct (_ =? "show_text"); [apply Q_assertIsShowTextHoverEvent |].
  destruct (_ =? "show_item"); [apply Q_assertIsShowItemHoverEvent |].
  destruct (_ =? "show_entity"); [apply Q_assertIsShowEntityHoverEvent |].
  apply Q_ret.
Qed.

(** The body of [assertIsComponent] after the depth check. *)
Lemma Q_body component :
  Q (when (negb (truthy component) || negb (typeof component =? "object"))
       (fail "Component is not an object" path) ;;
     when (negb (has "text" component) && negb (has "translate" component)
           && negb (has "extra" component))
       (fail "Component does not have a text, translate, or extra property"
          path) ;;
     check_field component "text" "string"
       "Component.text is not a string" path ;;
     check_field component "translate" "string"
       "Component.translate is not a string" path ;;
     check_field component "color" "string"
       "Component.color is not a string" path ;;
     check_field component "bold" "boolean"
       "Component.bold is not a boolean" path ;;
     check_field component "italic" "boolean"
       "Component.italic is not a boolean" path ;;
     check_field component "underlined" "boolean"
       "Component.underlined is not a boolean" path ;;
     check_field component "strikethrough" "boolean"
       "Component.strikethrough is not a boolean" path ;;
     check_field component "obfuscated" "boolean"
       "Component.obfuscated is not a boolean" path ;;
     check_children assertIsComponent component "extra"
       "Component.extra is not an array" path ;;
     check_children assertIsComponent component "with"
       "Component.with is not an array" path ;;
     when (has "hoverEvent" component)
       (assertIsHoverEvent assertIsComponent
          (field component "hoverEvent") (path ++ ["hoverEvent"]))).
Proof.
  checks.
  repeat (apply Q_bind; [apply Q_check_field; discriminate | intros _]).
  repeat (apply Q_bind; [apply Q_check_children; discriminate | intros _]).
  destruct (has "hoverEvent" component); [| apply Q_ret].
  apply Q_assertIsHoverEvent.
Qed.

End Walk.

(** The depth check comes first: a path longer than eight entries is refused
    whatever the value at its end. *)
Lemma assertIsComponent_too_deep fuel component path :
  MAX_CHAT_DEPTH < List.length path ->
  assertIsComponent (S fuel) component path
  = (Throw (ComponentError DEPTH_EXCEEDED path), []).
Proof.
  intros H. apply Nat.ltb_lt in H. cbn [assertIsComponent]. now rewrite H.
Qed.

Lemma assertIsComponent_within fuel component path :
  List.length path <= MAX_CHAT_DEPTH ->
  assertIsComponent (S fuel) component path
  = (when (negb (truthy component) || negb (typeof component =? "object"))
       (fail "Component is not an object" path) ;;
     when (negb (has "text" component) && negb (has "translate" component)
           && negb (has "extra" component))
       (fail "Component does not have a text, translate, or extra property"
          path) ;;
     check_field component "text" "string"
       "Component.text is not a string" path ;;
     check_field component "translate" "string"
       "Component.translate is not a string" path ;;
     check_field component "color" "string"
       "Component.color is not a string" path ;;
     check_field component "bold" "boolean"
       "Component.bold is not a boolean" path ;;
     check_field component "italic" "boolean"
       "Component.italic is not a boolean" path ;;
     check_field component "underlined" "boolean"
       "Component.underlined is not a boolean" path ;;
     check_field component "strikethrough" "boolean"
       "Component.strikethrough is not a boolean" path ;;
     check_field component "obfuscated" "boolean"
       "Component.obfuscated is not a boolean" path ;;
     check_children (assertIsComponent fuel) component "extra"
       "Component.extra is not an array" path ;;
     check_children (assertIsComponent fuel) component "with"
       "Component.with is not an array" path ;;
     when (has "hoverEvent" component)
       (assertIsHoverEvent (assertIsComponent fuel)
          (field component "hoverEvent") (path ++ ["hoverEvent"]))).
Proof.
  intros H. apply Nat.ltb_ge in H. cbn [assertIsComponent]. rewrite H.
  cbn [when]. now rewrite bind_ret.
Qed.

(** A budget of ten is never used up from the root: every call on a longer
    path needs less. *)
Lemma assertIsComponent_budget fuel :
  forall component path,
    1 <= fuel -> 10 <= fuel + List.length path ->
    pure (assertIsComponent fuel component path).
Proof.
  induction fuel as [| fuel IH]; intros component path F B; [lia |].
  destruct (Nat.ltb_spec MAX_CHAT_DEPTH (List.length path)) as [D | D].
  - rewrite assertIsComponent_too_deep by exact D. right. now eexists.
  - rewrite assertIsComponent_within by exact D.
    apply Q_body.
    + left. now exists tt.
    + intros message p _. right. now eexists.
    + intros m k. apply pure_bind.
    + intros x suffix L. unfold MAX_CHAT_DEPTH in D.
      apply IH; rewrite ?length_app; lia.
Qed.

(** ** The paths of depth errors *)

Lemma cites_deep_bind (m : M unit) (k : unit -> M unit) :
  cites_deep m -> (forall a, cites_deep (k a)) -> cites_deep (bind m k).
Proof.
  intros Hm Hk q l E. destruct m as [[a | e | h] l1]; simpl in E.
  - destruct (k a) as [r l2] eqn:K. inversion E; subst.
    now apply (Hk a q l2).
  - now apply (Hm q l).
  - discriminate.
Qed.

Lemma assertIsComponent_cites_deep fuel :
  forall component path,
    List.length path <= 11 ->
    cites_deep (assertIsComponent fuel component path).
Proof.
  induction fuel as [| fuel IH]; intros component path L;
    [intros q l E; discriminate |].
  destruct (Nat.ltb_spec MAX_CHAT_DEPTH (List.length path)) as [D | D].
  - rewrite assertIsComponent_too_deep by exact D.
    intros q l E. inversion E; subst. unfold MAX_CHAT_DEPTH in D. lia.
  - rewrite assertIsComponent_within by exact D.
    apply Q_body.
    + intros q l E. discriminate.
    + intros message p N q l E. inversion E. contradiction.
    + apply cites_deep_bind.
    + intros x suffix S. apply IH. unfold MAX_CHAT_DEPTH in D.
      rewrite length_app. lia.
Qed.

(** ** A node that is too deep is found *)

Lemma throws_bind_l {A B} (m : M A) (k : A -> M B) :
  throws m -> throws (bind m k).
Proof. intros (e & ->). now exists e. Qed.

Lemma pure_bind_throws {A B} (m : M A) (k : A -> M B) :
  pure m -> (forall a, throws (k a)) -> throws (bind m k).
Proof.
  intros [(a & ->) | (e & ->)] K.
  - rewrite bind_Ok, after_log_nil. apply K.
  - now exists e.
Qed.

Lemma throws_forEach_from (f : value -> nat -> M unit) items i x :
  nth_error items i = Some x ->
  (forall y j, pure (f y j)) ->
  forall index,
    throws (f x (index + i)) -> throws (forEach_from index items f).
Proof.
  revert i. induction items as [| y items IH]; intros [| i] N P index T;
    simpl in N; try discriminate.
  - inversion N; subst. simpl. rewrite Nat.add_0_r in T.
    now apply throws_bind_l.
  - simpl. apply pure_bind_throws; [apply P | intros _].
    apply (IH i N P). now rewrite Nat.add_succ_l, <- Nat.add_succ_r.
Qed.

Lemma pure_when_fail b message path : pure (when b (fail message path)).
Proof. destruct b; [right; now eexists | left; now exists tt]. Qed.

Lemma field_present (o : value) (k : string) :
  field o k <> VUndefined -> has k o = true /\ exists fields, o = VObj fields.
Proof.
  destruct o; try (intros N; now contradiction N).
  unfold field, has. destruct (lookup k fields); [| intros N; now contradiction N].
  intros _. split; [reflexivity | now eexists].
Qed.

Section Reach.

Variable fuel : nat.
Variable path : list string.
Hypothesis budget : 1 <= fuel /\ 10 <= S fuel + List.length path.
Hypothesis shallow : List.length path <= MAX_CHAT_DEPTH.

Lemma pure_call x suffix :
  1 <= List.length suffix ->
  pure (assertIsComponent fuel x (path ++ suffix)).
Proof.
  intros L. apply assertIsComponent_budget; rewrite ?length_app; lia.
Qed.

Lemma pure_entry k x i :
  pure (if typeof x =? "string" then ret tt
        else assertIsComponent fuel x (path ++ [k; nat_toString i])).
Proof.
  destruct (typeof x =? "string"); [left; now exists tt |].
  apply pure_call. simpl. lia.
Qed.

Lemma pure_children component k message :
  pure (check_children (assertIsComponent fuel) component k message path).
Proof.
  unfold check_children.
  destruct (has k component); [| left; now exists tt]. simpl when.
  destruct (field component k); try (right; now eexists).
  unfold forEach. generalize 0.
  induction items as [| x items IH]; intros n; simpl.
  - left. now exists tt.
  - apply pure_bind; [apply pure_entry | intros _; apply IH].
Qed.

Lemma throws_children component k message items i x :
  field component k = VArr items ->
  nth_error items i = Some x ->
  (typeof x =? "string") = false ->
  throws (assertIsComponent fuel x (path ++ [k; nat_toString i])) ->
  throws (check_children (assertIsComponent fuel) component k message path).
Proof.
  intros F N T H. unfold check_children.
  destruct (field_present component k) as [P _]; [rewrite F; discriminate |].
  rewrite P, F. simpl when. unfold forEach.
  apply (throws_forEach_from _ items i x N).
  - intros y j. apply pure_entry.
  - simpl. now rewrite T.
Qed.


Lemma throws_tooltip component :
  field (field component "hoverEvent") "action" = VStr "show_text" ->
  (typeof (hover_contents (field component "hoverEvent")) =? "string")
  = false ->
  throws (contents_walk fuel (field component "hoverEvent") (path ++ ["hoverEvent"])) ->
  throws
    (when (has "hoverEvent" component)
       (assertIsHoverEvent (assertIsComponent fuel)
          (field component "hoverEvent") (path ++ ["hoverEvent"]))).
Proof.
  intros A T H.
  destruct (field_present (field component "hoverEvent") "action")
    as [HA (hfs & HO)]; [rewrite A; discriminate |].
  destruct (field_present component "hoverEvent") as [HH _];
    [rewrite HO; discriminate |].
  rewrite HH. cbn [when]. unfold assertIsHoverEvent. rewrite A.
  repeat (apply pure_bind_throws; [apply pure_when_fail | intros _]).
  change (throws
            (if typeof (hover_contents (field component "hoverEvent"))
                =? "string"
             then ret tt
             else contents_walk fuel (field component "hoverEvent")
                    (path ++ ["hoverEvent"]))).
  now rewrite T.
Qed.

End Reach.

Lemma node_at_throws component path d :
  node_at component path d ->
  forall fuel p0,
    1 <= fuel -> 10 <= fuel + List.length p0 ->
    MAX_CHAT_DEPTH < List.length p0 + List.length path ->
    throws (assertIsComponent fuel component p0).
Proof.
  induction 1 as [c | c k items i x p d K F N T R IH
                  | c x p d A C T NA R IH
                  | c items i x p d A C N T R IH];
    intros fuel p0 F1 F2 D; (destruct fuel as [| fuel]; [lia |]);
    (destruct (Nat.ltb_spec MAX_CHAT_DEPTH (List.length p0)) as [D0 | D0];
     [rewrite assertIsComponent_too_deep by exact D0; now eexists |]).
  - simpl in D. lia.
  - assert (B : 1 <= fuel /\ 10 <= S fuel + List.length p0)
      by (unfold MAX_CHAT_DEPTH in D0; lia).
    assert (H : throws (assertIsComponent fuel x (p0 ++ [k; nat_toString i]))).
    { apply IH; rewrite ?length_app; simpl in *; lia. }
    rewrite assertIsComponent_within by exact D0.
    repeat (apply pure_bind_throws; [apply pure_when_fail | intros _]).
    destruct K as [-> | ->].
    + apply throws_bind_l.
      now apply throws_children with (items := items) (i := i) (x := x).
    + apply pure_bind_throws; [now apply pure_children | intros _].
      apply throws_bind_l.
      now apply throws_children with (items := items) (i := i) (x := x).
  - assert (B : 1 <= fuel /\ 10 <= S fuel + List.length p0)
      by (unfold MAX_CHAT_DEPTH in D0; lia).
    rewrite assertIsComponent_within by exact D0.
    repeat (apply pure_bind_throws; [apply pure_when_fail | intros _]).
    do 2 (apply pure_bind_throws; [now apply pure_children | intros _]).
    apply throws_tooltip; [exact A | now rewrite C |].
    unfold contents_walk. rewrite C.
    replace (match x with VArr _ => _ | _ => _ end)
      with (assertIsComponent fuel x ((p0 ++ ["hoverEvent"]) ++ ["contents"]))
      by (now destruct x).
    apply IH; rewrite ?length_app; simpl in *; lia.
  - assert (B : 1 <= fuel /\ 10 <= S fuel + List.length p0)
      by (unfold MAX_CHAT_DEPTH in D0; lia).
    rewrite assertIsComponent_within by exact D0.
    repeat (apply pure_bind_throws; [apply pure_when_fail | intros _]).
    do 2 (apply pure_bind_throws; [now apply pure_children | intros _]).
    apply throws_tooltip; [exact A | now rewrite C |].
    unfold contents_walk. rewrite C. unfold forEach.
    apply (throws_forEach_from _ items i x N).
    + intros y j. destruct (typeof y =? "string"); [left; now exists tt |].
      apply assertIsComponent_budget; rewrite ?length_app; simpl; lia.
    + simpl. rewrite T.
      apply IH; rewrite ?length_app; simpl in *; lia.
Qed.

(** ** The path of a depth error is the path of a node *)

Lemma depth_error_bind (m : M unit) (k : unit -> M unit) q :
  depth_error (bind m k) q ->
  depth_error m q \/ (exists l, m = (Ok tt, l)) /\ depth_error (k tt) q.
Proof.
  intros (l & E). destruct m as [[[] | e | h] l1]; simpl in E.
  - right. split; [now eexists |].
    destruct (k tt) as [r l2]. inversion E; subst. now eexists.
  - left. inversion E; subst. now eexists.
  - discriminate.
Qed.

Lemma depth_error_when b message path q :
  message <> DEPTH_EXCEEDED -> ~ depth_error (when b (fail message path)) q.
Proof.
  intros N (l & E). destruct b; [| discriminate].
  inversion E. contradiction.
Qed.

Lemma depth_error_forEach_from (f : value -> nat -> M unit) items q :
  forall index,
    depth_error (forEach_from index items f) q ->
    exists i x, nth_error items i = Some x /\ depth_error (f x (index + i)) q.
Proof.
  induction items as [| y items IH]; intros index H; simpl in H.
  - destruct H as (l & E). discriminate.
  - apply depth_error_bind in H. destruct H as [H | [_ H]].
    + exists 0, y. rewrite Nat.add_0_r. now split.
    + destruct (IH _ H) as (i & x & N & D). exists (S i), x.
      split; [exact N |]. now rewrite Nat.add_succ_r.
Qed.

Lemma depth_error_children fc component k message path q :
  message <> DEPTH_EXCEEDED ->
  depth_error (check_children fc component k message path) q ->
  exists items i x,
    field component k = VArr items /\ nth_error items i = Some x /\
    (typeof x =? "string") = false /\
    depth_error (fc x (path ++ [k; nat_toString i])) q.
Proof.
  intros N H. unfold check_children in H.
  destruct (has k component); [| destruct H; discriminate]. simpl when in H.
  destruct (field component k) eqn:F;
    try (destruct H as (l & E); inversion E; contradiction).
  apply depth_error_forEach_from in H. destruct H as (i & x & NTH & D).
  simpl in D.
  destruct (typeof x =? "string") eqn:T; [destruct D; discriminate |].
  now exists items, i, x.
Qed.

Lemma depth_error_show_text fc hoverEvent path q :
  depth_error (assertIsShowTextHoverEvent fc hoverEvent path) q ->
  (typeof (hover_contents hoverEvent) =? "string") = false /\
  ((isArray (hover_contents hoverEvent) = false /\
    depth_error (fc (hover_contents hoverEvent) (path ++ ["contents"])) q) \/
   (exists items i x,
      hover_contents hoverEvent = VArr items /\ nth_error items i = Some x /\
      (typeof x =? "string") = false /\
      depth_error (fc x (path ++ ["contents"; nat_toString i])) q)).
Proof.
  unfold assertIsShowTextHoverEvent. fold (hover_contents hoverEvent).
  intros H. apply depth_error_bind in H.
  destruct H as [H | [_ H]]; [now apply depth_error_when in H |].
  destruct (typeof (hover_contents hoverEvent) =? "string") eqn:T;
    [destruct H; discriminate |].
  split; [reflexivity |].
  destruct (hover_contents hoverEvent) as [| | b | n | s | items | fs] eqn:C;
    try (left; now split).
  right. apply depth_error_forEach_from in H. destruct H as (i & x & N & D).
  simpl in D.
  destruct (typeof x =? "string") eqn:TX; [destruct D; discriminate |].
  now exists items, i, x.
Qed.

Lemma depth_error_item hoverEvent path q :
  ~ depth_error (assertIsShowItemHoverEvent hoverEvent path) q.
Proof.
  unfold assertIsShowItemHoverEvent. intros H.
  apply depth_error_bind in H.
  destruct H as [H | [_ H]]; [now apply depth_error_when in H |].
  destruct (has "value" hoverEvent); [now apply depth_error_when in H |].
  repeat (apply depth_error_bind in H;
          destruct H as [H | [_ H]]; [now apply depth_error_when in H |]).
  now apply depth_error_when in H.
Qed.

Lemma depth_error_entity hoverEvent path q :
  ~ depth_error (assertIsShowEntityHoverEvent hoverEvent path) q.
Proof.
  unfold assertIsShowEntityHoverEvent. intros H.
  apply depth_error_bind in H.
  destruct H as [H | [_ H]]; [now apply depth_error_when in H |].
  destruct (has "value" hoverEvent); [now apply depth_error_when in H |].
  repeat (apply depth_error_bind in H;
          destruct H as [H | [_ H]]; [now apply depth_error_when in H |]).
  now apply depth_error_when in H.
Qed.

Lemma when_fail_Ok b message path l :
  when b (fail message path) = (Ok tt, l) -> b = false.
Proof. destruct b; [discriminate | reflexivity]. Qed.

Lemma string_value (v : value) :
  (typeof v =? "string") = true -> v = VStr (ToString v).
Proof. destruct v; try discriminate. reflexivity. Qed.

Lemma depth_error_hover fc hoverEvent path q :
  depth_error (assertIsHoverEvent fc hoverEvent path) q ->
  field hoverEvent "action" = VStr "show_text" /\
  depth_error (assertIsShowTextHoverEvent fc hoverEvent path) q.
Proof.
  unfold assertIsHoverEvent. intros H.
  do 2 (apply depth_error_bind in H;
        destruct H as [H | [_ H]]; [now apply depth_error_when in H |]).
  apply depth_error_bind in H.
  destruct H as [H | [(l & S) H]]; [now apply depth_error_when in H |].
  apply when_fail_Ok, negb_false_iff, string_value in S.
  apply depth_error_bind in H.
  destruct H as [H | [_ H]]; [now apply depth_error_when in H |].
  destruct (ToString (field hoverEvent "action") =? "show_text") eqn:A.
  - apply String.eqb_eq in A. rewrite A in S. now split.
  - destruct (_ =? "show_item"); [now apply depth_error_item in H |].
    destruct (_ =? "show_entity"); [now apply depth_error_entity in H |].
    destruct H; discriminate.
Qed.

(** A depth error of the validator, started at [path], cites [path] extended
    by the path of a node of the component. *)
Lemma assertIsComponent_cites_node fuel :
  forall component path q,
    depth_error (assertIsComponent fuel component path) q ->
    exists suffix d, q = path ++ suffix /\ node_at component suffix d.
Proof.
  induction fuel as [| fuel IH]; intros component path q H;
    [destruct H; discriminate |].
  destruct (Nat.ltb_spec MAX_CHAT_DEPTH (List.length path)) as [D | D].
  - rewrite assertIsComponent_too_deep in H by exact D.
    destruct H as (l & E). inversion E; subst.
    exists [], component. rewrite app_nil_r. split; [reflexivity | constructor].
  - rewrite assertIsComponent_within in H by exact D.
    do 2 (apply depth_error_bind in H;
          destruct H as [H | [_ H]]; [now apply depth_error_when in H |]).
    unfold check_field in H.
    do 8 (apply depth_error_bind in H;
          destruct H as [H | [_ H]]; [now apply depth_error_when in H |]).
    apply depth_error_bind in H. destruct H as [H | [_ H]].
    { apply depth_error_children in H; [| discriminate].
      destruct H as (items & i & x & F & N & T & H).
      destruct (IH _ _ _ H) as (suffix & d & -> & R).
      exists ("extra" :: nat_toString i :: suffix), d.
      rewrite <- app_assoc. split; [reflexivity |].
      apply node_child with (items := items) (x := x); auto. }
    apply depth_error_bind in H. destruct H as [H | [_ H]].
    { apply depth_error_children in H; [| discriminate].
      destruct H as (items & i & x & F & N & T & H).
      destruct (IH _ _ _ H) as (suffix & d & -> & R).
      exists ("with" :: nat_toString i :: suffix), d.
      rewrite <- app_assoc. split; [reflexivity |].
      apply node_child with (items := items) (x := x); auto. }
    destruct (has "hoverEvent" component); [| destruct H; discriminate].
    cbn [when] in H. apply depth_error_hover in H. destruct H as [A H].
    apply depth_error_show_text in H.
    destruct H as [T [[NA H] | (items & i & x & C & N & TX & H)]];
      destruct (IH _ _ _ H) as (suffix & d & -> & R).
    + exists ("hoverEvent" :: "contents" :: suffix), d.
      rewrite <- !app_assoc. split; [reflexivity |].
      now apply node_tooltip with (x := hover_contents (field component "hoverEvent")).
    + exists ("hoverEvent" :: "contents" :: nat_toString i :: suffix), d.
      rewrite <- !app_assoc. split; [reflexivity |].
      now apply node_tooltip_entry with (items := items) (x := x).
Qed.

(** C2, as amended.  Validation fails for every tree in which the walk of the
    validator has a node (an entry that is not a string) at a path of more
    than eight entries.  A depth error cites the path of a node of the tree,
    the one at which the walk stopped, and that path has nine, ten or eleven
    entries: a path grows by two or three entries for each level.  The depth
    check is the first check made on a node, so a path that is too long is
    refused whatever stands at its end. *)
Theorem assertIsComponent_depth_bound :
  forall fuel component,
    10 <= fuel ->
    (forall path d,
       node_at component path d -> MAX_CHAT_DEPTH < List.length path ->
       exists e, assertIsComponent fuel component [] = (Throw e, [])) /\
    (forall q l,
       assertIsComponent fuel component []
       = (Throw (ComponentError DEPTH_EXCEEDED q), l) ->
       (exists d, node_at component q d) /\ 9 <= List.length q <= 11) /\
    (forall path,
       MAX_CHAT_DEPTH < List.length path ->
       assertIsComponent fuel component path
       = (Throw (ComponentError DEPTH_EXCEEDED path), [])).
Proof.
  intros fuel component F. split; [| split].
  - intros path d N D.
    apply (node_at_throws component path d N); simpl; lia.
  - intros q l E. split.
    + destruct (assertIsComponent_cites_node fuel component [] q)
        as (suffix & d & -> & R); [now exists l | now exists d].
    + apply (assertIsComponent_cites_deep fuel component []
               (Nat.le_0_l _) q l E).
  - intros path D. destruct fuel as [| fuel]; [lia |].
    now apply assertIsComponent_too_deep.
Qed.

Lemma node_at_nested n path d :
  node_at (nested n) path d ->
  node_at (nested (S n)) ("extra" :: "0" :: path) d.
Proof.
  intros H.
  refine (node_child (nested (S n)) "extra" [nested n] 0 (nested n) path d
            _ _ _ _ H); try reflexivity; [now left | now destruct n].
Qed.

Lemma node_at_nested_five : node_at (nested 5) nested_five_path (nested 0).
Proof. repeat apply node_at_nested. apply node_here. Qed.

Lemma assertIsComponent_depth_bound_witness :
  (exists e, assertIsComponent 10 (nested 5) [] = (Throw e, [])) /\
  assertIsComponent 10 (nested 5) (nested_five_path ++ ["extra"])
  = (Throw (ComponentError DEPTH_EXCEEDED (nested_five_path ++ ["extra"])), []).
Proof.
  destruct (assertIsComponent_depth_bound 10 (nested 5) (Nat.le_refl 10))
    as (H1 & _ & H3).
  split.
  - apply (H1 nested_five_path (nested 0) node_at_nested_five).
    apply Nat.ltb_lt. reflexivity.
  - apply H3. apply Nat.ltb_lt. reflexivity.
Defined.

(** C2, the counterexample: five levels of [extra] put a node at a path of
    ten entries, and that path, not one of nine entries, is cited. *)
Lemma assertIsComponent_nested_five :
  node_at (nested 5) nested_five_path (nested 0) /\
  assertIsComponent 10 (nested 5) []
  = (Throw (ComponentError DEPTH_EXCEEDED nested_five_path), []) /\
  List.length nested_five_path = 10 /\
  assertIsComponent 10 (nested 4) [] = (Ok tt, []).
Proof.
  split; [exact node_at_nested_five | repeat split].
Qed.

(** ** What validation establishes *)

Lemma seq_Ok (m : M unit) (k : unit -> M unit) (l : list log_entry) :
  bind m k = (Ok tt, l) ->
  (exists l1, m = (Ok tt, l1)) /\ (exists l2, k tt = (Ok tt, l2)).
Proof.
  intros H. apply bind_Ok_inv in H. destruct H as ([] & l1 & l2 & H1 & H2 & _).
  split; eexists; eassumption.
Qed.

Lemma forEach_from_Ok (f : value -> nat -> M unit) items :
  forall index l,
    forEach_from index items f = (Ok tt, l) ->
    Forall (fun x => exists i l', f x i = (Ok tt, l')) items.
Proof.
  induction items as [| x items IH]; intros index l H; [constructor |].
  simpl in H. apply seq_Ok in H. destruct H as [(l1 & H1) (l2 & H2)].
  constructor; [now exists index, l1 | now apply (IH (S index) l2)].
Qed.

Lemma entries_validated fuel q k items l :
  forEach items (fun component index =>
    if typeof component =? "string" then ret tt
    else assertIsComponent fuel component (q ++ k index))
  = (Ok tt, l) ->
  Forall entry_ok items.
Proof.
  intros H. apply forEach_from_Ok in H.
  eapply Forall_impl; [| exact H]. intros x (i & l' & E). unfold entry_ok.
  cbv beta in E.
  destruct (typeof x =? "string"); [now left | right].
  now exists fuel, (q ++ k i), l'.
Qed.

Lemma children_validated fuel component k message path l :
  check_children (assertIsComponent fuel) component k message path
  = (Ok tt, l) ->
  field component k = VUndefined \/
  exists items, field component k = VArr items /\ Forall entry_ok items.
Proof.
  unfold check_children. intros H.
  destruct (has k component) eqn:E; [| left; now apply field_absent].
  simpl in H. right.
  destruct (field component k) as [| | b | n | s | items | fs];
    try discriminate.
  exists items. split; [reflexivity |].
  now apply (entries_validated fuel path
               (fun index => [k; nat_toString index]) items l).
Qed.


Lemma show_text_validated fuel hoverEvent path l :
  assertIsShowTextHoverEvent (assertIsComponent fuel) hoverEvent path
  = (Ok tt, l) ->
  tooltip_ok (hover_contents hoverEvent) /\
  (has "contents" hoverEvent = true \/
   field hoverEvent "contents" = VUndefined).
Proof.
  unfold assertIsShowTextHoverEvent. intros H.
  apply seq_Ok in H. destruct H as [_ (l2 & H)].
  fold (hover_contents hoverEvent) in H.
  split.
  - unfold tooltip_ok.
    destruct (typeof (hover_contents hoverEvent) =? "string");
      [now left | right].
    destruct (hover_contents hoverEvent) as [| | b | n | s | items | fs] eqn:C;
      cbv iota in H;
      try (right; split; [reflexivity |]; eexists _, _, _; exact H).
    left. exists items. split; [reflexivity |].
    now apply (entries_validated fuel path
                 (fun index => ["contents"; nat_toString index]) items l2).
  - destruct (has "contents" hoverEvent) eqn:E; [now left | right].
    now apply field_absent.
Qed.


Lemma hover_validated fuel hoverEvent path l :
  assertIsHoverEvent (assertIsComponent fuel) hoverEvent path = (Ok tt, l) ->
  hover_ok hoverEvent.
Proof.
  unfold assertIsHoverEvent. intros H A.
  do 4 (apply seq_Ok in H; destruct H as [_ (? & H)]).
  rewrite A in H. simpl in H.
  now apply show_text_validated in H.
Qed.

Lemma validated_shape component :
  validated component ->
  (exists fields, component = VObj fields) /\
  ((typeof (field component "text") =? "string") = true \/
   field component "text" = VUndefined) /\
  children_ok (field component "extra") /\
  children_ok (field component "with") /\
  (field component "hoverEvent" = VUndefined \/
   hover_ok (field component "hoverEvent")).
Proof.
  intros (fuel & path & l & H).
  destruct fuel as [| fuel]; [discriminate |].
  destruct (Nat.ltb_spec MAX_CHAT_DEPTH (List.length path)) as [D | D];
    [rewrite assertIsComponent_too_deep in H by exact D; discriminate |].
  rewrite assertIsComponent_within in H by exact D.
  apply seq_Ok in H. destruct H as [(? & O) (? & H)].
  apply seq_Ok in H. destruct H as [(? & P) (? & H)].
  apply seq_Ok in H. destruct H as [(? & T) (? & H)].
  do 7 (apply seq_Ok in H; destruct H as [_ (? & H)]).
  apply seq_Ok in H. destruct H as [(? & E) (? & H)].
  apply seq_Ok in H. destruct H as [(? & W) (? & H)].
  apply when_fail_Ok in O, P, T.
  split; [| split; [| split; [| split]]].
  - destruct component; unfold has in P; simpl in O, P; try discriminate.
    now eexists.
  - destruct (has "text" component) eqn:HT.
    + left. simpl in T. now destruct (typeof (field component "text") =? "string").
    + right. now apply field_absent.
  - now apply children_validated in E.
  - now apply children_validated in W.
  - destruct (has "hoverEvent" component) eqn:HH.
    + right. simpl in H. now apply hover_validated in H.
    + left. now apply field_absent.
Qed.

(** ** Computations that are followed to their end *)

Lemma no_halt_bind {A B} (m : M A) (k : A -> M B) :
  no_halt m -> (forall a l, m = (Ok a, l) -> no_halt (k a)) ->
  no_halt (bind m k).
Proof.
  destruct m as [[a | e | h] l]; simpl; intros Hm Hk; try easy.
  specialize (Hk a l eq_refl). unfold no_halt in *.
  now destruct (k a) as [[] ?].
Qed.

Lemma no_halt_seq {A B} (m : M A) (k : A -> M B) :
  no_halt m -> (forall a, no_halt (k a)) -> no_halt (bind m k).
Proof. intros Hm Hk. apply no_halt_bind; [exact Hm | intros a _ _; apply Hk]. Qed.

Lemma no_halt_try_catch {A} (m : M A) (h : exn -> M A) :
  no_halt m -> (forall e, no_halt (h e)) -> no_halt (try_catch m h).
Proof.
  destruct m as [[a | e | x] l]; simpl; intros Hm Hh; try easy.
  specialize (Hh e). unfold no_halt in *. now destruct (h e) as [[] ?].
Qed.

Lemma no_halt_mapM {A B} (f : A -> M B) (items : list A) :
  (forall x, In x items -> no_halt (f x)) -> no_halt (mapM f items).
Proof.
  induction items as [| x items IH]; intros H; simpl; [exact I |].
  apply no_halt_seq; [apply H; now left | intros y].
  apply no_halt_seq; [apply IH; intros z Hz; apply H; now right | intros ys].
  exact I.
Qed.

Lemma no_halt_to_string (v : value) : no_halt (to_string v).
Proof. unfold to_string. now destruct (convertible v). Qed.

Lemma get_truthy (o : value) (k : string) :
  truthy o = true -> (k =? "bold") = false -> (k =? "with") = false ->
  get o k = ret (field o k).
Proof.
  intros T B W. destruct o; simpl in *; try discriminate;
    rewrite ?B, ?W; reflexivity.
Qed.

(** ** Heights *)

Lemma list_max_In (n : nat) (l : list nat) : In n l -> n <= list_max l.
Proof.
  induction l as [| m l IH]; simpl; [contradiction |].
  intros [-> | H]; [lia | specialize (IH H); lia].
Qed.

Lemma height_entry (items : list value) (x : value) :
  In x items -> height x < height (VArr items).
Proof.
  intros H. simpl. apply Nat.lt_succ_r, list_max_In, in_map, H.
Qed.

Lemma height_field (o : value) (k : string) :
  field o k = VUndefined \/ height (field o k) < height o.
Proof.
  destruct o; try (now left). unfold field.
  destruct (lookup k fields) as [v |] eqn:L; [right | now left].
  simpl. apply Nat.lt_succ_r.
  apply (list_max_In (height v)).
  induction fields as [| [k' v'] fields IH]; simpl in L; [discriminate |].
  destruct (k' =? k).
  - inversion L; subst. now left.
  - right. now apply IH.
Qed.

Lemma height_field_entry (o : value) (k : string) items x :
  field o k = VArr items -> In x items -> S (height x) < height o.
Proof.
  intros F I. destruct (height_field o k) as [E | H];
    [rewrite F in E; discriminate |].
  rewrite F in H. pose proof (height_entry items x I). lia.
Qed.

(** ** Rendering a validated component *)

Section Rendering.

Variable translations : string -> option string.
Variable fc : value -> M Node.
Variable fcpt : value -> M string.
Variable n : nat.

Hypothesis fc_ends :
  forall x, validated x -> height x < n -> no_halt (fc x).
Hypothesis fcpt_ends :
  forall x, validated x -> height x < n -> no_halt (fcpt x).


Lemma entry_fc items x :
  entries n items -> In x items -> (typeof x =? "string") = false ->
  no_halt (fc x).
Proof.
  intros [E S] X T. apply fc_ends; [| now apply S].
  rewrite Forall_forall in E. destruct (E x X) as [C | V]; [congruence | exact V].
Qed.

Lemma element_array items i :
  exists v,
    element (VArr items) i = ret v /\ (v = VUndefined \/ In v items).
Proof.
  rewrite element_nth.
  destruct (i <? 0)%Z; [exists VUndefined; now split; [| left] |].
  exists (nth (Z.to_nat i) items VUndefined). split; [reflexivity |].
  destruct (nth_in_or_default (Z.to_nat i) items VUndefined); [now right | now left].
Qed.

Lemma no_halt_substitute items v missing :
  entries n items -> v = VUndefined \/ In v items -> no_halt missing ->
  no_halt (substitute fc v missing).
Proof.
  intros E [-> | V] Hm; unfold substitute; [exact Hm |].
  destruct (negb (truthy v)); [exact Hm |].
  destruct (typeof v =? "string") eqn:T; [exact I |].
  now apply (entry_fc items).
Qed.

Lemma no_halt_numbered_loop template items matches lastIndex result :
  entries n items ->
  no_halt (numbered_loop fc template (VArr items) matches lastIndex result).
Proof.
  intros E. revert lastIndex result.
  induction matches as [| m rest IH]; intros lastIndex result; [exact I |].
  cbn [numbered_loop].
  destruct (element_array items (parseInt (group1 m) - 1)) as (v & -> & V).
  rewrite bind_ret. apply no_halt_seq; [| intros node; apply IH].
  apply (no_halt_substitute items); [exact E | exact V | exact I].
Qed.

Lemma no_halt_simple_loop template items matches lastIndex index result :
  entries n items ->
  no_halt (simple_loop fc template (VArr items) matches lastIndex index result).
Proof.
  intros E. revert lastIndex index result.
  induction matches as [| m rest IH]; intros lastIndex index result;
    [exact I |].
  cbn [simple_loop].
  destruct (element_array items (Z.of_nat index)) as (v & -> & V).
  rewrite bind_ret. apply no_halt_seq; [| intros node; apply IH].
  apply (no_halt_substitute items); [exact E | exact V | exact I].
Qed.

Lemma no_halt_formatTranslation key items :
  entries n items ->
  no_halt (formatTranslation translations fc key (VArr items)).
Proof.
  intros E. unfold formatTranslation.
  destruct (negb (truthy key)); [exact I |].
  destruct ((typeof key =? "string") && (ToString key =? "%s")).
  - simpl length_of. rewrite bind_ret.
    destruct (is_zero _); [exact I |].
    simpl array_map. apply no_halt_mapM. intros x Hx.
    destruct (typeof x =? "string") eqn:T; [exact I |].
    now apply (entry_fc items).
  - apply no_halt_seq; [apply no_halt_to_string | intros k].
    destruct (table_read translations k) as [| template |];
      [exact I | | exact I].
    destruct template as [| c template]; [exact I |].
    apply no_halt_try_catch; [| intros e; exact I].
    destruct (string_includes "$s" (String c template)).
    + now apply no_halt_numbered_loop.
    + now apply no_halt_simple_loop.
Qed.

Lemma args_entries component k :
  children_ok (field component k) -> height component <= n ->
  exists items,
    coalesce (field component k) (VArr []) = VArr items /\ entries n items.
Proof.
  intros [E | (items & E & F)] H.
  - exists []. rewrite E. split; [reflexivity |].
    split; [constructor | intros x []].
  - exists items. rewrite E. split; [reflexivity |].
    split; [exact F |]. intros x X.
    pose proof (height_field_entry component k items x E X). lia.
Qed.

Lemma no_halt_entries_map {B} items (f : value -> M B) (g : value -> M B) :
  entries n items ->
  (forall x, In x items -> (typeof x =? "string") = false -> no_halt (g x)) ->
  (forall x, no_halt (f x)) ->
  no_halt (mapM (fun component =>
                   if typeof component =? "string" then f component
                   else g component) items).
Proof.
  intros E G F. apply no_halt_mapM. intros x X.
  destruct (typeof x =? "string") eqn:T; [apply F | now apply G].
Qed.

Lemma no_halt_plain_text fields :
  children_ok (field (VObj fields) "with") ->
  children_ok (field (VObj fields) "extra") ->
  height (VObj fields) <= n ->
  no_halt (plain_text translations fc fcpt (VObj fields)).
Proof.
  intros W E H. unfold plain_text. rewrite get_object, bind_ret.
  apply no_halt_seq.
  - destruct (truthy (field (VObj fields) "text")); [apply no_halt_to_string |].
    rewrite get_object, bind_ret.
    destruct (truthy (field (VObj fields) "translate")); [| exact I].
    rewrite get_object, bind_ret.
    destruct (args_entries (VObj fields) "with" W H) as (items & -> & A).
    apply no_halt_seq; [now apply no_halt_formatTranslation | intros; exact I].
  - intros result. rewrite get_object, bind_ret.
    destruct E as [-> | (items & E & F)]; [exact I |].
    rewrite E. simpl truthy. cbv iota. simpl array_map.
    apply no_halt_seq; [| intros; exact I].
    apply no_halt_entries_map with (f := fun x => ret (ToString x)).
    + split; [exact F |]. intros x X.
      pose proof (height_field_entry (VObj fields) "extra" items x E X). lia.
    + intros x X T. apply fcpt_ends.
      * rewrite Forall_forall in F. destruct (F x X); [congruence | assumption].
      * pose proof (height_field_entry (VObj fields) "extra" items x E X). lia.
    + intros x. exact I.
Qed.

Lemma typeof_string (v : value) :
  (typeof v =? "string") = true -> v = VStr (ToString v).
Proof. destruct v; simpl; try discriminate. reflexivity. Qed.

Lemma validated_object (v : value) :
  validated v -> exists fields, v = VObj fields.
Proof. intros V. now apply validated_shape in V. Qed.

Lemma tooltip_not_nullish (x : value) : tooltip_ok x -> nullish x = false.
Proof.
  intros [T | [(items & -> & _) | [_ V]]]; try reflexivity.
  - apply typeof_string in T. now rewrite T.
  - apply validated_object in V. destruct V as (fs & ->). reflexivity.
Qed.

Lemma coalesce_hover_contents hoverEvent :
  tooltip_ok (hover_contents hoverEvent) ->
  has "contents" hoverEvent = true \/
    field hoverEvent "contents" = VUndefined ->
  coalesce (field hoverEvent "contents") (field hoverEvent "value")
  = hover_contents hoverEvent.
Proof.
  intros T C. unfold hover_contents in *. unfold coalesce.
  destruct (has "contents" hoverEvent).
  - now rewrite (tooltip_not_nullish _ T).
  - destruct C as [C | ->]; [discriminate | reflexivity].
Qed.

Lemma no_halt_show_text contents :
  tooltip_ok contents ->
  (forall x, contents = x \/ (exists items, contents = VArr items /\ In x items) ->
             height x < n) ->
  no_halt
    (if typeof contents =? "undefined" then
       console_warn [LStr "HoverEvent.contents is undefined"] ;;
       ret (VStr "")
     else if typeof contents =? "string" then ret contents
     else
       match contents with
       | VArr items =>
           parts <- mapM (fun component =>
                      if typeof component =? "string"
                      then ret (ToString component)
                      else fcpt component) items ;;
           ret (VStr (join "" parts))
       | _ =>
           s <- fcpt contents ;;
           ret (VStr s)
       end).
Proof.
  intros T H.
  destruct (typeof contents =? "undefined"); [exact I |].
  destruct (typeof contents =? "string") eqn:S; [exact I |].
  destruct T as [T | [(items & -> & F) | [A V]]]; [congruence | |].
  - apply no_halt_seq; [| intros; exact I].
    apply no_halt_entries_map with (f := fun x => ret (ToString x)).
    + split; [exact F |]. intros x X. apply H. right. now exists items.
    + intros x X T. apply fcpt_ends.
      * rewrite Forall_forall in F. destruct (F x X); [congruence | assumption].
      * apply H. right. now exists items.
    + intros x. exact I.
  - assert (E : no_halt (s <- fcpt contents ;; ret (VStr s))).
    { apply no_halt_seq; [| intros; exact I].
      apply fcpt_ends; [exact V | apply H; now left]. }
    now destruct contents.
Qed.

Lemma no_halt_formatHoverEvent hoverEvent :
  truthy hoverEvent = true -> hover_ok hoverEvent ->
  height hoverEvent <= n ->
  no_halt (formatHoverEvent fcpt hoverEvent).
Proof.
  intros T O H. unfold formatHoverEvent.
  rewrite (get_truthy hoverEvent "action" T eq_refl eq_refl), bind_ret.
  destruct ((typeof (field hoverEvent "action") =? "string")
            && (ToString (field hoverEvent "action") =? "show_text")) eqn:A.
  - apply andb_true_iff in A. destruct A as [A1 A2].
    apply typeof_string in A1. apply String.eqb_eq in A2. rewrite A2 in A1.
    destruct (O A1) as [TO C].
    rewrite (get_truthy hoverEvent "contents" T eq_refl eq_refl), bind_ret.
    rewrite (get_truthy hoverEvent "value" T eq_refl eq_refl), bind_ret.
    rewrite (coalesce_hover_contents hoverEvent TO C).
    apply no_halt_show_text; [exact TO |].
    assert (HC : hover_contents hoverEvent = VUndefined \/
                 height (hover_contents hoverEvent) < height hoverEvent).
    { unfold hover_contents. destruct (has "contents" hoverEvent);
        apply height_field. }
    assert (P : 0 < height hoverEvent).
    { destruct (field_present hoverEvent "action") as [_ (fs & ->)];
        [rewrite A1; discriminate | simpl; lia]. }
    intros x [<- | (items & E & X)].
    + destruct HC as [HC | HC]; [rewrite HC; simpl |]; lia.
    + destruct HC as [HC | HC]; [congruence |].
      rewrite E in HC. pose proof (height_entry items x X). lia.
  - clear A.
    destruct ((typeof (field hoverEvent "action") =? "string")
              && (ToString (field hoverEvent "action") =? "show_item")).
    + rewrite (get_truthy hoverEvent "contents" T eq_refl eq_refl), bind_ret.
      destruct (truthy (field hoverEvent "contents")) eqn:C; [| exact I].
      simpl negb. cbv iota.
      rewrite (get_truthy _ "count" C eq_refl eq_refl), bind_ret.
      rewrite (get_truthy _ "id" C eq_refl eq_refl), bind_ret.
      destruct (truthy (field (field hoverEvent "contents") "count"));
        [| exact I].
      apply no_halt_seq; [apply no_halt_to_string | intros count].
      apply no_halt_seq; [apply no_halt_to_string | intros id; exact I].
    + destruct ((typeof (field hoverEvent "action") =? "string")
                && (ToString (field hoverEvent "action") =? "show_entity"));
        [| exact I].
      rewrite (get_truthy hoverEvent "contents" T eq_refl eq_refl), bind_ret.
      destruct (truthy (field hoverEvent "contents")) eqn:C; [| exact I].
      simpl negb. cbv iota.
      rewrite (get_truthy _ "name" C eq_refl eq_refl), bind_ret.
      exact I.
Qed.

Lemma no_halt_apply_color fields result :
  no_halt (apply_color (VObj fields) result).
Proof.
  unfold apply_color. rewrite get_object, bind_ret.
  destruct (truthy (field (VObj fields) "color")); [| exact I].
  destruct (field (VObj fields) "color"); try exact I.
  destruct (negb (isValidColor s)); [exact I |].
  destruct (startsWith "#" s); exact I.
Qed.

Lemma no_halt_apply_flag fields flag result :
  no_halt (apply_flag (VObj fields) flag result).
Proof. rewrite apply_flag_object. exact I. Qed.

Lemma no_halt_apply_hover fields result :
  field (VObj fields) "hoverEvent" = VUndefined \/
    hover_ok (field (VObj fields) "hoverEvent") ->
  height (VObj fields) <= n ->
  no_halt (apply_hover fcpt (VObj fields) result).
Proof.
  intros O H. unfold apply_hover. rewrite get_object, bind_ret.
  destruct (truthy (field (VObj fields) "hoverEvent")) eqn:T; [| exact I].
  destruct O as [O | O]; [rewrite O in T; discriminate |].
  apply no_halt_seq;
    [| intros t; apply no_halt_seq;
         [apply no_halt_to_string | intros; exact I]].
  apply no_halt_formatHoverEvent; [exact T | exact O |].
  destruct (height_field (VObj fields) "hoverEvent") as [E | E];
    [rewrite E in T; discriminate | lia].
Qed.

Lemma no_halt_apply_content fields result :
  (typeof (field (VObj fields) "text") =? "string") = true \/
    field (VObj fields) "text" = VUndefined ->
  children_ok (field (VObj fields) "with") ->
  height (VObj fields) <= n ->
  no_halt (apply_content translations fc (VObj fields) result).
Proof.
  intros T W H. unfold apply_content. rewrite get_object, bind_ret.
  destruct (truthy (field (VObj fields) "text")) eqn:TT.
  - destruct T as [T | T]; [| rewrite T in TT; discriminate].
    apply typeof_string in T. rewrite T. exact I.
  - rewrite get_object, bind_ret.
    destruct (truthy (field (VObj fields) "translate")); [| exact I].
    rewrite get_object, bind_ret.
    destruct (args_entries (VObj fields) "with" W H) as (items & -> & A).
    apply no_halt_seq; [now apply no_halt_formatTranslation | intros; exact I].
Qed.

Lemma no_halt_apply_extra fields result :
  children_ok (field (VObj fields) "extra") ->
  height (VObj fields) <= n ->
  no_halt (apply_extra fc (VObj fields) result).
Proof.
  intros E H. unfold apply_extra. rewrite get_object, bind_ret.
  destruct E as [-> | (items & E & F)]; [exact I |].
  rewrite E. simpl truthy. cbv iota. simpl array_map.
  apply no_halt_seq; [| intros; exact I].
  apply no_halt_entries_map with (f := fun x => ret (createTextNode (ToString x))).
  - split; [exact F |]. intros x X.
    pose proof (height_field_entry (VObj fields) "extra" items x E X). lia.
  - intros x X T. apply fc_ends.
    + rewrite Forall_forall in F. destruct (F x X); [congruence | assumption].
    + pose proof (height_field_entry (VObj fields) "extra" items x E X). lia.
  - intros x. exact I.
Qed.

Lemma no_halt_assemble fields :
  validated (VObj fields) -> height (VObj fields) <= n ->
  no_halt (assemble translations fc fcpt (VObj fields)).
Proof.
  intros V H. destruct (validated_shape _ V) as (_ & T & E & W & O).
  unfold assemble.
  apply no_halt_seq; [apply no_halt_apply_color | intros r1].
  do 5 (apply no_halt_seq; [apply no_halt_apply_flag | intros ?]).
  apply no_halt_seq; [now apply no_halt_apply_hover | intros r7].
  apply no_halt_seq; [now apply no_halt_apply_content | intros r8].
  now apply no_halt_apply_extra.
Qed.

Lemma no_halt_truncate result : no_halt (truncate result).
Proof. unfold truncate. now destruct (_ && _). Qed.

(** The [catch] block on a component whose [text] is a string or absent. *)
Lemma fallback_validated fields error :
  (typeof (field (VObj fields) "text") =? "string") = true \/
    field (VObj fields) "text" = VUndefined ->
  fallback (VObj fields) error
  = (Ok (fallback_leaf (VObj fields)), [caught_error error]).
Proof.
  intros T. unfold fallback, fallback_leaf. rewrite get_object.
  destruct T as [T | T].
  - destruct (field (VObj fields) "text"); try discriminate. reflexivity.
  - rewrite T. reflexivity.
Qed.

Lemma render_returns fields :
  (typeof (field (VObj fields) "text") =? "string") = true \/
    field (VObj fields) "text" = VUndefined ->
  no_halt (assemble translations fc fcpt (VObj fields)) ->
  exists node l, render translations fc fcpt (VObj fields) = (Ok node, l).
Proof.
  intros T H. unfold render.
  assert (B : no_halt (result <- assemble translations fc fcpt (VObj fields) ;;
                       truncate result))
    by (apply no_halt_seq; [exact H | apply no_halt_truncate]).
  destruct (result <- assemble translations fc fcpt (VObj fields) ;;
            truncate result) as [[node | e | h] l].
  - now exists node, l.
  - simpl. rewrite (fallback_validated fields e T). now eexists _, _.
  - contradiction.
Qed.

End Rendering.

(** The budget of the renderer: more than the height of the component. *)
Lemma formatComponent_budget translations fuel :
  forall component,
    validated component -> height component < fuel ->
    no_halt (formatComponent translations fuel component) /\
    no_halt (formatComponentPlainText translations fuel component).
Proof.
  induction fuel as [| fuel IH]; intros component V H; [lia |].
  destruct (validated_object _ V) as (fields & ->).
  assert (A : no_halt (assemble translations
                         (formatComponent translations fuel)
                         (formatComponentPlainText translations fuel)
                         (VObj fields))).
  { apply no_halt_assemble with (n := fuel); [| | exact V | lia];
      intros x Vx Hx; now apply IH. }
  destruct (validated_shape _ V) as (_ & T & E & W & _).
  split.
  - cbn [formatComponent].
    destruct (render_returns translations _ _ fields T A) as (node & l & ->).
    exact I.
  - cbn [formatComponentPlainText].
    apply no_halt_plain_text with (n := fuel); [| | exact W | exact E | lia];
      intros x Vx Hx; now apply IH.
Qed.

(** C1.  [formatComponent] returns a node for every component that passed
    validation, given a budget above the height of the component.  Whatever
    is thrown while the node is assembled or cut to the limit is caught: the
    call then returns a text node with the [text] of the component (the empty
    string when there is none), cut to 4096 code units. *)
Theorem formatComponent_never_raises :
  forall translations component vfuel path fuel,
    assertIsComponent vfuel component path = (Ok tt, []) ->
    height component < fuel ->
    (exists node l,
       formatComponent translations fuel component = (Ok node, l)) /\
    (forall fc fcpt error l,
       (result <- assemble translations fc fcpt component ;; truncate result)
       = (Throw error, l) ->
       render translations fc fcpt component
       = (Ok (fallback_leaf component), l ++ [caught_error error]) /\
       String.length (textContent (fallback_leaf component))
       <= MAX_CHAT_LENGTH).
Proof.
  intros tr c vfuel path fuel V H.
  assert (V' : validated c) by (now exists vfuel, path, []).
  destruct (validated_object c V') as (fields & ->).
  destruct (validated_shape _ V') as (_ & T & _).
  split.
  - destruct fuel as [| fuel]; [lia |]. cbn [formatComponent].
    apply render_returns; [exact T |].
    apply no_halt_assemble with (n := fuel); [| | exact V' | lia];
      intros x Vx Hx; now apply formatComponent_budget.
  - intros fc fcpt error l E. split.
    + unfold render. rewrite E. simpl try_catch.
      now rewrite (fallback_validated fields error T).
    + apply length_substring_le.
Qed.

Lemma formatComponent_never_raises_witness :
  (exists node l,
     formatComponent example_translations 10 example_component = (Ok node, l)) /\
  (forall fc fcpt error l,
     (result <- assemble example_translations fc fcpt example_component ;;
      truncate result)
     = (Throw error, l) ->
     render example_translations fc fcpt example_component
     = (Ok (fallback_leaf example_component), l ++ [caught_error error]) /\
     String.length (textContent (fallback_leaf example_component))
     <= MAX_CHAT_LENGTH).
Proof.
  apply (formatComponent_never_raises example_translations example_component
           10 [] 10).
  - vm_compute. reflexivity.
  - apply Nat.ltb_lt. vm_compute. reflexivity.
Defined.

(** ** Scanning past a match *)

Lemma exec_from_skip (match_at : string -> option nat) skipped rest pos :
  exec_from match_at (String.length skipped) pos (skipped +++ rest)
  = exec_from match_at 0 (pos + String.length skipped) rest.
Proof.
  revert pos. induction skipped as [| c skipped IH]; intros pos; simpl.
  - now rewrite Nat.add_0_r.
  - rewrite IH. f_equal. lia.
Qed.

Lemma substring_0_prefix (a b : string) :
  substring 0 (String.length a) (a +++ b) = a.
Proof.
  rewrite <- (Nat.add_0_r (String.length a)), substring_0_app.
  now rewrite substring_empty, append_nil_r.
Qed.

(** ** The two token matchers *)

Lemma span_app (p : ascii -> bool) (a b : string) :
  string_forallb p a = true ->
  span p (a +++ b) = String.length a + span p b.
Proof.
  induction a as [| c a IH]; simpl; [reflexivity |].
  intros H. apply andb_true_iff in H. destruct H as [C H].
  now rewrite C, IH.
Qed.

Lemma numbered_at_hit ds rest :
  digits ds ->
  numbered_at (numbered_token ds +++ rest)
  = Some (String.length (numbered_token ds)).
Proof.
  intros [N D]. unfold numbered_token, numbered_at.
  rewrite !append_assoc. simpl strip_prefix. cbv iota beta.
  set (r := ds +++ String "$" (String "s" rest)).
  assert (S : span is_digit r = String.length ds).
  { unfold r. rewrite span_app by exact D. simpl. lia. }
  rewrite S.
  destruct (Nat.eqb_spec (String.length ds) 0) as [Z | _];
    [destruct ds; [contradiction | discriminate] |].
  fold (slice_from r (String.length ds)). rewrite slice_from_drop.
  unfold r. rewrite drop_app_length.
  assert (P : prefix "$s" (String "$" (String "s" rest)) = true)
    by (simpl; destruct rest; reflexivity).
  rewrite P, !length_append. simpl. f_equal; lia.
Qed.

Lemma group1_token pos ds :
  group1 {| index := pos; matched := numbered_token ds |} = ds.
Proof.
  unfold group1, numbered_token. cbn [matched].
  rewrite !length_append. simpl String.length.
  replace (1 + (String.length ds + 2) - 3) with (String.length ds) by lia.
  simpl. apply substring_0_prefix.
Qed.

Lemma simple_at_hit rest : simple_at ("%s" +++ rest) = Some 2.
Proof.
  unfold simple_at. cbn [append prefix].
  destruct (ascii_dec "%" "%"); [| contradiction].
  destruct (ascii_dec "s" "s"); [| contradiction].
  now destruct rest.
Qed.

(** ** The dispatch of [formatTranslation] *)

Lemma string_includes_app (p a b : string) :
  string_includes p (a +++ p +++ b) = true.
Proof.
  induction a as [| c a IH].
  - assert (P : prefix p (p +++ b) = true)
      by (apply prefix_strip; now exists b).
    simpl append. set (s := p +++ b) in *. clearbody s.
    destruct s; cbn [string_includes]; now rewrite P.
  - simpl append. cbn [string_includes]. rewrite IH.
    now destruct (prefix p (String c (a +++ p +++ b))).
Qed.

Lemma formatTranslation_template translations fc key template args :
  (key =? "") = false -> (key =? "%s") = false ->
  translations key = Some template -> template <> "" ->
  formatTranslation translations fc (VStr key) args
  = try_catch
      (if string_includes "$s" template
       then numberedSubstitution fc template args
       else simpleSubstitution fc template args)
      (translation_failed key).
Proof.
  intros K1 K2 T N. unfold formatTranslation.
  simpl truthy. simpl typeof. simpl ToString. rewrite K1, K2.
  cbn [negb andb]. change (to_string (VStr key)) with (ret key).
  rewrite bind_ret. unfold table_read. rewrite T.
  destruct template; [contradiction | reflexivity].
Qed.

(** C5, the counterexample: the template ["$s %s"] has no token [%N$s], and
    it is substituted as a numbered one: its [%s] stays, where sequential
    substitution puts the argument. *)
Lemma formatTranslation_dollar_template :
  exec_all numbered_at "$s %s" = [] /\
  (forall fc,
     formatTranslation example_translations fc (VStr "price")
       (VArr [VStr "a"])
     = (Ok [Text "$s %s"], [])) /\
  (forall fc,
     simpleSubstitution fc "$s %s" (VArr [VStr "a"])
     = (Ok [Text "$s "; Text "a"], [])).
Proof. repeat split. Qed.

(** * Further properties *)

(** ** The validator on any value *)

Lemma assertIsComponent_checks fuel component path :
  List.length path <= MAX_CHAT_DEPTH ->
  assertIsComponent (S fuel) component path
  = component_checks (assertIsComponent fuel) component path.
Proof. apply assertIsComponent_within. Qed.

(** Two runs of the checks, on two paths and with two callbacks, are related
    when the callbacks are. *)
Section Walk2.

Variable R : M unit -> M unit -> Prop.
Variables fc1 fc2 : value -> list string -> M unit.
Variables p1 p2 : list string.

Hypothesis R_ret : R (ret tt) (ret tt).
Hypothesis R_fail :
  forall message suffix,
    R (fail message (p1 ++ suffix)) (fail message (p2 ++ suffix)).
Hypothesis R_bind :
  forall m1 m2 (k1 k2 : unit -> M unit),
    R m1 m2 -> (forall a, R (k1 a) (k2 a)) -> R (bind m1 k1) (bind m2 k2).
Hypothesis R_call :
  forall x suffix,
    1 <= List.length suffix <= 3 ->
    R (fc1 x (p1 ++ suffix)) (fc2 x (p2 ++ suffix)).

Lemma R_fail_here message : R (fail message p1) (fail message p2).
Proof.
  pose proof (R_fail message []) as H. now rewrite !app_nil_r in H.
Qed.

Lemma R_when b message suffix :
  R (when b (fail message (p1 ++ suffix))) (when b (fail message (p2 ++ suffix))).
Proof. destruct b; [apply R_fail | apply R_ret]. Qed.

Lemma R_when_here b message :
  R (when b (fail message p1)) (when b (fail message p2)).
Proof. destruct b; [apply R_fail_here | apply R_ret]. Qed.

Lemma R_forEach_from (f1 f2 : value -> nat -> M unit) items :
  (forall x i, R (f1 x i) (f2 x i)) ->
  forall index, R (forEach_from index items f1) (forEach_from index items f2).
Proof.
  intros H. induction items as [| x items IH]; intros index; simpl.
  - apply R_ret.
  - apply R_bind; [apply H | intros _; apply IH].
Qed.

Lemma R_check_children component k message :
  R (check_children fc1 component k message p1)
    (check_children fc2 component k message p2).
Proof.
  unfold check_children.
  destruct (has k component); [| apply R_ret]. simpl when.
  destruct (field component k); try apply R_fail.
  apply R_forEach_from. intros x i.
  destruct (typeof x =? "string"); [apply R_ret |].
  apply R_call. simpl. lia.
Qed.

Ltac R_checks :=
  repeat (apply R_bind;
          [first [apply R_when_here | rewrite <- !app_assoc; apply R_when]
          | intros _]).

Lemma R_show_text hoverEvent :
  R (assertIsShowTextHoverEvent fc1 hoverEvent (p1 ++ ["hoverEvent"]))
    (assertIsShowTextHoverEvent fc2 hoverEvent (p2 ++ ["hoverEvent"])).
Proof.
  unfold assertIsShowTextHoverEvent.
  apply R_bind; [apply R_when | intros _].
  destruct (typeof _ =? "string"); [apply R_ret |].
  destruct (if has "contents" hoverEvent then _ else _);
    try (rewrite <- !app_assoc; apply R_call; simpl; lia).
  apply R_forEach_from. intros x i.
  destruct (typeof x =? "string"); [apply R_ret |].
  rewrite <- !app_assoc; apply R_call; simpl; lia.
Qed.

Lemma R_show_item hoverEvent :
  R (assertIsShowItemHoverEvent hoverEvent (p1 ++ ["hoverEvent"]))
    (assertIsShowItemHoverEvent hoverEvent (p2 ++ ["hoverEvent"])).
Proof.
  unfold assertIsShowItemHoverEvent.
  apply R_bind; [apply R_when | intros _].
  destruct (has "value" hoverEvent);
    [rewrite <- !app_assoc; apply R_when |].
  R_checks. rewrite <- !app_assoc; apply R_when.
Qed.

Lemma R_show_entity hoverEvent :
  R (assertIsShowEntityHoverEvent hoverEvent (p1 ++ ["hoverEvent"]))
    (assertIsShowEntityHoverEvent hoverEvent (p2 ++ ["hoverEvent"])).
Proof.
  unfold assertIsShowEntityHoverEvent.
  apply R_bind; [apply R_when | intros _].
  destruct (has "value" hoverEvent);
    [rewrite <- !app_assoc; apply R_when |].
  R_checks. rewrite <- !app_assoc; apply R_when.
Qed.

Lemma R_hover hoverEvent :
  R (assertIsHoverEvent fc1 hoverEvent (p1 ++ ["hoverEvent"]))
    (assertIsHoverEvent fc2 hoverEvent (p2 ++ ["hoverEvent"])).
Proof.
  unfold assertIsHoverEvent.
  do 2 (apply R_bind; [apply R_when | intros _]).
  do 2 (apply R_bind; [rewrite <- !app_assoc; apply R_when | intros _]).
  destruct (_ =? "show_text"); [apply R_show_text |].
  destruct (_ =? "show_item"); [apply R_show_item |].
  destruct (_ =? "show_entity"); [apply R_show_entity |].
  apply R_ret.
Qed.

Lemma R_checks_related component :
  R (component_checks fc1 component p1) (component_checks fc2 component p2).
Proof.
  unfold component_checks, check_field.
  do 2 (apply R_bind; [apply R_when_here | intros _]).
  do 8 (apply R_bind; [apply R_when | intros _]).
  do 2 (apply R_bind; [apply R_check_children | intros _]).
  destruct (has "hoverEvent" component); [| apply R_ret].
  apply R_hover.
Qed.

End Walk2.

Lemma reports_under_bind path (m : M unit) (k : unit -> M unit) :
  reports_under path m -> (forall a, reports_under path (k a)) ->
  reports_under path (bind m k).
Proof.
  intros [-> | (message & suffix & ->)] K.
  - rewrite bind_Ok, after_log_nil. apply K.
  - right. now exists message, suffix.
Qed.

Lemma reports_under_shorter path suffix m :
  reports_under (path ++ suffix) m -> reports_under path m.
Proof.
  intros [-> | (message & s & ->)]; [now left | right].
  exists message, (suffix ++ s). now rewrite app_assoc.
Qed.

Lemma assertIsComponent_reports fuel :
  forall component path,
    1 <= fuel -> 10 <= fuel + List.length path ->
    reports_under path (assertIsComponent fuel component path).
Proof.
  induction fuel as [| fuel IH]; intros component path F B; [lia |].
  destruct (Nat.ltb_spec MAX_CHAT_DEPTH (List.length path)) as [D | D].
  - rewrite assertIsComponent_too_deep by exact D.
    right. exists DEPTH_EXCEEDED, []. now rewrite app_nil_r.
  - rewrite assertIsComponent_checks by exact D.
    apply (R_checks_related (fun m _ => reports_under path m)
             (assertIsComponent fuel) (assertIsComponent fuel) path path).
    + now left.
    + intros message suffix. right. now exists message, suffix.
    + intros m1 _ k1 _ H1 H2. apply reports_under_bind; [exact H1 |].
      intros a. apply (H2 a).
    + intros x suffix L. apply reports_under_shorter with (suffix := suffix).
      unfold MAX_CHAT_DEPTH in D. apply IH; rewrite ?length_app; lia.
Qed.

(** X1.  On any value whatever, [assertIsComponent] ends with one of two
    outcomes: it returns, or it throws a [ComponentError] whose path extends
    the path it was given.  It throws nothing else and writes nothing to the
    console. *)
Theorem assertIsComponent_returns_or_reports :
  forall fuel component path,
    10 <= fuel ->
    assertIsComponent fuel component path = (Ok tt, []) \/
    exists message suffix,
      assertIsComponent fuel component path
      = (Throw (ComponentError message (path ++ suffix)), []).
Proof.
  intros fuel component path F.
  apply (assertIsComponent_reports fuel component path); lia.
Qed.

Lemma assertIsComponent_returns_or_reports_witness :
  (assertIsComponent 10 (VArr [VNum "5"]) ["extra"; "0"] = (Ok tt, []) \/
   exists message suffix,
     assertIsComponent 10 (VArr [VNum "5"]) ["extra"; "0"]
     = (Throw (ComponentError message (["extra"; "0"] ++ suffix)), [])) /\
  assertIsComponent 10 (VArr [VNum "5"]) ["extra"; "0"]
  = (Throw (ComponentError
              "Component does not have a text, translate, or extra property"
              ["extra"; "0"]), []).
Proof.
  split; [| reflexivity].
  apply (assertIsComponent_returns_or_reports 10 (VArr [VNum "5"]) ["extra"; "0"]).
  lia.
Defined.

(** *** Acceptance does not depend on where the walk stands *)

Lemma assertIsComponent_accepted_above fuel :
  forall component path l,
    assertIsComponent fuel component path = (Ok tt, l) ->
    forall fuel' path',
      List.length path' <= List.length path ->
      1 <= fuel' -> 10 <= fuel' + List.length path' ->
      assertIsComponent fuel' component path' = (Ok tt, []).
Proof.
  induction fuel as [| fuel IH]; intros component path l H fuel' path' L F B;
    [discriminate |].
  destruct (Nat.ltb_spec MAX_CHAT_DEPTH (List.length path)) as [D | D];
    [rewrite assertIsComponent_too_deep in H by exact D; discriminate |].
  rewrite assertIsComponent_checks in H by exact D.
  destruct fuel' as [| fuel']; [lia |].
  unfold MAX_CHAT_DEPTH in D.
  rewrite assertIsComponent_checks by (unfold MAX_CHAT_DEPTH; lia).
  revert l H.
  apply (R_checks_related
           (fun m1 m2 => forall l0, m1 = (Ok tt, l0) -> m2 = (Ok tt, []))).
  - reflexivity.
  - discriminate.
  - intros m1 m2 k1 k2 H1 H2 l0 E. apply seq_Ok in E.
    destruct E as [(l1 & E1) (l2 & E2)].
    rewrite (H1 l1 E1), bind_Ok, after_log_nil. exact (H2 tt l2 E2).
  - intros x suffix S l0 E.
    apply (IH x (path ++ suffix) l0 E); rewrite ?length_app; lia.
Qed.

Lemma validated_accepted component : validated component -> accepted component.
Proof.
  intros (fuel & path & l & H).
  apply (assertIsComponent_accepted_above fuel component path l H);
    simpl; lia.
Qed.

Lemma accepted_validated component : accepted component -> validated component.
Proof. intros H. now exists 10, [], []. Qed.

Lemma entry_ok_accepted items i x :
  Forall entry_ok items -> nth_error items i = Some x ->
  (typeof x =? "string") = false -> accepted x.
Proof.
  intros E N T. rewrite Forall_forall in E.
  destruct (E x (nth_error_In _ _ N)) as [S | V]; [congruence |].
  now apply validated_accepted.
Qed.

Lemma node_at_accepted component path part :
  node_at component path part -> accepted component -> accepted part.
Proof.
  induction 1 as [c | c k items i x p d K F N T R IH
                  | c x p d A C T NA R IH
                  | c items i x p d A C N T R IH]; intros H.
  - exact H.
  - apply IH.
    destruct (validated_shape c (accepted_validated c H))
      as (_ & _ & E & W & _).
    assert (O : children_ok (field c k)) by (now destruct K as [-> | ->]).
    destruct O as [O | (items' & O & Q)]; [congruence |].
    rewrite F in O. inversion O; subst items'.
    now apply (entry_ok_accepted items i x).
  - apply IH. subst x.
    destruct (validated_shape c (accepted_validated c H))
      as (_ & _ & _ & _ & [U | O]).
    { rewrite U in A. cbv in A. discriminate A. }
    destruct (O A) as [[S | [(items & I & _) | [_ V]]] _].
    + congruence.
    + rewrite I in NA. discriminate NA.
    + now apply validated_accepted.
  - apply IH.
    destruct (validated_shape c (accepted_validated c H))
      as (_ & _ & _ & _ & [U | O]).
    { rewrite U in A. cbv in A. discriminate A. }
    destruct (O A) as [[S | [(items' & I & Q) | [NA _]]] _].
    + rewrite C in S. discriminate S.
    + rewrite C in I. inversion I; subst items'.
      now apply (entry_ok_accepted items i x).
    + rewrite C in NA. discriminate NA.
Qed.

(** X2.  A component that [assertIsComponent] accepts, on whatever path, is
    accepted at the root, and so is every part of it that the walk reaches:
    the entries of [extra] and [with] that are not strings and the contents
    of [show_text] tooltips, at any depth.  The path of such a part, added to
    the path of the component, has at most eight entries. *)
Theorem assertIsComponent_accepts_parts :
  forall fuel component path l suffix part,
    assertIsComponent fuel component path = (Ok tt, l) ->
    node_at component suffix part ->
    assertIsComponent 10 part [] = (Ok tt, []) /\
    List.length path + List.length suffix <= MAX_CHAT_DEPTH.
Proof.
  intros fuel component path l suffix part H N. split.
  - apply (node_at_accepted component suffix part N).
    apply validated_accepted. now exists fuel, path, l.
  - destruct (Nat.le_gt_cases (List.length path + List.length suffix)
                MAX_CHAT_DEPTH) as [L | L]; [exact L | exfalso].
    assert (E : assertIsComponent 10 component path = (Ok tt, []))
      by (apply (assertIsComponent_accepted_above fuel component path l H);
          lia).
    destruct (node_at_throws component suffix part N 10 path) as (e & T);
      try lia.
    rewrite T in E. discriminate.
Qed.

Lemma assertIsComponent_accepts_parts_witness :
  assertIsComponent 9 (nested 3) ["extra"; "0"] = (Ok tt, []) /\
  node_at (nested 3) ["extra"; "0"; "extra"; "0"] (nested 1) /\
  assertIsComponent 10 (nested 1) [] = (Ok tt, []) /\
  2 + 4 <= MAX_CHAT_DEPTH.
Proof.
  assert (H : assertIsComponent 9 (nested 3) ["extra"; "0"] = (Ok tt, []))
    by reflexivity.
  assert (N : node_at (nested 3) ["extra"; "0"; "extra"; "0"] (nested 1))
    by (do 2 apply node_at_nested; apply node_here).
  split; [exact H | split; [exact N |]].
  exact (assertIsComponent_accepts_parts 9 (nested 3) ["extra"; "0"] []
           ["extra"; "0"; "extra"; "0"] (nested 1) H N).
Defined.

(** *** What the renderer may rely on *)

Lemma check_field_Ok component k ty message path l :
  check_field component k ty message path = (Ok tt, l) ->
  has k component = true -> typeof (field component k) = ty.
Proof.
  intros H P. apply when_fail_Ok in H. rewrite P in H. simpl in H.
  apply negb_false_iff, String.eqb_eq in H. exact H.
Qed.

Lemma check_children_Ok fuel component k message path l :
  check_children (assertIsComponent fuel) component k message path
  = (Ok tt, l) ->
  has k component = true ->
  exists items,
    field component k = VArr items /\
    Forall (fun x => typeof x = "string" \/ accepted x) items.
Proof.
  unfold check_children. intros H P. rewrite P in H. simpl in H.
  destruct (field component k) as [| | b | n | s | items | fs];
    try discriminate.
  exists items. split; [reflexivity |].
  apply (entries_validated fuel path
           (fun index => [k; nat_toString index]) items l) in H.
  eapply Forall_impl; [| exact H].
  intros x [S | V]; [left; now apply String.eqb_eq | right].
  now apply validated_accepted.
Qed.

Lemma assertIsHoverEvent_Ok fc hoverEvent path l :
  assertIsHoverEvent fc hoverEvent path = (Ok tt, l) ->
  (exists fields, hoverEvent = VObj fields) /\
  exists action,
    field hoverEvent "action" = VStr action /\ In action VALID_HOVER_EVENTS.
Proof.
  unfold assertIsHoverEvent. intros H.
  apply seq_Ok in H. destruct H as [(? & O) (? & H)].
  apply seq_Ok in H. destruct H as [(? & P) (? & H)].
  apply seq_Ok in H. destruct H as [(? & S) (? & H)].
  apply seq_Ok in H. destruct H as [(? & V) _].
  apply when_fail_Ok in O, P, S, V.
  apply negb_false_iff in P, S, V.
  split.
  - destruct hoverEvent; try discriminate P. now eexists.
  - apply string_value in S. apply includes_In in V.
    now exists (ToString (field hoverEvent "action")).
Qed.

(** X3.  What acceptance establishes.  An accepted component is an object
    with at least one of [text], [translate] and [extra]; [text],
    [translate] and [color], where present, are strings and the five style
    flags booleans; [extra] and [with], where present, are arrays whose
    entries are strings or accepted components; and [hoverEvent], where
    present, is an object whose [action] is one of the three known ones. *)
Theorem assertIsComponent_accepts_typed :
  forall fuel component path l,
    assertIsComponent fuel component path = (Ok tt, l) ->
    (exists fields, component = VObj fields) /\
    (has "text" component || has "translate" component
     || has "extra" component = true) /\
    (forall k, In k ["text"; "translate"; "color"] ->
               has k component = true ->
               typeof (field component k) = "string") /\
    (forall k, In k ["bold"; "italic"; "underlined"; "strikethrough";
                     "obfuscated"] ->
               has k component = true ->
               typeof (field component k) = "boolean") /\
    (forall k, In k ["extra"; "with"] ->
               has k component = true ->
               exists items,
                 field component k = VArr items /\
                 Forall (fun x =>
                           typeof x = "string" \/
                           assertIsComponent 10 x [] = (Ok tt, [])) items) /\
    (has "hoverEvent" component = true ->
     (exists fields, field component "hoverEvent" = VObj fields) /\
     exists action,
       field (field component "hoverEvent") "action" = VStr action /\
       In action VALID_HOVER_EVENTS).
Proof.
  intros fuel component path l H.
  destruct fuel as [| fuel]; [discriminate |].
  destruct (Nat.ltb_spec MAX_CHAT_DEPTH (List.length path)) as [D | D];
    [rewrite assertIsComponent_too_deep in H by exact D; discriminate |].
  rewrite assertIsComponent_checks in H by exact D.
  unfold component_checks in H.
  apply seq_Ok in H. destruct H as [(? & O) (? & H)].
  apply seq_Ok in H. destruct H as [(? & P) (? & H)].
  apply seq_Ok in H. destruct H as [(? & F1) (? & H)].
  apply seq_Ok in H. destruct H as [(? & F2) (? & H)].
  apply seq_Ok in H. destruct H as [(? & F3) (? & H)].
  apply seq_Ok in H. destruct H as [(? & F4) (? & H)].
  apply seq_Ok in H. destruct H as [(? & F5) (? & H)].
  apply seq_Ok in H. destruct H as [(? & F6) (? & H)].
  apply seq_Ok in H. destruct H as [(? & F7) (? & H)].
  apply seq_Ok in H. destruct H as [(? & F8) (? & H)].
  apply seq_Ok in H. destruct H as [(? & E) (? & H)].
  apply seq_Ok in H. destruct H as [(? & W) (? & H)].
  apply when_fail_Ok in O, P.
  split; [| split; [| split; [| split; [| split]]]].
  - destruct component; unfold has in P; simpl in O, P; try discriminate.
    now eexists.
  - destruct (has "text" component), (has "translate" component),
      (has "extra" component); try reflexivity. discriminate P.
  - intros k [<- | [<- | [<- | []]]] K;
      eapply check_field_Ok; eassumption.
  - intros k [<- | [<- | [<- | [<- | [<- | []]]]]] K;
      eapply check_field_Ok; eassumption.
  - intros k [<- | [<- | []]] K;
      eapply check_children_Ok; eassumption.
  - intros K. rewrite K in H. simpl in H.
    now apply assertIsHoverEvent_Ok in H.
Qed.

Lemma assertIsComponent_accepts_typed_witness :
  assertIsComponent 10 example_component [] = (Ok tt, []) /\
  typeof (field example_component "color") = "string" /\
  typeof (field example_component "bold") = "boolean".
Proof.
  assert (H : assertIsComponent 10 example_component [] = (Ok tt, []))
    by reflexivity.
  split; [exact H |].
  destruct (assertIsComponent_accepts_typed 10 example_component [] [] H)
    as (_ & _ & S & B & _).
  split; [apply S | apply B]; simpl; tauto.
Defined.

(** X4.  The legacy form of an item or entity tooltip.  A [show_item] or
    [show_entity] event whose [value] is a string is accepted without a
    look at [contents]: whatever [contents] holds, nothing is checked in
    it. *)
Theorem assertIsHoverEvent_legacy_value :
  forall fc hoverEvent path action,
    field hoverEvent "action" = VStr action ->
    action = "show_item" \/ action = "show_entity" ->
    typeof (field hoverEvent "value") = "string" ->
    assertIsHoverEvent fc hoverEvent path = (Ok tt, []).
Proof.
  intros fc hoverEvent path action A K V.
  destruct (field_present hoverEvent "action") as [PA (fs & ->)];
    [rewrite A; discriminate |].
  destruct (field_present (VObj fs) "value") as [PV _].
  { intros U. rewrite U in V. discriminate V. }
  unfold assertIsHoverEvent. rewrite A, PA.
  destruct K as [-> | ->]; simpl;
    [unfold assertIsShowItemHoverEvent
    | unfold assertIsShowEntityHoverEvent];
    rewrite PV, V, andb_false_r; reflexivity.
Qed.

Lemma assertIsHoverEvent_legacy_value_witness :
  assertIsComponent 10
    (VObj [("text", VStr "sword");
           ("hoverEvent",
            VObj [("action", VStr "show_item"); ("value", VStr "{id:1}");
                  ("contents", VNum "5")])]) []
  = (Ok tt, []) /\
  assertIsHoverEvent (assertIsComponent 9)
    (VObj [("action", VStr "show_item"); ("value", VStr "{id:1}");
           ("contents", VNum "5")]) ["hoverEvent"]
  = (Ok tt, []).
Proof.
  split; [reflexivity |].
  apply (assertIsHoverEvent_legacy_value (assertIsComponent 9)
           (VObj [("action", VStr "show_item"); ("value", VStr "{id:1}");
                  ("contents", VNum "5")]) ["hoverEvent"] "show_item");
    [reflexivity | now left | reflexivity].
Defined.

(** ** The renderer on any value *)

Lemma textContent_set_textContent data node :
  textContent (set_textContent data node) = data.
Proof.
  destruct node as [d | tag a cs]; [reflexivity |]. simpl.
  destruct data; reflexivity.
Qed.

Lemma truncate_Ok result node l :
  truncate result = (Ok node, l) ->
  String.length (textContent node) <= MAX_CHAT_LENGTH.
Proof.
  unfold truncate.
  destruct (negb (textContent result =? "")) eqn:E;
    destruct (MAX_CHAT_LENGTH <? String.length (textContent result))%nat eqn:L;
    cbn [andb]; intros H.
  - inv_bind H. inv_ret H. rewrite textContent_set_textContent.
    unfold slice. apply length_substring_le.
  - inv_ret H. now apply Nat.ltb_ge in L.
  - inv_ret H. apply negb_false_iff, String.eqb_eq in E. rewrite E.
    apply Nat.le_0_l.
  - inv_ret H. now apply Nat.ltb_ge in L.
Qed.

Lemma fallback_Ok component error node l :
  fallback component error = (Ok node, l) ->
  exists s, node = Text (slice s 0 MAX_CHAT_LENGTH).
Proof.
  unfold fallback. intros H. inv_bind H. inv_bind H. inv_bind H. inv_ret H.
  now eexists.
Qed.

Lemma try_catch_Ok {A} (m : M A) (handler : exn -> M A) a l :
  try_catch m handler = (Ok a, l) ->
  m = (Ok a, l) \/
  exists e l1 l2, m = (Throw e, l1) /\ handler e = (Ok a, l2) /\ l = l1 ++ l2.
Proof.
  destruct m as [[x | e | h] l1]; simpl; intros H.
  - now left.
  - right. destruct (handler e) as [r l2] eqn:E. inversion H; subst.
    now exists e, l1, l2.
  - discriminate.
Qed.

(** X5.  The length limit holds of every node [formatComponent] returns,
    whatever the component and whichever way the call went: the text of the
    node has at most 4096 code units. *)
Theorem formatComponent_within_limit :
  forall translations fuel component node l,
    formatComponent translations fuel component = (Ok node, l) ->
    String.length (textContent node) <= MAX_CHAT_LENGTH.
Proof.
  intros tr [| fuel] component node l H; [discriminate |].
  simpl in H. unfold render in H. apply try_catch_Ok in H.
  destruct H as [H | (e & l1 & l2 & _ & H & _)].
  - inv_bind H. now apply truncate_Ok in H.
  - apply fallback_Ok in H. destruct H as (s & ->). simpl.
    unfold slice. apply length_substring_le.
Qed.

Lemma formatComponent_within_limit_witness :
  exists node l,
    formatComponent example_translations 1 long_component = (Ok node, l) /\
    String.length (textContent node) <= MAX_CHAT_LENGTH.
Proof.
  eexists. eexists. split; [reflexivity |].
  eapply (formatComponent_within_limit example_translations 1 long_component).
  reflexivity.
Defined.

Lemma get_text component :
  nullish component = false ->
  get component "text" = ret (field component "text").
Proof. destruct component; try discriminate; reflexivity. Qed.

Lemma fallback_returns component error :
  nullish component = false ->
  convertible (coalesce (field component "text") (VStr "")) = true ->
  exists node l, fallback component error = (Ok node, l).
Proof.
  intros N C. unfold fallback. rewrite (get_text component N).
  rewrite bind_ret, (to_string_convertible _ C), bind_ret.
  now eexists _, _.
Qed.

Lemma fallback_throws component error :
  nullish component = false ->
  convertible (coalesce (field component "text") (VStr "")) = false ->
  exists e l, fallback component error = (Throw e, l).
Proof.
  intros N C. unfold fallback. rewrite (get_text component N).
  rewrite bind_ret. unfold to_string. rewrite C.
  now eexists _, _.
Qed.

(** X6.  [formatComponent] throws exactly in two cases.  On [null] and
    [undefined] the read of [color] fails, and so does the read of [text]
    that the [catch] block makes.  On another value it throws when the [try]
    block throws and the [text] of the component cannot be converted to a
    string: it is an object with a property [toString], or an array that
    holds one.  So nothing is thrown to the caller for a component whose
    [text] is absent, a string, a number or a boolean. *)
Theorem formatComponent_throws_iff :
  forall translations fuel component,
    ((exists error l,
        formatComponent translations (S fuel) component = (Throw error, l)) <->
     nullish component = true \/
     (convertible (coalesce (field component "text") (VStr "")) = false /\
      exists error l,
        (result <- assemble translations (formatComponent translations fuel)
                     (formatComponentPlainText translations fuel) component ;;
         truncate result)
        = (Throw error, l))) /\
    (exists error l,
       formatComponent translations (S fuel)
         (VObj [("color", VNum "5"); ("text", VObj [("toString", VNum "1")])])
       = (Throw error, l)).
Proof.
  intros tr fuel component. split; [split |].
  - intros (error & l & H). destruct (nullish component) eqn:N;
      [now left | right].
    simpl in H. unfold render in H.
    destruct (bind _ _) as [[x | e | h] l1] eqn:B in H; simpl in H;
      try discriminate.
    destruct (convertible (coalesce (field component "text") (VStr "")))
      eqn:C.
    + destruct (fallback_returns component e N C) as (node & l2 & F).
      rewrite F in H. discriminate.
    + split; [reflexivity | now exists e, l1].
  - intros [N | (C & e & l1 & B)].
    + destruct component; try discriminate N; simpl; now eexists _, _.
    + destruct (nullish component) eqn:N.
      * destruct component; try discriminate N; simpl; now eexists _, _.
      * simpl. unfold render. rewrite B. simpl.
        destruct (fallback_throws component e N C) as (e' & l2 & ->).
        now eexists _, _.
  - now eexists _, _.
Qed.

(** *** Only texts, spans and links *)

Lemma linkifyText_well_linked text :
  String.concat "" (map textContent (linkifyText text)) = text /\
  well_linked (linkifyText text).
Proof.
  unfold linkifyText.
  destruct (linkify_loop_spec text (exec_all url_at text) 0
              (exec_all_chain url_at text url_at_sound) (Nat.le_0_l _) [])
    as (fragments & E1 & E2 & E3 & _).
  rewrite E1. simpl app. now split.
Qed.

Lemma well_linked_safe nodes : well_linked nodes -> Forall safe nodes.
Proof.
  induction 1; constructor; try assumption; now constructor.
Qed.

Lemma safe_createElement : safe (createElement "span").
Proof. now constructor. Qed.

Lemma safe_classList_add token node :
  String.prefix "mc-" token = true -> is_span node -> safe node ->
  safe (classList_add token node).
Proof.
  intros P (a & cs & ->) S. inversion S; subst. simpl.
  constructor; simpl; try assumption.
  destruct (includes (classList a) token); [assumption |].
  apply Forall_app. split; [assumption | now constructor].
Qed.

Lemma safe_set_style_color c node :
  hex_pattern c -> is_span node -> safe node -> safe (set_style_color c node).
Proof.
  intros P (a & cs & ->) S. inversion S; subst. simpl.
  now constructor.
Qed.

Lemma safe_set_title t node :
  is_span node -> safe node -> safe (set_title t node).
Proof.
  intros (a & cs & ->) S. inversion S; subst. simpl. now constructor.
Qed.

Lemma safe_appendChildren nodes node :
  Forall safe nodes -> is_span node -> safe node ->
  safe (appendChildren nodes node).
Proof.
  unfold appendChildren. revert node.
  induction nodes as [| n nodes IH]; intros node F I S; simpl; [exact S |].
  inversion F; subst.
  apply IH; [assumption | now apply is_span_appendChild |].
  destruct I as (a & cs & ->). inversion S; subst. simpl.
  constructor; try assumption.
  apply Forall_app. split; [assumption | now constructor].
Qed.

Lemma safe_set_textContent data node :
  is_span node -> safe node -> safe (set_textContent data node).
Proof.
  intros (a & cs & ->) S. inversion S; subst. simpl.
  constructor; try assumption.
  destruct (data =? ""); repeat constructor.
Qed.

Lemma valid_hash_hex c :
  isValidColor c = true -> startsWith "#" c = true -> hex_pattern c.
Proof.
  unfold isValidColor, startsWith. intros V P.
  destruct c as [| a c]; [discriminate |].
  cbn [prefix] in P.
  destruct (ascii_dec "#" a) as [<- |]; [| discriminate P].
  replace (String "#" c =? "") with false in V by reflexivity.
  replace (includes VALID_COLORS (toLowerCase (String "#" c))) with false in V
    by reflexivity.
  rewrite is_hex_color_toLowerCase in V. now apply is_hex_color_pattern.
Qed.

Lemma prefix_mc (s : string) : String.prefix "mc-" ("mc-" +++ s) = true.
Proof. simpl. now destruct s. Qed.

Section SafeRenderer.

Variable translations : string -> option string.
Variable fc : value -> M Node.
Variable fcpt : value -> M string.
Hypothesis fc_safe : forall c node l, fc c = (Ok node, l) -> safe node.

Lemma apply_color_safe component result r l :
  apply_color component result = (Ok r, l) ->
  is_span result -> safe result -> safe r.
Proof.
  unfold apply_color; intros H I S. inv_bind H.
  destruct (truthy a); [| now inv_ret H].
  destruct a; try discriminate.
  destruct (isValidColor s) eqn:V; cbn [negb] in H.
  - destruct (startsWith "#" s) eqn:P; inv_ret H.
    + apply safe_set_style_color; try assumption. now apply valid_hash_hex.
    + apply safe_classList_add; try assumption. apply prefix_mc.
  - inv_bind H. now inv_ret H.
Qed.

Lemma apply_flag_safe component flag result r l :
  apply_flag component flag result = (Ok r, l) ->
  is_span result -> safe result -> safe r.
Proof.
  unfold apply_flag; intros H I S. inv_bind H. inv_ret H.
  destruct a; [| exact S].
  apply safe_classList_add; try assumption. apply prefix_mc.
Qed.

Lemma apply_hover_safe component result r l :
  apply_hover fcpt component result = (Ok r, l) ->
  is_span result -> safe result -> safe r.
Proof.
  unfold apply_hover; intros H I S. inv_bind H.
  destruct (truthy a); [| now inv_ret H].
  inv_bind H. inv_bind H. inv_ret H. now apply safe_set_title.
Qed.

Lemma mapM_safe (f : value -> M Node) items nodes l :
  (forall x node l', f x = (Ok node, l') -> safe node) ->
  mapM f items = (Ok nodes, l) -> Forall safe nodes.
Proof.
  intros F. revert nodes l.
  induction items as [| x items IH]; intros nodes l H; simpl in H.
  - inv_ret H. constructor.
  - inv_bind H. inv_bind H. inv_ret H.
    constructor; [now apply (F x a l0) | now apply (IH a0 l2)].
Qed.

Lemma entry_node_safe x node l :
  (if typeof x =? "string" then ret (createTextNode (ToString x)) else fc x)
  = (Ok node, l) ->
  safe node.
Proof.
  destruct (typeof x =? "string"); intros H.
  - inv_ret H. constructor.
  - now apply (fc_safe x node l).
Qed.

Lemma array_map_safe a nodes l :
  array_map a (fun x =>
    if typeof x =? "string" then ret (createTextNode (ToString x)) else fc x)
  = (Ok nodes, l) ->
  Forall safe nodes.
Proof.
  destruct a; try discriminate. simpl.
  apply mapM_safe. intros x node l'. apply entry_node_safe.
Qed.

Lemma substitute_safe v missing node l :
  (forall n l', missing = (Ok n, l') -> safe n) ->
  substitute fc v missing = (Ok node, l) -> safe node.
Proof.
  unfold substitute. intros M H.
  destruct (negb (truthy v)); [now apply (M node l) |].
  now apply entry_node_safe in H.
Qed.

Lemma missing_argument_safe index template token node l :
  missing_argument index template token = (Ok node, l) -> safe node.
Proof. unfold missing_argument. intros H. inv_bind H. inv_ret H. constructor. Qed.

Lemma text_before_safe s lastIndex m : Forall safe (text_before s lastIndex m).
Proof. unfold text_before. destruct (_ <? _)%nat; repeat constructor. Qed.

Lemma text_after_safe s lastIndex : Forall safe (text_after s lastIndex).
Proof. unfold text_after. destruct (_ <? _)%nat; repeat constructor. Qed.

Lemma numbered_loop_safe template args matches :
  forall lastIndex result nodes l,
    Forall safe result ->
    numbered_loop fc template args matches lastIndex result = (Ok nodes, l) ->
    Forall safe nodes.
Proof.
  induction matches as [| m rest IH]; intros lastIndex result nodes l R H;
    cbn [numbered_loop] in H.
  - inv_ret H. apply Forall_app. split; [exact R | apply text_after_safe].
  - inv_bind H. inv_bind H. apply (IH _ _ _ _) in H; [exact H |].
    apply Forall_app. split.
    + apply Forall_app. split; [exact R | apply text_before_safe].
    + constructor; [| constructor].
      eapply substitute_safe; [| exact H1].
      intros n l'. apply missing_argument_safe.
Qed.

Lemma simple_loop_safe template args matches :
  forall lastIndex index result nodes l,
    Forall safe result ->
    simple_loop fc template args matches lastIndex index result
    = (Ok nodes, l) ->
    Forall safe nodes.
Proof.
  induction matches as [| m rest IH];
    intros lastIndex index result nodes l R H; cbn [simple_loop] in H.
  - inv_ret H. apply Forall_app. split; [exact R | apply text_after_safe].
  - inv_bind H. inv_bind H. apply (IH _ _ _ _ _) in H; [exact H |].
    apply Forall_app. split.
    + apply Forall_app. split; [exact R | apply text_before_safe].
    + constructor; [| constructor].
      eapply substitute_safe; [| exact H1].
      intros n l'. apply missing_argument_safe.
Qed.

Lemma formatTranslation_safe key args nodes l :
  formatTranslation translations fc key args = (Ok nodes, l) ->
  Forall safe nodes.
Proof.
  unfold formatTranslation. intros H.
  destruct (negb (truthy key)).
  { inv_bind H. inv_ret H. repeat constructor. }
  destruct (_ && _).
  { inv_bind H. destruct (is_zero a).
    - inv_bind H. inv_ret H. repeat constructor.
    - now apply array_map_safe in H. }
  inv_bind H.
  assert (K : forall e n l',
             (console_error
                [LStr ("Error formatting translation for key: " +++ a);
                 LExn e] ;;
              ret [createTextNode a]) = (Ok n, l') ->
             Forall safe n).
  { intros e n l' E'. inv_bind E'. inv_ret E'. repeat constructor. }
  destruct (table_read translations a) as [| template |].
  - inv_bind H. inv_ret H. repeat constructor.
  - destruct template as [| c template].
    + inv_bind H. inv_ret H. repeat constructor.
    + apply try_catch_Ok in H.
      destruct H as [H | (e & ? & ? & _ & H & _)]; [| now apply K in H].
      destruct (string_includes "$s" _).
      * apply numbered_loop_safe in H; [exact H | constructor].
      * apply simple_loop_safe in H; [exact H | constructor].
  - apply try_catch_Ok in H.
    destruct H as [H | (e & ? & ? & _ & H & _)]; [discriminate |].
    now apply K in H.
Qed.

Lemma linkify_value_loop_safe text s matches :
  forall from,
    scan_chain url_at s from matches ->
    forall result nodes l,
      Forall safe result ->
      linkify_value_loop text matches from result = (Ok nodes, l) ->
      Forall safe nodes.
Proof.
  intros from C.
  induction C as [from G | from m rest H1 G M E P B C IH];
    intros result nodes l R H; cbn [linkify_value_loop] in H.
  - inv_bind H. destruct a.
    + inv_bind H. inv_ret H.
      apply Forall_app; split; [exact R | repeat constructor].
    + now inv_ret H.
  - inv_bind H. apply (IH _ _ _) in H; [exact H |].
    apply Forall_app. split.
    + destruct (from <? index m)%nat.
      * inv_bind H0. inv_ret H0.
        apply Forall_app; split; [exact R | repeat constructor].
      * now inv_ret H0.
    + constructor; [| constructor]. apply safe_link.
      rewrite E. now apply url_at_Some.
Qed.

Lemma linkifyValue_safe text nodes l :
  linkifyValue text = (Ok nodes, l) -> Forall safe nodes.
Proof.
  unfold linkifyValue. intros H. inv_bind H.
  eapply linkify_value_loop_safe;
    [apply exec_all_chain, url_at_sound | constructor | exact H].
Qed.

Lemma apply_content_safe component result r l :
  apply_content translations fc component result = (Ok r, l) ->
  is_span result -> safe result -> safe r.
Proof.
  unfold apply_content; intros H I S. inv_bind H.
  destruct (truthy a).
  - destruct a;
      try (inv_bind H; inv_ret H; apply safe_appendChildren; try assumption;
           eapply linkifyValue_safe; eassumption).
    inv_ret H.
    apply safe_appendChildren; try assumption.
    apply well_linked_safe, linkifyText_well_linked.
  - inv_bind H. destruct (truthy a0); [| now inv_ret H].
    inv_bind H. inv_bind H. inv_ret H.
    apply safe_appendChildren; try assumption.
    now apply formatTranslation_safe in H3.
Qed.

Lemma apply_extra_safe component result r l :
  apply_extra fc component result = (Ok r, l) ->
  is_span result -> safe result -> safe r.
Proof.
  unfold apply_extra; intros H I S. inv_bind H.
  destruct (truthy a); [| now inv_ret H].
  inv_bind H. inv_ret H.
  apply safe_appendChildren; try assumption.
  now apply array_map_safe in H1.
Qed.

Lemma assemble_safe component node l :
  assemble translations fc fcpt component = (Ok node, l) -> safe node.
Proof.
  unfold assemble; intros H.
  assert (I0 : is_span (createElement "span"))
    by (now exists no_attributes, []).
  pose proof safe_createElement as S0.
  inv_bind H. pose proof (apply_color_span _ _ _ _ H0 I0) as I1.
  apply apply_color_safe in H0; [| exact I0 | exact S0].
  inv_bind H. pose proof (apply_flag_span _ _ _ _ _ H1 I1) as I2.
  apply apply_flag_safe in H1; [| exact I1 | exact H0].
  inv_bind H. pose proof (apply_flag_span _ _ _ _ _ H2 I2) as I3.
  apply apply_flag_safe in H2; [| exact I2 | exact H1].
  inv_bind H. pose proof (apply_flag_span _ _ _ _ _ H3 I3) as I4.
  apply apply_flag_safe in H3; [| exact I3 | exact H2].
  inv_bind H. pose proof (apply_flag_span _ _ _ _ _ H4 I4) as I5.
  apply apply_flag_safe in H4; [| exact I4 | exact H3].
  inv_bind H. pose proof (apply_flag_span _ _ _ _ _ H5 I5) as I6.
  apply apply_flag_safe in H5; [| exact I5 | exact H4].
  inv_bind H. pose proof (apply_hover_span fcpt _ _ _ _ H6 I6) as I7.
  apply apply_hover_safe in H6; [| exact I6 | exact H5].
  inv_bind H.
  pose proof (apply_content_span translations fc _ _ _ _ H7 I7) as I8.
  apply apply_content_safe in H7; [| exact I7 | exact H6].
  apply apply_extra_safe in H; [exact H | exact I8 | exact H7].
Qed.

Lemma render_safe component node l :
  render translations fc fcpt component = (Ok node, l) -> safe node.
Proof.
  unfold render. intros H. apply try_catch_Ok in H.
  destruct H as [H | (e & l1 & l2 & _ & H & _)].
  - inv_bind H.
    pose proof (assemble_span translations fc fcpt _ _ _ H0) as I.
    apply assemble_safe in H0.
    unfold truncate in H. destruct (_ && _).
    + inv_bind H. inv_ret H. now apply safe_set_textContent.
    + now inv_ret H.
  - apply fallback_Ok in H. destruct H as (s & ->). constructor.
Qed.

End SafeRenderer.

Lemma formatComponent_safe translations fuel :
  forall component node l,
    formatComponent translations fuel component = (Ok node, l) -> safe node.
Proof.
  induction fuel as [| fuel IH]; intros component node l H; [discriminate |].
  simpl in H. now apply render_safe in H.
Qed.

(** X7.  Whatever the component, a node [formatComponent] returns is made
    of texts, [span] elements and links only.  A span carries no destination,
    classes that all begin with [mc-], and no colour other than [#] and six
    hexadecimal digits; a link is the anchor [linkifyText] builds, for a URL
    that begins with [http://] or [https://].  This holds of the children at
    every depth. *)
Theorem formatComponent_builds_safe_nodes :
  forall translations fuel component node l,
    formatComponent translations fuel component = (Ok node, l) ->
    safe node.
Proof.
  intros translations fuel. apply formatComponent_safe.
Qed.

Lemma formatComponent_builds_safe_nodes_witness :
  exists node l,
    formatComponent example_translations 10 example_component = (Ok node, l) /\
    safe node.
Proof.
  eexists. eexists. split; [reflexivity |].
  eapply (formatComponent_builds_safe_nodes example_translations 10
            example_component).
  reflexivity.
Defined.

(** *** The classes and the colour of the span *)

Lemma same_style_refl r : same_style r r.
Proof. now split. Qed.

Lemma same_style_with_attributes f r :
  (forall a, classList (f a) = classList a /\ style_color (f a) = style_color a) ->
  same_style r (with_attributes f r).
Proof. intros H. destruct r as [d | tag a cs]; [now split | apply H]. Qed.

Lemma same_style_appendChildren nodes r :
  same_style r (appendChildren nodes r).
Proof.
  unfold appendChildren. revert r.
  induction nodes as [| n nodes IH]; intros r; simpl; [now split |].
  destruct (IH (appendChild n r)) as [E1 E2]. split.
  - rewrite E1. now destruct r.
  - rewrite E2. now destruct r.
Qed.

Lemma same_style_set_textContent data r :
  same_style r (set_textContent data r).
Proof. destruct r; now split. Qed.

Lemma classList_add_In token r t :
  In t (classList (attributes_of (classList_add token r))) <->
  In t (classList (attributes_of r)) \/ (is_span r /\ t = token)
  \/ (exists tag a cs, r = Element tag a cs /\ t = token).
Proof.
  destruct r as [d | tag a cs]; simpl.
  - split; [tauto |]. intros [[] | [[(a & cs & E) _] | (tag & a & cs & E & _)]];
      discriminate.
  - destruct (includes (classList a) token) eqn:I.
    + apply includes_In in I. split; [tauto |].
      intros [H | [[_ ->] | (? & ? & ? & _ & ->)]]; assumption.
    + rewrite in_app_iff. simpl. split.
      * intros [H | [<- | []]]; [tauto |]. right. right. now eexists _, _, _.
      * intros [H | [[_ ->] | (? & ? & ? & _ & ->)]]; tauto.
Qed.

Lemma classList_add_span token r t :
  is_span r ->
  (In t (classList (attributes_of (classList_add token r))) <->
   In t (classList (attributes_of r)) \/ t = token).
Proof.
  intros I. rewrite classList_add_In. split.
  - intros [H | [[_ H] | (? & ? & ? & _ & H)]]; tauto.
  - intros [H | H]; tauto.
Qed.

Lemma classList_add_style token r :
  style_color (attributes_of (classList_add token r))
  = style_color (attributes_of r).
Proof. now destruct r. Qed.

Section Styles.

Variable translations : string -> option string.
Variable fc : value -> M Node.
Variable fcpt : value -> M string.
Variable fs : list (string * value).

Lemma apply_color_style r l :
  apply_color (VObj fs) (createElement "span") = (Ok r, l) ->
  (forall t,
     In t (classList (attributes_of r)) <->
     exists c,
       field (VObj fs) "color" = VStr c /\ isValidColor c = true /\
       startsWith "#" c = false /\ t = "mc-" +++ replace_underscores c) /\
  (forall c, style_color (attributes_of r) = Some c <-> style_of (VObj fs) c).
Proof.
  unfold apply_color, style_of. rewrite get_object, bind_ret.
  destruct (truthy (field (VObj fs) "color")) eqn:T.
  - destruct (field (VObj fs) "color") as [| | b | n | s | items | fields];
      try discriminate.
    destruct (isValidColor s) eqn:V; cbn [negb].
    + destruct (startsWith "#" s) eqn:P; intros H; inv_ret H; simpl; split.
      * intros t. split; [intros [] |].
        intros (c & E & _ & Q & _). inversion E; subst. congruence.
      * intros c. split.
        -- intros E. inversion E; subst. now repeat split.
        -- intros (E & _). now inversion E.
      * intros t. split.
        -- intros [<- | []]. now exists s.
        -- intros (c & E & _ & _ & ->). inversion E. now left.
      * intros c. split; [discriminate |].
        intros (E & _ & Q). inversion E; subst. congruence.
    + intros H. inv_bind H. inv_ret H. simpl. split.
      * intros t. split; [intros [] |].
        intros (c & E & Q & _). inversion E; subst. congruence.
      * intros c. split; [discriminate |].
        intros (E & Q & _). inversion E; subst. congruence.
  - intros H. inv_ret H. simpl.
    assert (N : forall c, field (VObj fs) "color" = VStr c ->
                          isValidColor c = true -> False).
    { intros c E Q. rewrite E in T. simpl in T.
      apply negb_false_iff, String.eqb_eq in T. subst c. discriminate Q. }
    split.
    + intros t. split; [intros [] |].
      intros (c & E & Q & _). exact (N c E Q).
    + intros c. split; [discriminate |].
      intros (E & Q & _). exfalso. exact (N c E Q).
Qed.

Lemma apply_flag_style flag r r' l :
  apply_flag (VObj fs) flag r = (Ok r', l) -> is_span r ->
  (forall t,
     In t (classList (attributes_of r')) <->
     In t (classList (attributes_of r)) \/
     (truthy (field (VObj fs) flag) = true /\ t = "mc-" +++ flag)) /\
  style_color (attributes_of r') = style_color (attributes_of r).
Proof.
  rewrite apply_flag_object. intros H I. inv_ret H.
  destruct (truthy (field (VObj fs) flag)); split.
  - intros t. rewrite classList_add_span by exact I. intuition.
  - apply classList_add_style.
  - intros t. intuition congruence.
  - reflexivity.
Qed.

Lemma apply_hover_style component r r' l :
  apply_hover fcpt component r = (Ok r', l) -> same_style r r'.
Proof.
  unfold apply_hover; intros H. inv_bind H.
  destruct (truthy a); [| inv_ret H; apply same_style_refl].
  inv_bind H. inv_bind H. inv_ret H.
  apply same_style_with_attributes. now intros.
Qed.

Lemma apply_content_style component r r' l :
  apply_content translations fc component r = (Ok r', l) -> same_style r r'.
Proof.
  intros H. apply apply_content_appends in H as (nodes & ->).
  apply same_style_appendChildren.
Qed.

Lemma apply_extra_style component r r' l :
  apply_extra fc component r = (Ok r', l) -> same_style r r'.
Proof.
  unfold apply_extra; intros H. inv_bind H.
  destruct (truthy a); [| inv_ret H; apply same_style_refl].
  inv_bind H. inv_ret H. apply same_style_appendChildren.
Qed.

Lemma truncate_style r r' l :
  truncate r = (Ok r', l) -> same_style r r'.
Proof.
  unfold truncate. destruct (_ && _); intros H.
  - inv_bind H. inv_ret H. apply same_style_set_textContent.
  - inv_ret H. apply same_style_refl.
Qed.

Lemma assemble_style node l :
  assemble translations fc fcpt (VObj fs) = (Ok node, l) ->
  (forall t, In t (classList (attributes_of node)) <-> class_of (VObj fs) t) /\
  (forall c, style_color (attributes_of node) = Some c <-> style_of (VObj fs) c).
Proof.
  unfold assemble; intros H.
  assert (I0 : is_span (createElement "span"))
    by (now exists no_attributes, []).
  inv_bind H. pose proof (apply_color_span _ _ _ _ H0 I0) as I1.
  apply apply_color_style in H0. destruct H0 as [C0 S0].
  inv_bind H. pose proof (apply_flag_span _ _ _ _ _ H0 I1) as I2.
  apply apply_flag_style in H0; [| exact I1]. destruct H0 as [C1 S1].
  inv_bind H. pose proof (apply_flag_span _ _ _ _ _ H0 I2) as I3.
  apply apply_flag_style in H0; [| exact I2]. destruct H0 as [C2 S2].
  inv_bind H. pose proof (apply_flag_span _ _ _ _ _ H0 I3) as I4.
  apply apply_flag_style in H0; [| exact I3]. destruct H0 as [C3 S3].
  inv_bind H. pose proof (apply_flag_span _ _ _ _ _ H0 I4) as I5.
  apply apply_flag_style in H0; [| exact I4]. destruct H0 as [C4 S4].
  inv_bind H. pose proof (apply_flag_span _ _ _ _ _ H0 I5) as I6.
  apply apply_flag_style in H0; [| exact I5]. destruct H0 as [C5 S5].
  inv_bind H. apply apply_hover_style in H0. destruct H0 as [C6 S6].
  inv_bind H. apply apply_content_style in H0. destruct H0 as [C7 S7].
  apply apply_extra_style in H. destruct H as [C8 S8].
  split.
  - intros t. rewrite C8, C7, C6, C5, C4, C3, C2, C1, C0.
    unfold class_of, STYLE_FLAGS. split.
    + intros [[[[[H | H] | H] | H] | H] | H]; [now left | right ..];
        destruct H as [H ->]; eexists; (split; [| split; [exact H | reflexivity]]);
        simpl; tauto.
    + intros [H | (flag & I & T & ->)]; [tauto |].
      simpl in I. intuition (subst; tauto).
  - intros c. rewrite S8, S7, S6, S5, S4, S3, S2, S1. apply S0.
Qed.

End Styles.

(** X8.  The classes and the colour of the span [formatComponent] returns
    for an object are those the component asks for, and no others: a class
    is on the span exactly when it is the class of a valid colour name
    ([mc-] and the name, [_] replaced by [-]) or the class of a flag that is
    truthy; the style has a colour exactly when [color] is valid and begins
    with [#], and it is that colour. *)
Theorem formatComponent_styles :
  forall translations fuel fields tag a cs l,
    formatComponent translations (S fuel) (VObj fields)
    = (Ok (Element tag a cs), l) ->
    (forall token, In token (classList a) <-> class_of (VObj fields) token) /\
    (forall c, style_color a = Some c <-> style_of (VObj fields) c).
Proof.
  intros tr fuel fs tag a cs l H. simpl in H. unfold render in H.
  apply try_catch_Ok in H.
  destruct H as [H | (e & l1 & l2 & _ & H & _)].
  - inv_bind H. apply truncate_style in H. destruct H as [C S].
    apply assemble_style in H0. destruct H0 as [C0 S0]. simpl in C, S. split.
    + intros t. rewrite C. apply C0.
    + intros c. rewrite S. apply S0.
  - apply fallback_Ok in H. destruct H as (s & H). discriminate H.
Qed.

Lemma formatComponent_styles_witness :
  exists a cs l,
    formatComponent example_translations 10 example_component
    = (Ok (Element "span" a cs), l) /\
    (In "mc-dark-red" (classList a) <-> class_of example_component "mc-dark-red") /\
    class_of example_component "mc-dark-red" /\
    ~ class_of example_component "mc-italic".
Proof.
  eexists. eexists. eexists. split; [reflexivity |].
  split; [| split].
  - eapply (formatComponent_styles example_translations 9).
    reflexivity.
  - left. exists "dark_red". now repeat split.
  - intros [(c & E & _ & _ & T) | (flag & I & T & E)].
    + inversion E; subst. discriminate T.
    + simpl in I. intuition (subst; discriminate).
Defined.

(** *** The text of the node *)

Lemma textContent_with_attributes f r :
  textContent (with_attributes f r) = textContent r.
Proof. now destruct r. Qed.

Lemma textContent_appendChildren nodes r :
  is_span r ->
  textContent (appendChildren nodes r)
  = textContent r +++ String.concat "" (map textContent nodes).
Proof.
  unfold appendChildren. revert r.
  induction nodes as [| n nodes IH]; intros r I; simpl fold_left.
  - simpl. now rewrite append_nil_r.
  - rewrite IH by (now apply is_span_appendChild).
    destruct I as (a & cs & ->). cbn [appendChild textContent].
    rewrite map_app, concat_app. cbn [map].
    rewrite (concat_cons (textContent n) (map textContent nodes)).
    rewrite append_assoc. reflexivity.
Qed.

Lemma substring_0_all (n : nat) (s : string) :
  String.length s <= n -> substring 0 n s = s.
Proof.
  revert n. induction s as [| c s IH]; intros [| n] H; simpl in *;
    try reflexivity; try lia.
  rewrite IH; [reflexivity | lia].
Qed.

Lemma truncate_text r node l :
  truncate r = (Ok node, l) ->
  textContent node = slice (textContent r) 0 MAX_CHAT_LENGTH.
Proof.
  unfold truncate.
  destruct (negb (textContent r =? "")) eqn:E;
    destruct (MAX_CHAT_LENGTH <? String.length (textContent r))%nat eqn:L;
    cbn [andb]; intros H.
  - inv_bind H. inv_ret H. apply textContent_set_textContent.
  - inv_ret H. apply Nat.ltb_ge in L. unfold slice.
    now rewrite Nat.sub_0_r, substring_0_all.
  - inv_ret H. apply negb_false_iff, String.eqb_eq in E. now rewrite E.
  - inv_ret H. apply Nat.ltb_ge in L. unfold slice.
    now rewrite Nat.sub_0_r, substring_0_all.
Qed.

Section Texts.

Variable translations : string -> option string.
Variable fc : value -> M Node.
Variable fcpt : value -> M string.
Variable fs : list (string * value).

Lemma apply_color_text r r' l :
  apply_color (VObj fs) r = (Ok r', l) -> textContent r' = textContent r.
Proof.
  unfold apply_color; intros H. inv_bind H.
  destruct (truthy a); [| now inv_ret H].
  destruct a; try discriminate.
  destruct (negb (isValidColor s)).
  - inv_bind H. now inv_ret H.
  - destruct (startsWith "#" s); inv_ret H;
      apply textContent_with_attributes.
Qed.

Lemma apply_flag_text flag r r' l :
  apply_flag (VObj fs) flag r = (Ok r', l) -> textContent r' = textContent r.
Proof.
  unfold apply_flag; intros H. inv_bind H. inv_ret H.
  destruct a; [apply textContent_with_attributes | reflexivity].
Qed.

Lemma apply_hover_text r r' l :
  apply_hover fcpt (VObj fs) r = (Ok r', l) -> textContent r' = textContent r.
Proof.
  unfold apply_hover; intros H. inv_bind H.
  destruct (truthy a); [| now inv_ret H].
  inv_bind H. inv_bind H. inv_ret H. apply textContent_with_attributes.
Qed.

(** The text that [formatComponentPlainText] takes from [text] or
    [translate]. *)
Lemma apply_content_text_of r r' l :
  (typeof (field (VObj fs) "text") =? "string") = true \/
    truthy (field (VObj fs) "text") = false ->
  apply_content translations fc (VObj fs) r = (Ok r', l) -> is_span r ->
  exists content,
    (if truthy (field (VObj fs) "text")
     then to_string (field (VObj fs) "text")
     else
       translate <- get (VObj fs) "translate" ;;
       if truthy translate then
         args <- get (VObj fs) "with" ;;
         nodes <- formatTranslation translations fc translate
                    (coalesce args (VArr [])) ;;
         ret (join "" (map textContent nodes))
       else ret "") = (Ok content, l) /\
    textContent r' = textContent r +++ content.
Proof.
  intros T. unfold apply_content. rewrite !get_object, bind_ret.
  destruct (truthy (field (VObj fs) "text")).
  - intros H I. destruct T as [T | T]; [| discriminate].
    destruct (field (VObj fs) "text"); try discriminate. inv_ret H.
    exists s. split; [reflexivity |].
    rewrite textContent_appendChildren by exact I.
    now rewrite (proj1 (linkifyText_well_linked s)).
  - rewrite !bind_ret.
    destruct (truthy (field (VObj fs) "translate")).
    + rewrite ?get_object, ?bind_ret. intros H I. inv_bind H. inv_ret H.
      exists (join "" (map textContent a)). split.
      * rewrite H0, bind_Ok. simpl. now rewrite app_nil_r.
      * now apply textContent_appendChildren.
    + intros H I. inv_ret H. exists "". split; [reflexivity |].
      now rewrite append_nil_r.
Qed.

Lemma mapM_strings {B} (f : value -> M B) (g : string -> B) es :
  (forall e, f (VStr e) = ret (g e)) ->
  mapM f (map VStr es) = ret (map g es).
Proof.
  intros F. induction es as [| e es IH]; [reflexivity |].
  simpl. now rewrite F, bind_ret, IH, !bind_ret.
Qed.

Lemma concat_map_Text es :
  String.concat "" (map textContent (map Text es)) = String.concat "" es.
Proof. rewrite map_map. simpl. now rewrite map_id. Qed.

Lemma apply_extra_strings es r :
  field (VObj fs) "extra" = VArr (map VStr es) -> is_span r ->
  exists r',
    apply_extra fc (VObj fs) r = ret r' /\ is_span r' /\
    textContent r' = textContent r +++ String.concat "" es.
Proof.
  intros E I. unfold apply_extra. rewrite get_object, bind_ret, E.
  simpl truthy. cbv iota. simpl array_map.
  rewrite (mapM_strings _ Text) by reflexivity. rewrite !bind_ret.
  eexists. split; [reflexivity |]. split.
  - now apply is_span_appendChildren.
  - rewrite textContent_appendChildren by exact I.
    now rewrite concat_map_Text.
Qed.

Lemma apply_extra_none r :
  truthy (field (VObj fs) "extra") = false ->
  apply_extra fc (VObj fs) r = ret r.
Proof.
  intros E. unfold apply_extra. now rewrite get_object, bind_ret, E.
Qed.

Lemma plain_text_extra_strings es (result : string) :
  field (VObj fs) "extra" = VArr (map VStr es) ->
  (extra <- get (VObj fs) "extra" ;;
   if truthy extra then
     parts <- array_map extra (fun component =>
                if typeof component =? "string" then ret (ToString component)
                else fcpt component) ;;
     ret (result +++ join "" parts)
   else ret result)
  = ret (result +++ String.concat "" es).
Proof.
  intros E. rewrite get_object, bind_ret, E. simpl truthy. cbv iota.
  simpl array_map. rewrite (mapM_strings _ (fun e => e)) by reflexivity.
  now rewrite bind_ret, map_id.
Qed.

Lemma plain_text_extra_none (result : string) :
  truthy (field (VObj fs) "extra") = false ->
  (extra <- get (VObj fs) "extra" ;;
   if truthy extra then
     parts <- array_map extra (fun component =>
                if typeof component =? "string" then ret (ToString component)
                else fcpt component) ;;
     ret (result +++ join "" parts)
   else ret result)
  = ret result.
Proof. intros E. now rewrite get_object, bind_ret, E. Qed.

(** The node assembled for an object whose children are strings, and the
    plain text of the object. *)
Lemma assemble_plain_text node l :
  (typeof (field (VObj fs) "text") =? "string") = true \/
    truthy (field (VObj fs) "text") = false ->
  assemble translations fc fcpt (VObj fs) = (Ok node, l) ->
  truthy (field (VObj fs) "extra") = false \/
  (exists es, field (VObj fs) "extra" = VArr (map VStr es)) ->
  exists l',
    plain_text translations fc fcpt (VObj fs) = (Ok (textContent node), l').
Proof.
  unfold assemble; intros TX H X.
  assert (I0 : is_span (createElement "span"))
    by (now exists no_attributes, []).
  inv_bind H. pose proof (apply_color_span _ _ _ _ H0 I0) as I1.
  apply apply_color_text in H0.
  inv_bind H. pose proof (apply_flag_span _ _ _ _ _ H1 I1) as I2.
  apply apply_flag_text in H1.
  inv_bind H. pose proof (apply_flag_span _ _ _ _ _ H2 I2) as I3.
  apply apply_flag_text in H2.
  inv_bind H. pose proof (apply_flag_span _ _ _ _ _ H3 I3) as I4.
  apply apply_flag_text in H3.
  inv_bind H. pose proof (apply_flag_span _ _ _ _ _ H4 I4) as I5.
  apply apply_flag_text in H4.
  inv_bind H. pose proof (apply_flag_span _ _ _ _ _ H5 I5) as I6.
  apply apply_flag_text in H5.
  inv_bind H. pose proof (apply_hover_span fcpt _ _ _ _ H6 I6) as I7.
  apply apply_hover_text in H6.
  inv_bind H.
  pose proof (apply_content_span translations fc _ _ _ _ H7 I7) as I8.
  apply apply_content_text_of in H7; [| exact TX | exact I7].
  destruct H7 as (content & P & T).
  rewrite H6, H5, H4, H3, H2, H1, H0 in T. simpl in T.
  unfold plain_text. rewrite get_object, bind_ret, P, bind_Ok.
  destruct X as [X | (es & X)].
  - rewrite apply_extra_none in H by exact X. inv_ret H.
    rewrite plain_text_extra_none by exact X.
    eexists. simpl. now rewrite app_nil_r.
  - destruct (apply_extra_strings es _ X I8) as (r' & R & _ & T').
    rewrite R in H. inv_ret H.
    rewrite plain_text_extra_strings with (es := es) by exact X.
    eexists. simpl. now rewrite app_nil_r, T'.
Qed.

End Texts.

(** X9.  The text of the span and the plain text agree.  When
    [formatComponent] returns a span for an object whose [text] is a string
    or falsy and whose [extra] is falsy or holds strings only,
    [formatComponentPlainText] returns for the same object, and the text of
    the span is that plain text, cut to the first 4096 code units.  (A [text]
    that is a number is not linkified: it is left out of the span, and kept
    in the plain text.) *)
Theorem formatComponent_text_is_plain_text :
  forall translations fuel fields tag a cs l,
    formatComponent translations (S fuel) (VObj fields)
    = (Ok (Element tag a cs), l) ->
    (typeof (field (VObj fields) "text") =? "string") = true \/
      truthy (field (VObj fields) "text") = false ->
    truthy (field (VObj fields) "extra") = false \/
    (exists es, field (VObj fields) "extra" = VArr (map VStr es)) ->
    exists s l',
      formatComponentPlainText translations (S fuel) (VObj fields)
      = (Ok s, l') /\
      textContent (Element tag a cs) = slice s 0 MAX_CHAT_LENGTH.
Proof.
  intros tr fuel fs tag a cs l H T X. simpl in H. unfold render in H.
  apply try_catch_Ok in H.
  destruct H as [H | (e & l1 & l2 & _ & H & _)].
  - inv_bind H. apply truncate_text in H.
    destruct (assemble_plain_text _ _ _ _ _ _ T H0 X) as (l' & P).
    exists (textContent a0), l'. split; [exact P | exact H].
  - apply fallback_Ok in H. destruct H as (s & H). discriminate H.
Qed.

Lemma formatComponent_text_is_plain_text_witness :
  exists a cs l,
    formatComponent example_translations 1 flat_component
    = (Ok (Element "span" a cs), l) /\
    exists s l',
      formatComponentPlainText example_translations 1 flat_component
      = (Ok s, l') /\
      textContent (Element "span" a cs) = slice s 0 MAX_CHAT_LENGTH.
Proof.
  eexists. eexists. eexists. split; [reflexivity |].
  eapply (formatComponent_text_is_plain_text example_translations 0).
  - reflexivity.
  - now left.
  - right. now exists ["lo "; "http://a.b"].
Defined.

(** X10.  The text of a component without children is kept whichever way
    the call goes.  For an object whose [text] is a string that is not empty
    and whose [extra] is falsy, the node [formatComponent] returns has the
    first 4096 code units of [text] as its text: as the span with the
    linkified text, or as the leaf returned after a failure. *)
Theorem formatComponent_keeps_text :
  forall translations fuel fields text node l,
    field (VObj fields) "text" = VStr text -> text <> "" ->
    truthy (field (VObj fields) "extra") = false ->
    formatComponent translations (S fuel) (VObj fields) = (Ok node, l) ->
    textContent node = slice text 0 MAX_CHAT_LENGTH.
Proof.
  intros tr fuel fs text node l F N X H. simpl in H. unfold render in H.
  apply try_catch_Ok in H.
  destruct H as [H | (e & l1 & l2 & _ & H & _)].
  - inv_bind H. apply truncate_text in H. rewrite H. f_equal.
    assert (T : (typeof (field (VObj fs) "text") =? "string") = true \/
                truthy (field (VObj fs) "text") = false)
      by (left; now rewrite F).
    destruct (assemble_plain_text _ _ _ _ _ _ T H0 (or_introl X))
      as (l' & P).
    unfold plain_text in P. rewrite get_object, bind_ret, F in P.
    simpl truthy in P. apply String.eqb_neq in N. rewrite N in P.
    simpl negb in P. cbv iota in P.
    change (to_string (VStr text)) with (ret text) in P.
    rewrite bind_ret in P.
    rewrite plain_text_extra_none in P by exact X.
    inversion P. reflexivity.
  - unfold fallback in H. rewrite get_object, F in H.
    inversion H. reflexivity.
Qed.

Lemma formatComponent_keeps_text_witness :
  formatComponent example_translations 1
    (VObj [("text", VStr "hello"); ("color", VNum "5")])
  = (Ok (Text "hello"),
     [caught_error (TypeError "color.toLowerCase is not a function")]) /\
  textContent (Text "hello") = slice "hello" 0 MAX_CHAT_LENGTH.
Proof.
  split; [reflexivity |].
  apply (formatComponent_keeps_text example_translations 0
           [("text", VStr "hello"); ("color", VNum "5")] "hello" (Text "hello")
           [caught_error (TypeError "color.toLowerCase is not a function")]);
    [reflexivity | discriminate | reflexivity | reflexivity].
Defined.

(** ** The substitution engine *)

Lemma numbered_at_sound : sound_matcher numbered_at.
Proof.
  intros s n. unfold numbered_at.
  destruct (strip_prefix "%" s) as [r |] eqn:P; [| discriminate].
  apply strip_prefix_Some in P. subst s.
  destruct (Nat.eqb_spec (span is_digit r) 0) as [| NZ]; [discriminate |].
  destruct (prefix "$s" _) eqn:Q; [| discriminate].
  intros H. inversion H; subst n; clear H.
  apply prefix_strip in Q. destruct Q as (r' & Q).
  apply (f_equal String.length) in Q. rewrite length_append in Q.
  pose proof (length_substring_le (span is_digit r)
                (String.length r - span is_digit r) r) as L.
  simpl in *. lia.
Qed.

Lemma simple_at_Some s n :
  simple_at s = Some n -> n = 2 /\ substring 0 2 s = "%s".
Proof.
  unfold simple_at. destruct (prefix "%s" s) eqn:P; [| discriminate].
  intros H. inversion H. split; [reflexivity |].
  apply prefix_strip in P. destruct P as (r & ->). simpl.
  now rewrite substring_empty.
Qed.

Lemma simple_at_sound : sound_matcher simple_at.
Proof.
  intros s n H. unfold simple_at in H.
  destruct (prefix "%s" s) eqn:P; [| discriminate]. inversion H.
  apply prefix_strip in P. destruct P as (r & ->). simpl. lia.
Qed.

(** One turn of a loop that puts the match back: the text before the match
    and the match are the template from the last position to the end of the
    match. *)
Lemma text_before_covers template from m :
  from <= index m ->
  matched m
  = substring 0 (String.length (matched m)) (drop (index m) template) ->
  String.concat "" (map textContent (text_before template from m))
  +++ matched m +++ drop (match_end m) template
  = drop from template.
Proof.
  intros H E.
  assert (T : String.concat "" (map textContent (text_before template from m))
              = slice template from (index m)).
  { unfold text_before. destruct (Nat.ltb_spec from (index m)).
    - reflexivity.
    - unfold slice. replace (index m - from) with 0 by lia.
      now rewrite substring_empty. }
  rewrite T. rewrite <- (slice_drop template from (index m)) by exact H.
  f_equal. rewrite E at 1.
  replace (drop (match_end m) template)
    with (drop (String.length (matched m)) (drop (index m) template))
    by (rewrite drop_drop; reflexivity).
  apply take_drop.
Qed.

Lemma text_before_is_text s from m : Forall is_text (text_before s from m).
Proof.
  unfold text_before. destruct (_ <? _)%nat; repeat constructor.
  now eexists.
Qed.

Lemma text_after_covers template from :
  String.concat "" (map textContent (text_after template from))
  = drop from template.
Proof.
  unfold text_after. destruct (Nat.ltb_spec from (String.length template)).
  - simpl. apply slice_from_drop.
  - simpl. symmetry. now apply drop_all.
Qed.

Lemma text_after_is_text s from : Forall is_text (text_after s from).
Proof.
  unfold text_after. destruct (_ <? _)%nat; repeat constructor.
  now eexists.
Qed.

Lemma element_none i : element (VArr []) i = ret VUndefined.
Proof.
  rewrite element_nth. destruct (i <? 0)%Z; [reflexivity |].
  now destruct (Z.to_nat i).
Qed.

Lemma missing_argument_eq index template token :
  missing_argument index template token
  = (Ok (createTextNode token),
     [Warn [if (index <=? MAX_SAFE_INTEGER)%Z
            then LStr (missing_argument_message index template)
            else LOther "Missing argument, with an index above 2^53"]]).
Proof. reflexivity. Qed.

Lemma substitute_undefined fc missing :
  substitute fc VUndefined missing = missing.
Proof. reflexivity. Qed.

Section NoArguments.

Variable fc : value -> M Node.
Variable template : string.

Lemma numbered_loop_no_arguments matches from :
  scan_chain numbered_at template from matches ->
  forall result,
  exists fragments warnings,
    numbered_loop fc template (VArr []) matches from result
    = (Ok (result ++ fragments), warnings) /\
    String.concat "" (map textContent fragments) = drop from template /\
    Forall is_text fragments /\ Forall is_warning warnings /\
    List.length warnings = List.length matches.
Proof.
  intros C. induction C as [from G | from m rest H1 G M E P B C IH];
    intros result.
  - cbn [numbered_loop]. exists (text_after template from), [].
    split; [reflexivity |]. split; [apply text_after_covers |].
    split; [apply text_after_is_text |]. split; [constructor | reflexivity].
  - cbn [numbered_loop]. rewrite element_none, bind_ret.
    rewrite substitute_undefined, missing_argument_eq, bind_Ok.
    destruct (IH ((result ++ text_before template from m)
                  ++ [createTextNode (matched m)]))
      as (fragments & warnings & E1 & E2 & E3 & E4 & E5).
    rewrite E1.
    exists (text_before template from m ++ [Text (matched m)] ++ fragments).
    eexists. split; [simpl; now rewrite <- !app_assoc |].
    split; [| split; [| split]].
    + rewrite !map_app, !concat_app, E2. simpl map.
      change (String.concat "" [matched m]) with (matched m).
      now apply text_before_covers.
    + apply Forall_app. split; [apply text_before_is_text |].
      constructor; [now eexists | exact E3].
    + constructor; [now eexists | exact E4].
    + simpl. now rewrite E5.
Qed.

Lemma simple_loop_no_arguments matches from :
  scan_chain simple_at template from matches ->
  forall count result,
  exists fragments warnings,
    simple_loop fc template (VArr []) matches from count result
    = (Ok (result ++ fragments), warnings) /\
    String.concat "" (map textContent fragments) = drop from template /\
    Forall is_text fragments /\ Forall is_warning warnings /\
    List.length warnings = List.length matches.
Proof.
  intros C. induction C as [from G | from m rest H1 G M E P B C IH];
    intros count result.
  - cbn [simple_loop]. exists (text_after template from), [].
    split; [reflexivity |]. split; [apply text_after_covers |].
    split; [apply text_after_is_text |]. split; [constructor | reflexivity].
  - cbn [simple_loop]. rewrite element_none, bind_ret.
    rewrite substitute_undefined, missing_argument_eq, bind_Ok.
    destruct (IH (S count)
                 ((result ++ text_before template from m)
                  ++ [createTextNode "%s"]))
      as (fragments & warnings & E1 & E2 & E3 & E4 & E5).
    rewrite E1.
    assert (T : matched m = "%s").
    { apply simple_at_Some in M. destruct M as [L S].
      rewrite E, L. exact S. }
    exists (text_before template from m ++ [Text "%s"] ++ fragments).
    eexists. split; [simpl; now rewrite <- !app_assoc |].
    split; [| split; [| split]].
    + rewrite !map_app, !concat_app, E2. simpl map.
      change (String.concat "" ["%s"]) with "%s". rewrite <- T.
      now apply text_before_covers.
    + apply Forall_app. split; [apply text_before_is_text |].
      constructor; [now eexists | exact E3].
    + constructor; [now eexists | exact E4].
    + simpl. now rewrite E5.
Qed.

End NoArguments.

(** X11.  A translation without arguments shows its template.  For a key
    with a template in the table, [formatTranslation] with an empty argument
    list returns text nodes whose texts, in order, are the template itself:
    every placeholder stays as it is written, and each one is reported by
    one warning. *)
Theorem formatTranslation_no_arguments :
  forall translations fc key template,
    key <> "" -> key <> "%s" ->
    translations key = Some template -> template <> "" ->
    exists nodes warnings,
      formatTranslation translations fc (VStr key) (VArr [])
      = (Ok nodes, warnings) /\
      String.concat "" (map textContent nodes) = template /\
      Forall is_text nodes /\ Forall is_warning warnings /\
      List.length warnings
      = List.length
          (if string_includes "$s" template
           then exec_all numbered_at template
           else exec_all simple_at template).
Proof.
  intros tr fc key template K1 K2 T N.
  apply String.eqb_neq in K1, K2.
  rewrite (formatTranslation_template tr fc key template (VArr []) K1 K2 T N).
  destruct (string_includes "$s" template).
  - unfold numberedSubstitution.
    destruct (numbered_loop_no_arguments fc template
                (exec_all numbered_at template) 0
                (exec_all_chain numbered_at template numbered_at_sound) [])
      as (fragments & warnings & E & H).
    rewrite E. now exists fragments, warnings.
  - unfold simpleSubstitution.
    destruct (simple_loop_no_arguments fc template
                (exec_all simple_at template) 0
                (exec_all_chain simple_at template simple_at_sound) 0 [])
      as (fragments & warnings & E & H).
    rewrite E. now exists fragments, warnings.
Qed.

Lemma formatTranslation_no_arguments_witness :
  exists nodes warnings,
    formatTranslation example_translations
      (formatComponent example_translations 0) (VStr "chat.type.text")
      (VArr [])
    = (Ok nodes, warnings) /\
    String.concat "" (map textContent nodes) = "<%s> %s" /\
    Forall is_text nodes /\ Forall is_warning warnings /\
    List.length warnings = 2.
Proof.
  apply (formatTranslation_no_arguments example_translations
           (formatComponent example_translations 0) "chat.type.text"
           "<%s> %s"); [discriminate | discriminate | reflexivity | discriminate].
Defined.

Lemma try_catch_Ok_handler {A} (m : M A) (handler : exn -> M A) :
  (forall e, exists a l, handler e = (Ok a, l)) ->
  forall e l, try_catch m handler <> (Throw e, l).
Proof.
  intros H e l. destruct m as [[a | e' | h] l1]; simpl; try discriminate.
  destruct (H e') as (a & l2 & ->). discriminate.
Qed.

Lemma convertible_false_object (v : value) :
  convertible v = false ->
  truthy v = true /\ (typeof v =? "string") = false.
Proof. destruct v; try discriminate; now split. Qed.

(** X12.  [formatTranslation] keeps every failure of a substitution to
    itself.  For a key other than ["%s"] it throws exactly when the key has
    no conversion to a string, being an object with a property [toString] or
    an array that holds one: then the read of the table throws, before the
    [try] block.  For a key that is a string it never throws, whatever the
    arguments and whatever the rendering of an argument does. *)
Theorem formatTranslation_never_throws :
  forall translations fc key args,
    key <> VStr "%s" ->
    ((exists error l,
        formatTranslation translations fc key args = (Throw error, l)) <->
     convertible key = false).
Proof.
  intros tr fc key args K. split.
  - intros (error & l & H).
    destruct (convertible key) eqn:C; [exfalso | reflexivity].
    revert H. unfold formatTranslation.
    destruct (negb (truthy key)); [discriminate |].
    rewrite (to_string_convertible key C), bind_ret.
    destruct (typeof key =? "string") eqn:T; simpl andb.
    + apply typeof_string in T.
      destruct (String.eqb_spec (ToString key) "%s") as [E | _];
        [rewrite E in T; contradiction |].
      destruct (table_read tr (ToString key)) as [| [| c template] |];
        try discriminate; apply try_catch_Ok_handler; intros e;
        now eexists _, _.
    + destruct (table_read tr (ToString key)) as [| [| c template] |];
        try discriminate; apply try_catch_Ok_handler; intros e;
        now eexists _, _.
  - intros C. destruct (convertible_false_object key C) as [T S].
    unfold formatTranslation, to_string. rewrite T, S, C.
    now eexists _, _.
Qed.

Lemma formatTranslation_never_throws_witness :
  formatTranslation example_translations
    (fun _ => throw (TypeError "rendering failed")) (VStr "greet")
    (VArr [VObj []])
  = (Ok [Text "greet"],
     [Error [LStr "Error formatting translation for key: greet";
             LExn (TypeError "rendering failed")]]) /\
  (forall error l,
     formatTranslation example_translations
       (fun _ => throw (TypeError "rendering failed")) (VStr "greet")
       (VArr [VObj []])
     <> (Throw error, l)).
Proof.
  split; [reflexivity |]. intros error l H.
  assert (C : convertible (VStr "greet") = false).
  { apply (formatTranslation_never_throws example_translations
             (fun _ => throw (TypeError "rendering failed")) (VStr "greet")
             (VArr [VObj []])); [discriminate |].
    now exists error, l. }
  discriminate C.
Defined.

(** X13.  A key without a template of its own.  For a key that is not empty
    and not ["%s"] and that the table does not hold, [formatTranslation]
    returns the key itself as one text node and writes one entry to the
    console: the warning of a missing translation, or, for a name that every
    object inherits (such as [constructor]), the error caught when the
    inherited value is used as a template. *)
Theorem formatTranslation_missing_key :
  forall translations fc key args,
    key <> "" -> key <> "%s" -> translations key = None ->
    exists entry,
      formatTranslation translations fc (VStr key) args
      = (Ok [Text key], [entry]) /\
      (includes OBJECT_PROTOTYPE key = false ->
       entry = Warn [LStr ("Missing translation for key: " +++ key)]) /\
      (includes OBJECT_PROTOTYPE key = true ->
       exists error,
         entry = Error [LStr ("Error formatting translation for key: " +++ key);
                        LExn error]).
Proof.
  intros tr fc key args K1 K2 T.
  apply String.eqb_neq in K1, K2.
  unfold formatTranslation. simpl truthy. simpl typeof.
  simpl ToString. rewrite K1, K2. simpl negb. simpl andb. cbv iota.
  change (to_string (VStr key)) with (ret key). rewrite bind_ret.
  unfold table_read. rewrite T.
  destruct (includes OBJECT_PROTOTYPE key) eqn:I.
  - eexists. split; [reflexivity |].
    split; [discriminate | intros _; now eexists].
  - eexists. split; [reflexivity |].
    split; [reflexivity | discriminate].
Qed.

Lemma formatTranslation_missing_key_witness :
  formatTranslation example_translations
    (formatComponent example_translations 0) (VStr "toString") (VArr [])
  = (Ok [Text "toString"],
     [Error [LStr "Error formatting translation for key: toString";
             LExn (TypeError "template.includes is not a function")]]) /\
  exists entry,
    formatTranslation example_translations
      (formatComponent example_translations 0) (VStr "chat.unknown")
      (VArr [VStr "a"])
    = (Ok [Text "chat.unknown"], [entry]) /\
    (includes OBJECT_PROTOTYPE "chat.unknown" = false ->
     entry = Warn [LStr "Missing translation for key: chat.unknown"]) /\
    (includes OBJECT_PROTOTYPE "chat.unknown" = true ->
     exists error,
       entry = Error [LStr "Error formatting translation for key: chat.unknown";
                      LExn error]).
Proof.
  split; [reflexivity |].
  apply (formatTranslation_missing_key example_translations
           (formatComponent example_translations 0) "chat.unknown"
           (VArr [VStr "a"])); [discriminate | discriminate | reflexivity].
Defined.

(** X14.  The placeholder key.  With the key ["%s"], [formatTranslation]
    hands the arguments through, one node for each: for arguments that are
    all strings the result is their text nodes, in order, the empty strings
    among them included, and nothing is written to the console.  Without
    arguments the result is the text ["%s"] and a warning. *)
Theorem formatTranslation_placeholder_key :
  forall translations fc,
    (forall args,
       args <> [] ->
       formatTranslation translations fc (VStr "%s") (VArr (map VStr args))
       = (Ok (map Text args), [])) /\
    formatTranslation translations fc (VStr "%s") (VArr [])
    = (Ok [Text "%s"],
       [Warn [LStr "Missing arguments for placeholder key: %s"]]).
Proof.
  intros tr fc. split; [| reflexivity].
  intros args N. unfold formatTranslation. simpl truthy. simpl typeof.
  simpl ToString. simpl negb. simpl andb. cbv iota.
  simpl length_of. rewrite bind_ret.
  destruct args as [| a args]; [contradiction |].
  cbn [is_zero List.length map]. rewrite nat_toString_positive.
  unfold array_map.
  exact (mapM_strings _ Text (a :: args) (fun e => eq_refl)).
Qed.

(** ** The linkifier on texts without a URL, and on a URL *)

Lemma linkify_loop_tail text matches :
  forall lastIndex result,
    linkify_loop text matches lastIndex result
    = result ++ linkify_tail text matches lastIndex.
Proof.
  induction matches as [| m rest IH]; intros lastIndex result;
    cbn [linkify_loop linkify_tail]; [reflexivity |].
  rewrite IH, <- !app_assoc. reflexivity.
Qed.

Lemma texts_apart_tail text matches :
  forall lastIndex, texts_apart (linkify_tail text matches lastIndex) = true.
Proof.
  induction matches as [| m rest IH]; intros lastIndex; cbn [linkify_tail].
  - unfold text_after. now destruct (_ <? _)%nat.
  - unfold text_before. destruct (_ <? _)%nat; simpl; apply IH.
Qed.

(** X15.  [linkifyText] never returns two text nodes next to each other:
    between two texts there is a link. *)
Theorem linkifyText_texts_apart :
  forall text, texts_apart (linkifyText text) = true.
Proof.
  intros text. unfold linkifyText. rewrite linkify_loop_tail.
  apply texts_apart_tail.
Qed.

Lemma url_free_no_match text :
  url_free text -> exec_all url_at text = [].
Proof.
  intros F.
  pose proof (exec_all_chain url_at text url_at_sound) as C.
  destruct (exec_all url_at text) as [| m rest]; [reflexivity | exfalso].
  inversion C as [| from m' rest' H1 G M E P B C']; subst.
  apply url_at_Some in M. destruct M as [_ U]. rewrite <- E in U.
  apply (F (substring 0 (index m) text) (matched m)
           (drop (match_end m) text)); [| exact U].
  rewrite <- (take_drop (index m) text) at 1. f_equal.
  rewrite E at 1.
  replace (drop (match_end m) text)
    with (drop (String.length (matched m)) (drop (index m) text))
    by (unfold match_end; now rewrite drop_drop).
  symmetry. apply take_drop.
Qed.

Lemma span_all (p : ascii -> bool) (s : string) :
  string_forallb p s = true -> span p s = String.length s.
Proof.
  intros H. rewrite <- (append_nil_r s) at 1.
  rewrite span_app by exact H. simpl. lia.
Qed.

Lemma url_at_whole url : is_url url -> url_at url = Some (String.length url).
Proof.
  intros (rest & [-> | ->] & N & S); unfold url_at; simpl strip_prefix;
    cbv iota; cbv beta.
  - destruct (strip_prefix "s" ("://" +++ rest)) eqn:Q;
      [apply strip_prefix_Some in Q; discriminate Q |].
    simpl strip_prefix. unfold no_space in S. rewrite (span_all _ _ S).
    destruct (Nat.eqb_spec (String.length rest) 0) as [Z | _];
      [destruct rest; [contradiction | discriminate Z] |].
    reflexivity.
  - simpl strip_prefix. unfold no_space in S. rewrite (span_all _ _ S).
    destruct (Nat.eqb_spec (String.length rest) 0) as [Z | _];
      [destruct rest; [contradiction | discriminate Z] |].
    reflexivity.
Qed.

Lemma exec_all_whole url :
  is_url url -> exec_all url_at url = [{| index := 0; matched := url |}].
Proof.
  intros U. pose proof (url_at_whole url U) as W.
  destruct url as [| c tail]; [discriminate W |].
  unfold exec_all. cbn [exec_from]. rewrite W.
  rewrite substring_0_length. f_equal.
  simpl String.length. rewrite Nat.sub_succ, Nat.sub_0_r.
  rewrite <- (append_nil_r tail) at 2. now rewrite exec_from_skip.
Qed.

(** X16.  The two simplest inputs of [linkifyText].  A text in which no URL
    occurs comes back as it is, as one text node, and the empty text as no
    node at all; a text that is one URL, with no white space in it, comes
    back as one link. *)
Theorem linkifyText_plain_and_url :
  (forall text,
     url_free text ->
     linkifyText text = if text =? "" then [] else [Text text]) /\
  (forall url, is_url url -> linkifyText url = [anchor url]).
Proof.
  split.
  - intros text F. unfold linkifyText. rewrite (url_free_no_match text F).
    cbn [linkify_loop app]. unfold text_after.
    destruct text as [| c text]; [reflexivity |].
    simpl Nat.ltb. cbv iota. now rewrite slice_from_drop.
  - intros url U. unfold linkifyText. rewrite (exec_all_whole url U).
    cbn [linkify_loop app]. unfold text_before, text_after, match_end.
    cbn [index matched]. rewrite !Nat.ltb_irrefl. reflexivity.
Qed.

Lemma linkifyText_plain_and_url_witness :
  linkifyText "no link here" = [Text "no link here"] /\
  linkifyText "https://example.com/a?b=c"
  = [anchor "https://example.com/a?b=c"].
Proof.
  destruct linkifyText_plain_and_url as [P U]. split.
  - apply (P "no link here"). intros a u b E (rest & [-> | ->] & _).
    + assert (H : string_includes "http"
                    (a +++ ("http://" +++ rest) +++ b) = true).
      { change ("http://" +++ rest) with ("http" +++ "://" +++ rest).
        rewrite append_assoc. apply string_includes_app. }
      rewrite <- E in H. discriminate H.
    + assert (H : string_includes "http"
                    (a +++ ("https://" +++ rest) +++ b) = true).
      { change ("https://" +++ rest) with ("http" +++ "s://" +++ rest).
        rewrite append_assoc. apply string_includes_app. }
      rewrite <- E in H. discriminate H.
  - apply (U "https://example.com/a?b=c").
    exists "example.com/a?b=c". split; [now right |]. split; [discriminate |].
    reflexivity.
Defined.

(** ** Tooltips *)

Lemma formatHoverEvent_show_text_eq fcpt fields :
  field (VObj fields) "action" = VStr "show_text" ->
  formatHoverEvent fcpt (VObj fields)
  = (let contents :=
       coalesce (field (VObj fields) "contents") (field (VObj fields) "value") in
     if typeof contents =? "undefined" then
       console_warn [LStr "HoverEvent.contents is undefined"] ;;
       ret (VStr "")
     else if typeof contents =? "string" then ret contents
     else
       match contents with
       | VArr items =>
           parts <- mapM (fun component =>
                      if typeof component =? "string"
                      then ret (ToString component)
                      else fcpt component) items ;;
           ret (VStr (join "" parts))
       | _ =>
           s <- fcpt contents ;;
           ret (VStr s)
       end).
Proof.
  intros A. unfold formatHoverEvent.
  rewrite !get_object, bind_ret, A. simpl typeof. simpl ToString.
  simpl andb. cbv iota. now rewrite !bind_ret.
Qed.

(** X17.  The tooltip of an accepted [show_text] event.  The renderer reads
    [contents ?? value], the validator [contents] when the event has one and
    [value] otherwise; for an event the validator accepted the two are the
    same value, and it is not [undefined].  The tooltip is then that value
    when it is a string, the strings joined when it is an array of strings,
    and the plain text of the component otherwise. *)
Theorem formatHoverEvent_show_text :
  forall fuel fcpt hoverEvent path l,
    assertIsHoverEvent (assertIsComponent fuel) hoverEvent path = (Ok tt, l) ->
    field hoverEvent "action" = VStr "show_text" ->
    coalesce (field hoverEvent "contents") (field hoverEvent "value")
    = hover_contents hoverEvent /\
    (forall s,
       hover_contents hoverEvent = VStr s ->
       formatHoverEvent fcpt hoverEvent = (Ok (VStr s), [])) /\
    (forall ss,
       hover_contents hoverEvent = VArr (map VStr ss) ->
       formatHoverEvent fcpt hoverEvent
       = (Ok (VStr (String.concat "" ss)), [])) /\
    (forall fields,
       hover_contents hoverEvent = VObj fields ->
       formatHoverEvent fcpt hoverEvent
       = (s <- fcpt (VObj fields) ;; ret (VStr s))).
Proof.
  intros fuel fcpt h path l H A.
  destruct (hover_validated fuel h path l H A) as [T C].
  pose proof (coalesce_hover_contents h T C) as E.
  destruct (field_present h "action") as [_ (fs & ->)];
    [rewrite A; discriminate |].
  split; [exact E |].
  rewrite (formatHoverEvent_show_text_eq fcpt fs A). cbv zeta. rewrite E.
  split; [| split].
  - intros s S. now rewrite S.
  - intros ss S. rewrite S. simpl typeof. simpl String.eqb. cbv iota.
    rewrite (mapM_strings _ (fun e => e)) by reflexivity.
    now rewrite bind_ret, map_id.
  - intros fields S. now rewrite S.
Qed.

Lemma formatHoverEvent_show_text_witness :
  coalesce (field legacy_text_event "contents") (field legacy_text_event "value")
  = hover_contents legacy_text_event /\
  formatHoverEvent (formatComponentPlainText example_translations 0)
    legacy_text_event
  = (Ok (VStr "a tip"), []).
Proof.
  assert (H : assertIsHoverEvent (assertIsComponent 9) legacy_text_event
                ["hoverEvent"] = (Ok tt, [])) by reflexivity.
  destruct (formatHoverEvent_show_text 9
              (formatComponentPlainText example_translations 0)
              legacy_text_event ["hoverEvent"] [] H eq_refl)
    as (E & S & _).
  split; [exact E | apply S; reflexivity].
Defined.

Lemma attributes_appendChildren nodes r :
  attributes_of (appendChildren nodes r) = attributes_of r.
Proof.
  unfold appendChildren. revert r.
  induction nodes as [| n nodes IH]; intros r; simpl; [reflexivity |].
  rewrite IH. now destruct r.
Qed.

Lemma attributes_set_textContent data r :
  attributes_of (set_textContent data r) = attributes_of r.
Proof. now destruct r. Qed.

Section Titles.

Variable translations : string -> option string.
Variable fc : value -> M Node.
Variable fcpt : value -> M string.
Variable fs : list (string * value).

Lemma apply_color_title r r' l :
  apply_color (VObj fs) r = (Ok r', l) ->
  title (attributes_of r') = title (attributes_of r).
Proof.
  unfold apply_color; intros H. inv_bind H.
  destruct (truthy a); [| now inv_ret H].
  destruct a; try discriminate.
  destruct (negb (isValidColor s)).
  - inv_bind H. now inv_ret H.
  - destruct (startsWith "#" s); inv_ret H; now destruct r.
Qed.

Lemma apply_flag_title flag r r' l :
  apply_flag (VObj fs) flag r = (Ok r', l) ->
  title (attributes_of r') = title (attributes_of r).
Proof.
  unfold apply_flag; intros H. inv_bind H. inv_ret H.
  destruct a; [now destruct r | reflexivity].
Qed.

Lemma apply_hover_title r r' l :
  apply_hover fcpt (VObj fs) r = (Ok r', l) -> is_span r ->
  (truthy (field (VObj fs) "hoverEvent") = false ->
   title (attributes_of r') = title (attributes_of r)) /\
  (truthy (field (VObj fs) "hoverEvent") = true ->
   exists t l',
     formatHoverEvent fcpt (field (VObj fs) "hoverEvent") = (Ok t, l') /\
     convertible t = true /\
     title (attributes_of r') = Some (ToString t)).
Proof.
  unfold apply_hover. rewrite get_object, bind_ret. intros H (a & cs & ->).
  destruct (truthy (field (VObj fs) "hoverEvent")).
  - inv_bind H. inv_bind H. inv_ret H. split; [discriminate | intros _].
    apply to_string_Ok in H1 as (C & -> & _).
    now exists a0, l0.
  - inv_ret H. split; [reflexivity | discriminate].
Qed.

Lemma apply_content_attributes component r r' l :
  apply_content translations fc component r = (Ok r', l) ->
  attributes_of r' = attributes_of r.
Proof.
  intros H. apply apply_content_appends in H as (nodes & ->).
  apply attributes_appendChildren.
Qed.

Lemma apply_extra_attributes component r r' l :
  apply_extra fc component r = (Ok r', l) ->
  attributes_of r' = attributes_of r.
Proof.
  unfold apply_extra; intros H. inv_bind H.
  destruct (truthy a); [| now inv_ret H].
  inv_bind H. inv_ret H. apply attributes_appendChildren.
Qed.

Lemma truncate_attributes r r' l :
  truncate r = (Ok r', l) -> attributes_of r' = attributes_of r.
Proof.
  unfold truncate. destruct (_ && _); intros H.
  - inv_bind H. inv_ret H. apply attributes_set_textContent.
  - now inv_ret H.
Qed.

Lemma assemble_title node l :
  assemble translations fc fcpt (VObj fs) = (Ok node, l) ->
  (truthy (field (VObj fs) "hoverEvent") = false ->
   title (attributes_of node) = None) /\
  (truthy (field (VObj fs) "hoverEvent") = true ->
   exists t l',
     formatHoverEvent fcpt (field (VObj fs) "hoverEvent") = (Ok t, l') /\
     convertible t = true /\
     title (attributes_of node) = Some (ToString t)).
Proof.
  unfold assemble; intros H.
  assert (I0 : is_span (createElement "span"))
    by (now exists no_attributes, []).
  inv_bind H. pose proof (apply_color_span _ _ _ _ H0 I0) as I1.
  apply apply_color_title in H0.
  inv_bind H. pose proof (apply_flag_span _ _ _ _ _ H1 I1) as I2.
  apply apply_flag_title in H1.
  inv_bind H. pose proof (apply_flag_span _ _ _ _ _ H2 I2) as I3.
  apply apply_flag_title in H2.
  inv_bind H. pose proof (apply_flag_span _ _ _ _ _ H3 I3) as I4.
  apply apply_flag_title in H3.
  inv_bind H. pose proof (apply_flag_span _ _ _ _ _ H4 I4) as I5.
  apply apply_flag_title in H4.
  inv_bind H. pose proof (apply_flag_span _ _ _ _ _ H5 I5) as I6.
  apply apply_flag_title in H5.
  inv_bind H. apply apply_hover_title in H6; [| exact I6].
  inv_bind H. apply apply_content_attributes in H7.
  apply apply_extra_attributes in H.
  rewrite H, H7. destruct H6 as [N Y]. split.
  - intros F. rewrite (N F), H5, H4, H3, H2, H1, H0. reflexivity.
  - exact Y.
Qed.

End Titles.

(** X18.  The tooltip is the title of the span.  When [formatComponent]
    returns a span for an object, the span has a title exactly when
    [hoverEvent] is truthy; [formatHoverEvent] then returned a value for the
    event, the value has a conversion to a string, and the title is the
    string it converts to: the value itself when it is a string, the digits
    of a number, "undefined" for an event of no known action. *)
Theorem formatComponent_title :
  forall translations fuel fields tag a cs l,
    formatComponent translations (S fuel) (VObj fields)
    = (Ok (Element tag a cs), l) ->
    (truthy (field (VObj fields) "hoverEvent") = false -> title a = None) /\
    (truthy (field (VObj fields) "hoverEvent") = true ->
     exists t l',
       formatHoverEvent (formatComponentPlainText translations fuel)
         (field (VObj fields) "hoverEvent") = (Ok t, l') /\
       to_string t = ret (ToString t) /\
       title a = Some (ToString t) /\
       (forall s, t = VStr s -> title a = Some s) /\
       (forall shown, t = VNum shown -> title a = Some shown) /\
       (t = VUndefined -> title a = Some "undefined")).
Proof.
  intros tr fuel fs tag a cs l H. simpl in H. unfold render in H.
  apply try_catch_Ok in H.
  destruct H as [H | (e & l1 & l2 & _ & H & _)].
  - inv_bind H. apply truncate_attributes in H. simpl in H. rewrite H.
    apply assemble_title in H0. destruct H0 as [N Y].
    split; [exact N |]. intros T.
    destruct (Y T) as (t & l' & F & C & Ti).
    exists t, l'. split; [exact F |].
    split; [now apply to_string_convertible |].
    split; [exact Ti |]. rewrite Ti.
    repeat split; intros; subst; reflexivity.
  - apply fallback_Ok in H. destruct H as (s & H). discriminate H.
Qed.

Lemma formatComponent_title_witness :
  exists a cs l,
    formatComponent example_translations 2
      (VObj [("text", VStr "hover me"); ("hoverEvent", legacy_text_event)])
    = (Ok (Element "span" a cs), l) /\
    title a = Some "a tip".
Proof.
  eexists. eexists. eexists. split; [reflexivity |].
  destruct (formatComponent_title example_translations 1
              [("text", VStr "hover me"); ("hoverEvent", legacy_text_event)]
              "span" _ _ _ eq_refl) as [_ Y].
  destruct (Y eq_refl) as (t & l' & E & _ & T & _).
  rewrite T. inversion E. reflexivity.
Defined.

(** ** An accepted component is rendered as a span *)

Lemma no_throw_bind {A B} (m : M A) (k : A -> M B) :
  no_throw m -> (forall a l, m = (Ok a, l) -> no_throw (k a)) ->
  no_throw (bind m k).
Proof.
  destruct m as [[a | e | h] l]; simpl; intros Hm Hk; try easy.
  specialize (Hk a l eq_refl). unfold no_throw in *.
  now destruct (k a) as [[] ?].
Qed.

Lemma no_throw_seq {A B} (m : M A) (k : A -> M B) :
  no_throw m -> (forall a, no_throw (k a)) -> no_throw (bind m k).
Proof.
  intros Hm Hk. apply no_throw_bind; [exact Hm | intros a _ _; apply Hk].
Qed.

Lemma no_throw_try_catch {A} (m : M A) (h : exn -> M A) :
  (forall e, no_throw (h e)) -> no_throw (try_catch m h).
Proof.
  destruct m as [[a | e | x] l]; simpl; intros Hh; try easy.
  specialize (Hh e). unfold no_throw in *. now destruct (h e) as [[] ?].
Qed.

Lemma no_throw_mapM {A B} (f : A -> M B) (items : list A) :
  (forall x, In x items -> no_throw (f x)) -> no_throw (mapM f items).
Proof.
  induction items as [| x items IH]; intros H; simpl; [exact I |].
  apply no_throw_seq; [apply H; now left | intros y].
  apply no_throw_seq; [apply IH; intros z Hz; apply H; now right | intros ys].
  exact I.
Qed.

Lemma no_throw_to_string (v : value) :
  convertible v = true -> no_throw (to_string v).
Proof. intros C. rewrite (to_string_convertible v C). exact I. Qed.

Lemma convertible_string_or_undefined (v : value) :
  (typeof v =? "string") = true \/ v = VUndefined -> convertible v = true.
Proof. intros [T | ->]; [| reflexivity]. now destruct v. Qed.

Lemma convertible_typeof (v : value) (ty : string) :
  typeof v = ty -> (ty =? "object") = false -> convertible v = true.
Proof. intros <- T. now destruct v. Qed.

Lemma formatTranslation_quiet translations fc key args :
  key <> VStr "%s" -> convertible key = true ->
  no_throw (formatTranslation translations fc key args).
Proof.
  intros K C. unfold formatTranslation.
  destruct (negb (truthy key)); [exact I |].
  rewrite (to_string_convertible key C), bind_ret.
  destruct (typeof key =? "string") eqn:T; simpl andb.
  - apply typeof_string in T.
    destruct (String.eqb_spec (ToString key) "%s") as [E | _];
      [rewrite E in T; contradiction |].
    destruct (table_read translations (ToString key)) as [| [| c template] |];
      try exact I; apply no_throw_try_catch; intros e; exact I.
  - destruct (table_read translations (ToString key)) as [| [| c template] |];
      try exact I; apply no_throw_try_catch; intros e; exact I.
Qed.

Lemma value_eq_placeholder (key : value) :
  key = VStr "%s" \/ key <> VStr "%s".
Proof.
  destruct key as [| | b | n | s | items | fs]; try (right; discriminate).
  destruct (string_dec s "%s") as [-> | N]; [now left | right].
  intros E. inversion E. contradiction.
Qed.

Lemma render_quiet translations fc fcpt fields :
  (typeof (field (VObj fields) "text") =? "string") = true \/
    field (VObj fields) "text" = VUndefined ->
  no_throw (render translations fc fcpt (VObj fields)).
Proof.
  intros T. unfold render. apply no_throw_try_catch. intros e.
  rewrite (fallback_validated fields e T). exact I.
Qed.

Lemma formatComponent_quiet translations fuel component :
  validated component ->
  no_throw (formatComponent translations fuel component).
Proof.
  intros V. destruct fuel as [| fuel]; [exact I |].
  destruct (validated_shape _ V) as ((fields & ->) & T & _).
  now apply render_quiet.
Qed.

Lemma validated_color component :
  validated component ->
  typeof (field component "color") = "string" \/
  truthy (field component "color") = false.
Proof.
  intros (fuel & path & l & H).
  destruct fuel as [| fuel]; [discriminate |].
  destruct (Nat.ltb_spec MAX_CHAT_DEPTH (List.length path)) as [D | D];
    [rewrite assertIsComponent_too_deep in H by exact D; discriminate |].
  rewrite assertIsComponent_checks in H by exact D.
  unfold component_checks in H.
  do 4 (apply seq_Ok in H; destruct H as [_ (? & H)]).
  apply seq_Ok in H. destruct H as [(? & C) _].
  destruct (has "color" component) eqn:P.
  - left. eapply check_field_Ok; eassumption.
  - right. now rewrite (field_absent _ _ P).
Qed.

Lemma validated_translate component :
  validated component ->
  (typeof (field component "translate") =? "string") = true \/
  field component "translate" = VUndefined.
Proof.
  intros (fuel & path & l & H).
  destruct fuel as [| fuel]; [discriminate |].
  destruct (Nat.ltb_spec MAX_CHAT_DEPTH (List.length path)) as [D | D];
    [rewrite assertIsComponent_too_deep in H by exact D; discriminate |].
  rewrite assertIsComponent_checks in H by exact D.
  unfold component_checks in H.
  do 3 (apply seq_Ok in H; destruct H as [_ (? & H)]).
  apply seq_Ok in H. destruct H as [(? & C) _].
  destruct (has "translate" component) eqn:P.
  - left. apply String.eqb_eq. eapply check_field_Ok; eassumption.
  - right. now apply field_absent.
Qed.

Lemma validated_hover_event component :
  validated component -> has "hoverEvent" component = true ->
  exists fuel path l,
    assertIsHoverEvent (assertIsComponent fuel)
      (field component "hoverEvent") path = (Ok tt, l).
Proof.
  intros (fuel & path & l & H) P.
  destruct fuel as [| fuel]; [discriminate |].
  destruct (Nat.ltb_spec MAX_CHAT_DEPTH (List.length path)) as [D | D];
    [rewrite assertIsComponent_too_deep in H by exact D; discriminate |].
  rewrite assertIsComponent_checks in H by exact D.
  unfold component_checks in H.
  do 12 (apply seq_Ok in H; destruct H as [_ (? & H)]).
  rewrite P in H. unfold when in H. eexists _, _, _. exact H.
Qed.

(** The validator checks the contents of an item or an entity of an event
    that has no [value]. *)
Lemma parts_validated fuel hoverEvent path l :
  assertIsHoverEvent (assertIsComponent fuel) hoverEvent path = (Ok tt, l) ->
  has "value" hoverEvent = false ->
  parts_ok hoverEvent.
Proof.
  unfold assertIsHoverEvent. intros H V.
  do 4 (apply seq_Ok in H; destruct H as [_ (? & H)]).
  split; intros A; rewrite A in H; simpl in H.
  - unfold assertIsShowItemHoverEvent in H.
    apply seq_Ok in H; destruct H as [_ (? & H)]. rewrite V in H.
    do 2 (apply seq_Ok in H; destruct H as [_ (? & H)]).
    apply seq_Ok in H; destruct H as [(? & I) (? & H)].
    apply seq_Ok in H; destruct H as [(? & C) _].
    apply when_fail_Ok in I, C.
    apply negb_false_iff, String.eqb_eq in I. split; [exact I |].
    destruct (has "count" (field hoverEvent "contents")) eqn:P.
    + left. simpl in C. now apply negb_false_iff, String.eqb_eq in C.
    + right. now apply field_absent.
  - unfold assertIsShowEntityHoverEvent in H.
    apply seq_Ok in H; destruct H as [_ (? & H)]. rewrite V in H.
    do 4 (apply seq_Ok in H; destruct H as [_ (? & H)]).
    apply when_fail_Ok in H.
    destruct (has "name" (field hoverEvent "contents")) eqn:P.
    + left. simpl in H. now apply negb_false_iff, String.eqb_eq in H.
    + right. now apply field_absent.
Qed.

Lemma parts_ok_undefined : parts_ok VUndefined.
Proof. split; discriminate. Qed.

Lemma validated_parts component :
  validated component ->
  structured_tooltip (field component "hoverEvent") ->
  parts_ok (field component "hoverEvent").
Proof.
  intros V S. destruct (has "hoverEvent" component) eqn:P.
  - destruct (validated_hover_event component V P) as (fuel & path & l & H).
    destruct S as [S | S]; [| now apply (parts_validated fuel _ path l)].
    split; intros A; rewrite S in A; discriminate A.
  - rewrite (field_absent _ _ P). apply parts_ok_undefined.
Qed.

Section Quiet.

Variable translations : string -> option string.
Variable fc : value -> M Node.
Variable fcpt : value -> M string.

Hypothesis fc_quiet : forall x, validated x -> no_throw (fc x).
Hypothesis fcpt_quiet : forall x, validated x -> no_throw (fcpt x).

Lemma no_throw_entries {B} items (f : value -> M B) (g : value -> M B) :
  Forall entry_ok items ->
  (forall x, In x items -> (typeof x =? "string") = false -> no_throw (g x)) ->
  (forall x, no_throw (f x)) ->
  no_throw (mapM (fun component =>
                    if typeof component =? "string" then f component
                    else g component) items).
Proof.
  intros E G F. apply no_throw_mapM. intros x X.
  destruct (typeof x =? "string") eqn:T; [apply F | now apply G].
Qed.

Lemma entry_validated items x :
  Forall entry_ok items -> In x items -> (typeof x =? "string") = false ->
  validated x.
Proof.
  intros F X T. rewrite Forall_forall in F.
  destruct (F x X); [congruence | assumption].
Qed.

Lemma no_throw_formatTranslation key items :
  convertible key = true ->
  Forall entry_ok items ->
  no_throw (formatTranslation translations fc key (VArr items)).
Proof.
  intros C E.
  destruct (value_eq_placeholder key) as [-> | K];
    [| now apply formatTranslation_quiet].
  unfold formatTranslation. simpl truthy. simpl typeof. simpl ToString.
  simpl negb. simpl andb. cbv iota. simpl length_of. rewrite bind_ret.
  destruct (is_zero _); [exact I |].
  unfold array_map.
  apply no_throw_entries with (f := fun x => ret (createTextNode (ToString x)));
    [exact E | | intros x; exact I].
  intros x X T. now apply fc_quiet, (entry_validated items).
Qed.

Lemma args_entry_ok component k :
  children_ok (field component k) ->
  exists items,
    coalesce (field component k) (VArr []) = VArr items /\
    Forall entry_ok items.
Proof.
  intros [E | (items & E & F)].
  - exists []. rewrite E. split; [reflexivity | constructor].
  - exists items. rewrite E. now split.
Qed.

Lemma no_throw_plain_text fields :
  (typeof (field (VObj fields) "text") =? "string") = true \/
    field (VObj fields) "text" = VUndefined ->
  (typeof (field (VObj fields) "translate") =? "string") = true \/
    field (VObj fields) "translate" = VUndefined ->
  children_ok (field (VObj fields) "with") ->
  children_ok (field (VObj fields) "extra") ->
  no_throw (plain_text translations fc fcpt (VObj fields)).
Proof.
  intros T TR W E. unfold plain_text. rewrite get_object, bind_ret.
  apply no_throw_seq.
  - destruct (truthy (field (VObj fields) "text"));
      [now apply no_throw_to_string, convertible_string_or_undefined |].
    rewrite get_object, bind_ret.
    destruct (truthy (field (VObj fields) "translate")); [| exact I].
    rewrite get_object, bind_ret.
    destruct (args_entry_ok (VObj fields) "with" W) as (items & -> & A).
    apply no_throw_seq; [| intros; exact I].
    apply no_throw_formatTranslation; [| exact A].
    now apply convertible_string_or_undefined.
  - intros result. rewrite get_object, bind_ret.
    destruct E as [-> | (items & E & F)]; [exact I |].
    rewrite E. simpl truthy. cbv iota. unfold array_map.
    apply no_throw_seq; [| intros; exact I].
    apply no_throw_entries with (f := fun x => ret (ToString x));
      [exact F | | intros x; exact I].
    intros x X T'. now apply fcpt_quiet, (entry_validated items).
Qed.

Lemma no_throw_formatHoverEvent hoverEvent :
  truthy hoverEvent = true -> hover_ok hoverEvent -> parts_ok hoverEvent ->
  no_throw (formatHoverEvent fcpt hoverEvent).
Proof.
  intros T O [PI PE]. unfold formatHoverEvent.
  rewrite (get_truthy hoverEvent "action" T eq_refl eq_refl), bind_ret.
  destruct ((typeof (field hoverEvent "action") =? "string")
            && (ToString (field hoverEvent "action") =? "show_text")) eqn:A.
  - apply andb_true_iff in A. destruct A as [A1 A2].
    apply typeof_string in A1. apply String.eqb_eq in A2. rewrite A2 in A1.
    destruct (O A1) as [TO C].
    rewrite (get_truthy hoverEvent "contents" T eq_refl eq_refl), bind_ret.
    rewrite (get_truthy hoverEvent "value" T eq_refl eq_refl), bind_ret.
    rewrite (coalesce_hover_contents hoverEvent TO C).
    destruct (typeof (hover_contents hoverEvent) =? "undefined"); [exact I |].
    destruct (typeof (hover_contents hoverEvent) =? "string") eqn:S;
      [exact I |].
    destruct TO as [TO | [(items & E & F) | [NA V]]]; [congruence | |].
    + rewrite E. apply no_throw_seq; [| intros; exact I].
      apply no_throw_entries with (f := fun x => ret (ToString x));
        [exact F | | intros x; exact I].
      intros x X TX. now apply fcpt_quiet, (entry_validated items).
    + assert (E : no_throw (s <- fcpt (hover_contents hoverEvent) ;;
                            ret (VStr s))).
      { apply no_throw_seq; [now apply fcpt_quiet | intros; exact I]. }
      now destruct (hover_contents hoverEvent).
  - clear A.
    destruct ((typeof (field hoverEvent "action") =? "string")
              && (ToString (field hoverEvent "action") =? "show_item")) eqn:A.
    + apply andb_true_iff in A. destruct A as [A1 A2].
      apply typeof_string in A1. apply String.eqb_eq in A2. rewrite A2 in A1.
      destruct (PI A1) as [TI TC].
      rewrite (get_truthy hoverEvent "contents" T eq_refl eq_refl), bind_ret.
      destruct (truthy (field hoverEvent "contents")) eqn:C; [| exact I].
      simpl negb. cbv iota.
      rewrite (get_truthy _ "count" C eq_refl eq_refl), bind_ret.
      rewrite (get_truthy _ "id" C eq_refl eq_refl), bind_ret.
      destruct (truthy (field (field hoverEvent "contents") "count"));
        [| exact I].
      apply no_throw_seq; [| intros count].
      * apply no_throw_to_string. destruct TC as [TC | ->]; [| reflexivity].
        now apply (convertible_typeof _ "number").
      * apply no_throw_seq; [| intros; exact I].
        apply no_throw_to_string. now apply (convertible_typeof _ "string").
    + destruct ((typeof (field hoverEvent "action") =? "string")
                && (ToString (field hoverEvent "action") =? "show_entity"));
        [| exact I].
      rewrite (get_truthy hoverEvent "contents" T eq_refl eq_refl), bind_ret.
      destruct (truthy (field hoverEvent "contents")) eqn:C; [| exact I].
      simpl negb. cbv iota.
      rewrite (get_truthy _ "name" C eq_refl eq_refl), bind_ret.
      exact I.
Qed.

(** The tooltip of an event with checked parts has a conversion. *)
Lemma formatHoverEvent_convertible hoverEvent t l :
  truthy hoverEvent = true -> parts_ok hoverEvent ->
  formatHoverEvent fcpt hoverEvent = (Ok t, l) -> convertible t = true.
Proof.
  intros T [PI PE]. unfold formatHoverEvent.
  rewrite (get_truthy hoverEvent "action" T eq_refl eq_refl), bind_ret.
  destruct ((typeof (field hoverEvent "action") =? "string")
            && (ToString (field hoverEvent "action") =? "show_text")).
  - rewrite (get_truthy hoverEvent "contents" T eq_refl eq_refl), bind_ret.
    rewrite (get_truthy hoverEvent "value" T eq_refl eq_refl), bind_ret.
    generalize (coalesce (field hoverEvent "contents")
                  (field hoverEvent "value")).
    intros contents.
    destruct (typeof contents =? "undefined");
      [intros H; inv_bind H; now inv_ret H |].
    destruct (typeof contents =? "string") eqn:S.
    + destruct contents; try discriminate S. intros H. now inv_ret H.
    + destruct contents; intros H; inv_bind H; now inv_ret H.
  - destruct ((typeof (field hoverEvent "action") =? "string")
              && (ToString (field hoverEvent "action") =? "show_item")) eqn:A.
    + apply andb_true_iff in A. destruct A as [A1 A2].
      apply typeof_string in A1. apply String.eqb_eq in A2. rewrite A2 in A1.
      destruct (PI A1) as [TI TC].
      rewrite (get_truthy hoverEvent "contents" T eq_refl eq_refl), bind_ret.
      destruct (truthy (field hoverEvent "contents")) eqn:C;
        [| intros H; unfold unsupported_legacy in H; inv_bind H;
           now inv_ret H].
      simpl negb. cbv iota.
      rewrite (get_truthy _ "count" C eq_refl eq_refl), bind_ret.
      rewrite (get_truthy _ "id" C eq_refl eq_refl), bind_ret.
      destruct (truthy (field (field hoverEvent "contents") "count")).
      * intros H. inv_bind H. inv_bind H. now inv_ret H.
      * intros H. inv_ret H. now apply (convertible_typeof _ "string").
    + destruct ((typeof (field hoverEvent "action") =? "string")
                && (ToString (field hoverEvent "action") =? "show_entity"))
        eqn:B; [| intros H; now inv_ret H].
      apply andb_true_iff in B. destruct B as [B1 B2].
      apply typeof_string in B1. apply String.eqb_eq in B2. rewrite B2 in B1.
      specialize (PE B1).
      rewrite (get_truthy hoverEvent "contents" T eq_refl eq_refl), bind_ret.
      destruct (truthy (field hoverEvent "contents")) eqn:C;
        [| intros H; unfold unsupported_legacy in H; inv_bind H;
           now inv_ret H].
      simpl negb. cbv iota.
      rewrite (get_truthy _ "name" C eq_refl eq_refl), bind_ret.
      intros H. inv_ret H. unfold or_else.
      destruct (truthy (field (field hoverEvent "contents") "name"));
        [| reflexivity].
      destruct PE as [PE | ->]; [| reflexivity].
      now apply (convertible_typeof _ "string").
Qed.

Lemma no_throw_apply_color fields result :
  typeof (field (VObj fields) "color") = "string" \/
  truthy (field (VObj fields) "color") = false ->
  no_throw (apply_color (VObj fields) result).
Proof.
  intros C. unfold apply_color. rewrite get_object, bind_ret.
  destruct (truthy (field (VObj fields) "color")) eqn:T; [| exact I].
  destruct C as [C | C]; [| discriminate C].
  destruct (field (VObj fields) "color"); try discriminate C.
  destruct (negb (isValidColor s)); [exact I |].
  destruct (startsWith "#" s); exact I.
Qed.

Lemma no_throw_apply_flag fields flag result :
  no_throw (apply_flag (VObj fields) flag result).
Proof. rewrite apply_flag_object. exact I. Qed.

Lemma no_throw_apply_hover fields result :
  field (VObj fields) "hoverEvent" = VUndefined \/
    hover_ok (field (VObj fields) "hoverEvent") ->
  parts_ok (field (VObj fields) "hoverEvent") ->
  no_throw (apply_hover fcpt (VObj fields) result).
Proof.
  intros O P. unfold apply_hover. rewrite get_object, bind_ret.
  destruct (truthy (field (VObj fields) "hoverEvent")) eqn:T; [| exact I].
  destruct O as [O | O]; [rewrite O in T; discriminate |].
  apply no_throw_bind; [now apply no_throw_formatHoverEvent | intros t l H].
  apply no_throw_seq; [| intros; exact I].
  apply no_throw_to_string.
  now apply (formatHoverEvent_convertible _ t l T P).
Qed.

Lemma no_throw_apply_content fields result :
  (typeof (field (VObj fields) "text") =? "string") = true \/
    field (VObj fields) "text" = VUndefined ->
  (typeof (field (VObj fields) "translate") =? "string") = true \/
    field (VObj fields) "translate" = VUndefined ->
  children_ok (field (VObj fields) "with") ->
  no_throw (apply_content translations fc (VObj fields) result).
Proof.
  intros T TR W. unfold apply_content. rewrite get_object, bind_ret.
  destruct (truthy (field (VObj fields) "text")) eqn:TT.
  - destruct T as [T | T]; [| rewrite T in TT; discriminate].
    apply typeof_string in T. rewrite T. exact I.
  - rewrite get_object, bind_ret.
    destruct (truthy (field (VObj fields) "translate")); [| exact I].
    rewrite get_object, bind_ret.
    destruct (args_entry_ok (VObj fields) "with" W) as (items & -> & A).
    apply no_throw_seq; [| intros; exact I].
    apply no_throw_formatTranslation; [| exact A].
    now apply convertible_string_or_undefined.
Qed.

Lemma no_throw_apply_extra fields result :
  children_ok (field (VObj fields) "extra") ->
  no_throw (apply_extra fc (VObj fields) result).
Proof.
  intros E. unfold apply_extra. rewrite get_object, bind_ret.
  destruct E as [-> | (items & E & F)]; [exact I |].
  rewrite E. simpl truthy. cbv iota. unfold array_map.
  apply no_throw_seq; [| intros; exact I].
  apply no_throw_entries with (f := fun x => ret (createTextNode (ToString x)));
    [exact F | | intros x; exact I].
  intros x X T. now apply fc_quiet, (entry_validated items).
Qed.

Lemma no_throw_assemble fields :
  validated (VObj fields) ->
  parts_ok (field (VObj fields) "hoverEvent") ->
  no_throw (assemble translations fc fcpt (VObj fields)).
Proof.
  intros V P. destruct (validated_shape _ V) as (_ & T & E & W & O).
  pose proof (validated_color _ V) as C.
  pose proof (validated_translate _ V) as TR.
  unfold assemble.
  apply no_throw_seq; [now apply no_throw_apply_color | intros r1].
  do 5 (apply no_throw_seq; [apply no_throw_apply_flag | intros ?]).
  apply no_throw_seq; [now apply no_throw_apply_hover | intros r7].
  apply no_throw_seq; [now apply no_throw_apply_content | intros r8].
  now apply no_throw_apply_extra.
Qed.

End Quiet.

Lemma formatComponentPlainText_quiet translations fuel :
  forall component,
    validated component ->
    no_throw (formatComponentPlainText translations fuel component).
Proof.
  induction fuel as [| fuel IH]; intros component V; [exact I |].
  destruct (validated_object _ V) as (fields & ->).
  cbn [formatComponentPlainText].
  destruct (validated_shape _ V) as (_ & T & E & W & _).
  pose proof (validated_translate _ V) as TR.
  apply no_throw_plain_text; try assumption.
  intros x N. now apply formatComponent_quiet.
Qed.

Lemma assemble_returns translations fuel fields :
  validated (VObj fields) ->
  parts_ok (field (VObj fields) "hoverEvent") ->
  height (VObj fields) <= fuel ->
  exists node l,
    assemble translations (formatComponent translations fuel)
      (formatComponentPlainText translations fuel) (VObj fields)
    = (Ok node, l).
Proof.
  intros V P H.
  assert (A : no_halt (assemble translations
                         (formatComponent translations fuel)
                         (formatComponentPlainText translations fuel)
                         (VObj fields))).
  { apply no_halt_assemble with (n := fuel); [| | exact V | exact H];
      intros x Vx Hx; now apply formatComponent_budget. }
  assert (B : no_throw (assemble translations
                          (formatComponent translations fuel)
                          (formatComponentPlainText translations fuel)
                          (VObj fields))).
  { apply no_throw_assemble; [| | exact V | exact P].
    - intros x N. now apply formatComponent_quiet.
    - intros x Vx. now apply formatComponentPlainText_quiet. }
  destruct (assemble _ _ _ _) as [[node | e | h] l];
    [now exists node, l | contradiction B | contradiction A].
Qed.

(** X19.  An accepted component is rendered as a span.  For a component
    that [assertIsComponent] accepted and whose hover event, if it has one,
    is a [show_text] event or an event without [value], nothing is thrown
    while the node is assembled: [formatComponent] returns the span itself,
    with its classes, colour, title and children, and never the text leaf of
    the [catch] block.  The condition on the event is needed: the validator
    does not look at the [contents] of an item or an entity when the event
    has a [value], and a component it accepted is then rendered as the text
    leaf when the [id] in these contents has no conversion to a string. *)
Theorem formatComponent_accepted_is_span :
  (forall translations vfuel component path l fuel,
     assertIsComponent vfuel component path = (Ok tt, l) ->
     structured_tooltip (field component "hoverEvent") ->
     height component < fuel ->
     exists a cs log,
       formatComponent translations fuel component
       = (Ok (Element "span" a cs), log)) /\
  (forall translations,
     assertIsComponent 10 legacy_item_component [] = (Ok tt, []) /\
     formatComponent translations 10 legacy_item_component
     = (Ok (Text "sword"),
        [caught_error
           (TypeError "Cannot convert object to primitive value")])).
Proof.
  split; [| intros tr; split; reflexivity].
  intros tr vfuel component path l fuel H S B.
  assert (V : validated component) by (now exists vfuel, path, l).
  pose proof (validated_parts component V S) as P.
  destruct (validated_object _ V) as (fields & ->).
  destruct fuel as [| fuel]; [lia |].
  destruct (assemble_returns tr fuel fields V P) as (node & l1 & A); [lia |].
  cbn [formatComponent].
  rewrite (render_assembled _ _ _ _ _ _ A).
  destruct (assemble_span _ _ _ _ _ _ A) as (a & cs & ->).
  unfold truncate. destruct (_ && _); simpl; now eexists _, _, _.
Qed.

Lemma formatComponent_accepted_is_span_witness :
  exists a cs log,
    formatComponent example_translations 10 example_component
    = (Ok (Element "span" a cs), log).
Proof.
  apply (proj1 formatComponent_accepted_is_span example_translations 10
           example_component [] [] 10).
  - vm_compute. reflexivity.
  - right. reflexivity.
  - apply Nat.ltb_lt. vm_compute. reflexivity.
Defined.

(** X20.  The plain text of an accepted component.  For a component that
    [assertIsComponent] accepted, [formatComponentPlainText] returns a
    string: nothing is thrown, and a budget above the height of the
    component is enough. *)
Theorem formatComponentPlainText_returns :
  forall translations vfuel component path l fuel,
    assertIsComponent vfuel component path = (Ok tt, l) ->
    height component < fuel ->
    exists s log,
      formatComponentPlainText translations fuel component = (Ok s, log).
Proof.
  intros tr vfuel component path l fuel H B.
  assert (V : validated component) by (now exists vfuel, path, l).
  destruct (formatComponent_budget tr fuel component V B) as [_ A].
  pose proof (formatComponentPlainText_quiet tr fuel component V) as Q.
  destruct (formatComponentPlainText tr fuel component) as [[s | e | h] log];
    [now exists s, log | contradiction Q | contradiction A].
Qed.

Lemma formatComponentPlainText_returns_witness :
  exists s log,
    formatComponentPlainText example_translations 10 example_component
    = (Ok s, log).
Proof.
  apply (formatComponentPlainText_returns example_translations 10
           example_component [] [] 10).
  - vm_compute. reflexivity.
  - apply Nat.ltb_lt. vm_compute. reflexivity.
Defined.

(** ** String arguments *)

Section StringArguments.

Variable fc : value -> M Node.
Variable ss : list string.

Lemma substitute_string v index template token :
  v = VUndefined \/ In v (map VStr ss) ->
  exists t log,
    substitute fc v (missing_argument index template token)
    = (Ok (Text t), log).
Proof.
  intros [-> | H].
  - rewrite substitute_undefined, missing_argument_eq. now eexists _, _.
  - apply in_map_iff in H. destruct H as (s & <- & _).
    unfold substitute. simpl truthy.
    destruct (negb (negb (s =? ""))).
    + rewrite missing_argument_eq. now eexists _, _.
    + simpl. now eexists _, _.
Qed.

Lemma numbered_loop_strings template matches :
  forall lastIndex result,
    Forall is_text result ->
    exists nodes log,
      numbered_loop fc template (VArr (map VStr ss)) matches lastIndex result
      = (Ok nodes, log) /\
      Forall is_text nodes.
Proof.
  induction matches as [| m rest IH]; intros lastIndex result R;
    cbn [numbered_loop].
  - eexists _, _. split; [reflexivity |].
    apply Forall_app. split; [exact R | apply text_after_is_text].
  - destruct (element_array (map VStr ss) (parseInt (group1 m) - 1))
      as (v & -> & V).
    rewrite bind_ret.
    destruct (substitute_string v (parseInt (group1 m) - 1) template
                (matched m) V) as (t & log & ->).
    rewrite bind_Ok.
    destruct (IH (match_end m)
                ((result ++ text_before template lastIndex m) ++ [Text t]))
      as (nodes & log' & -> & N).
    + apply Forall_app. split; [| repeat constructor; now eexists].
      apply Forall_app. split; [exact R | apply text_before_is_text].
    + simpl. now eexists _, _.
Qed.

Lemma simple_loop_strings template matches :
  forall lastIndex index result,
    Forall is_text result ->
    exists nodes log,
      simple_loop fc template (VArr (map VStr ss)) matches lastIndex index
        result
      = (Ok nodes, log) /\
      Forall is_text nodes.
Proof.
  induction matches as [| m rest IH]; intros lastIndex index result R;
    cbn [simple_loop].
  - eexists _, _. split; [reflexivity |].
    apply Forall_app. split; [exact R | apply text_after_is_text].
  - destruct (element_array (map VStr ss) (Z.of_nat index)) as (v & -> & V).
    rewrite bind_ret.
    destruct (substitute_string v (Z.of_nat (S index)) template "%s" V)
      as (t & log & ->).
    rewrite bind_Ok.
    destruct (IH (match_end m) (S index)
                ((result ++ text_before template lastIndex m) ++ [Text t]))
      as (nodes & log' & -> & N).
    + apply Forall_app. split; [| repeat constructor; now eexists].
      apply Forall_app. split; [exact R | apply text_before_is_text].
    + simpl. now eexists _, _.
Qed.

End StringArguments.

(** X21.  A translation with strings as arguments is plain text.  For a key
    that is a string and arguments that are all strings, [formatTranslation]
    returns, and returns text nodes only: no argument is rendered as a
    component, so nothing that rendering does can reach the result. *)
Theorem formatTranslation_string_arguments :
  forall translations fc key ss,
    exists nodes log,
      formatTranslation translations fc (VStr key) (VArr (map VStr ss))
      = (Ok nodes, log) /\
      Forall is_text nodes.
Proof.
  intros tr fc key ss. unfold formatTranslation. simpl truthy. simpl typeof.
  simpl ToString. simpl andb.
  destruct (negb (negb (key =? ""))).
  { eexists _, _. split; [reflexivity |]. repeat constructor. now eexists. }
  destruct (key =? "%s").
  { simpl length_of. rewrite bind_ret. destruct (is_zero _).
    - eexists _, _. split; [reflexivity |]. repeat constructor. now eexists.
    - unfold array_map. rewrite (mapM_strings _ Text) by reflexivity.
      eexists _, _. split; [reflexivity |].
      apply Forall_forall. intros n N. apply in_map_iff in N.
      destruct N as (s & <- & _). now eexists. }
  change (to_string (VStr key)) with (ret key). rewrite bind_ret.
  destruct (table_read tr key) as [| [| c template] |].
  - eexists _, _. split; [reflexivity |]. repeat constructor. now eexists.
  - eexists _, _. split; [reflexivity |]. repeat constructor. now eexists.
  - destruct (string_includes "$s" (String c template)).
    + unfold numberedSubstitution.
      destruct (numbered_loop_strings fc ss (String c template)
                  (exec_all numbered_at (String c template)) 0 [])
        as (nodes & log & -> & N); [constructor |].
      now exists nodes, log.
    + unfold simpleSubstitution.
      destruct (simple_loop_strings fc ss (String c template)
                  (exec_all simple_at (String c template)) 0 0 [])
        as (nodes & log & -> & N); [constructor |].
      now exists nodes, log.
  - eexists _, _. split; [reflexivity |]. repeat constructor. now eexists.
Qed.

(** * The occurrences of a token

    The linkifier and the two substitutions scan their input with a global
    regular expression.  What they find is stated here without the
    matchers: the occurrences of the token, the leftmost first, each one
    sought after the end of the one before. *)

Lemma bind_bind {A B C} (m : M A) (f : A -> M B) (g : B -> M C) :
  bind (bind m f) g = bind m (fun a => bind (f a) g).
Proof.
  destruct m as [[a | e | h] l]; simpl; try reflexivity.
  destruct (f a) as [[b | e | h] l1]; simpl; try reflexivity.
  destruct (g b) as [r l2]. now rewrite app_assoc.
Qed.

Lemma bind_ret_r {A} (m : M A) : bind m (fun a => ret a) = m.
Proof.
  destruct m as [[a | e | h] l]; simpl; try reflexivity.
  now rewrite app_nil_r.
Qed.

Section Occurrences.

Variable match_at : string -> option nat.
Variable occurs : string -> string -> Prop.

Hypothesis sound : sound_matcher match_at.
Hypothesis match_occurs :
  forall s n, match_at s = Some n -> occurs s (substring 0 n s).
Hypothesis occurs_match :
  forall s token,
    occurs s token ->
    match_at s = Some (String.length token) /\
    token = substring 0 (String.length token) s.

Lemma occurs_none s : match_at s = None -> forall token, ~ occurs s token.
Proof.
  intros N token O. apply occurs_match in O. destruct O as [O _]. congruence.
Qed.

Lemma scan_chain_occurrences text from ms :
  scan_chain match_at text from ms -> occurrences occurs text from ms.
Proof.
  induction 1 as [from G | from m rest H1 G M E P B C IH].
  - apply occurrences_none. intros p token Hp.
    destruct (Nat.lt_ge_cases p (String.length text)) as [L | L].
    + apply occurs_none, G. lia.
    + rewrite (drop_all p text L). apply occurs_none.
      destruct (match_at "") as [n |] eqn:Z; [| reflexivity].
      apply sound in Z. simpl in Z. lia.
  - apply occurrences_next; try assumption.
    + intros p token Hp. now apply occurs_none, G.
    + rewrite E. now apply match_occurs.
Qed.

Lemma occurrences_unique text from ms1 :
  occurrences occurs text from ms1 ->
  forall ms2, occurrences occurs text from ms2 -> ms1 = ms2.
Proof.
  induction 1 as [from G | from m rest H1 G O C IH]; intros ms2 H2.
  - inversion H2 as [| from' m' rest' H1' G' O' C']; subst; [reflexivity |].
    exfalso. exact (G (index m') (matched m') H1' O').
  - inversion H2 as [from' G' | from' m' rest' H1' G' O' C']; subst.
    + exfalso. exact (G' (index m) (matched m) H1 O).
    + assert (I : index m = index m').
      { destruct (Nat.lt_trichotomy (index m) (index m')) as [L | [L | L]];
          [exfalso | exact L | exfalso].
        - apply (G' (index m) (matched m)); [lia | exact O].
        - apply (G (index m') (matched m')); [lia | exact O']. }
      assert (T : matched m = matched m').
      { rewrite <- I in O'.
        apply occurs_match in O, O'.
        destruct O as [O1 O2], O' as [O1' O2'].
        rewrite O1 in O1'. inversion O1' as [L].
        rewrite O2, O2', L. reflexivity. }
      assert (E : m = m') by (destruct m, m'; simpl in *; congruence).
      subst m'. f_equal. now apply IH.
Qed.

Lemma occurrences_exec_all text ms :
  occurrences occurs text 0 ms -> ms = exec_all match_at text.
Proof.
  intros H. apply (occurrences_unique text 0 ms H).
  apply scan_chain_occurrences, exec_all_chain, sound.
Qed.

Lemma occurrences_exist text :
  occurrences occurs text 0 (exec_all match_at text).
Proof. apply scan_chain_occurrences, exec_all_chain, sound. Qed.

End Occurrences.

(** ** The three matchers find the occurrences *)

Lemma span_stops (p : ascii -> bool) (a rest : string) :
  string_forallb p a = true ->
  rest = "" \/ (exists c r, rest = String c r /\ p c = false) ->
  span p (a +++ rest) = String.length a.
Proof.
  intros A R. rewrite span_app by exact A.
  destruct R as [-> | (c & r & -> & C)]; simpl; [lia |].
  rewrite C. lia.
Qed.

Lemma url_occurs_match s url :
  url_occurrence s url ->
  url_at s = Some (String.length url) /\
  url = substring 0 (String.length url) s.
Proof.
  intros ((r & U & N & S) & rest & -> & R).
  split; [| now rewrite substring_0_prefix].
  assert (SP : span (fun c => negb (is_space c)) (r +++ rest)
               = String.length r).
  { apply span_stops; [exact S |].
    destruct R as [-> | (c & r' & -> & C)]; [now left | right].
    exists c, r'. split; [reflexivity | now rewrite C]. }
  assert (NZ : (String.length r =? 0)%nat = false).
  { destruct r; [contradiction | reflexivity]. }
  destruct U as [-> | ->]; unfold url_at; rewrite !append_assoc;
    simpl strip_prefix; cbv iota; cbv beta.
  - destruct (strip_prefix "s" ("://" +++ r +++ rest)) eqn:Q;
      [apply strip_prefix_Some in Q; discriminate Q |].
    simpl strip_prefix. rewrite SP, NZ. reflexivity.
  - simpl strip_prefix. rewrite SP, NZ. reflexivity.
Qed.

Lemma url_match_occurs s n :
  url_at s = Some n -> url_occurrence s (substring 0 n s).
Proof.
  intros H. pose proof (url_at_Some s n H) as [L U].
  split; [exact U |]. exists (drop n s).
  split; [symmetry; apply take_drop | now apply url_at_maximal].
Qed.

Lemma numbered_occurs_match s token :
  numbered_occurrence s token ->
  numbered_at s = Some (String.length token) /\
  token = substring 0 (String.length token) s.
Proof.
  intros (ds & rest & D & -> & ->).
  split; [now apply numbered_at_hit | now rewrite substring_0_prefix].
Qed.

Lemma numbered_match_occurs s n :
  numbered_at s = Some n -> numbered_occurrence s (substring 0 n s).
Proof.
  unfold numbered_at.
  destruct (strip_prefix "%" s) as [r |] eqn:P; [| discriminate].
  apply strip_prefix_Some in P. subst s.
  destruct (Nat.eqb_spec (span is_digit r) 0) as [| NZ]; [discriminate |].
  destruct (prefix "$s" _) eqn:Q; [| discriminate].
  intros H. inversion H; subst n; clear H.
  fold (slice_from r (span is_digit r)) in Q. rewrite slice_from_drop in Q.
  apply prefix_strip in Q. destruct Q as (rest & Q).
  pose proof (span_length is_digit r) as SL.
  exists (substring 0 (span is_digit r) r), rest.
  assert (R : r = substring 0 (span is_digit r) r +++ "$s" +++ rest).
  { rewrite <- Q. symmetry. apply take_drop. }
  assert (T : substring 0 (1 + span is_digit r + 2) ("%" +++ r)
              = numbered_token (substring 0 (span is_digit r) r)).
  { unfold numbered_token. rewrite R at 2.
    set (ds := substring 0 (span is_digit r) r).
    assert (L : String.length ds = span is_digit r)
      by (now apply length_substring_0).
    replace (1 + span is_digit r + 2)
      with (String.length ("%" +++ ds +++ "$s") + 0)
      by (rewrite !length_append, L; simpl; lia).
    replace ("%" +++ ds +++ "$s" +++ rest)
      with (("%" +++ ds +++ "$s") +++ rest)
      by (now rewrite !append_assoc).
    rewrite substring_0_app, substring_empty. apply append_nil_r. }
  split; [| split].
  - split; [| apply span_forallb].
    intros Z. apply (f_equal String.length) in Z.
    rewrite length_substring_0 in Z by exact SL. simpl in Z. lia.
  - exact T.
  - change (S (span is_digit r + 2)) with (1 + span is_digit r + 2).
    rewrite T. unfold numbered_token. rewrite R at 1.
    now rewrite !append_assoc.
Qed.

Lemma simple_occurs_match s token :
  simple_occurrence s token ->
  simple_at s = Some (String.length token) /\
  token = substring 0 (String.length token) s.
Proof.
  intros (-> & rest & ->).
  split; [apply simple_at_hit | now rewrite substring_0_prefix].
Qed.

Lemma simple_match_occurs s n :
  simple_at s = Some n -> simple_occurrence s (substring 0 n s).
Proof.
  intros H. pose proof (simple_at_Some s n H) as [-> E].
  split; [exact E |]. rewrite E.
  unfold simple_at in H. destruct (prefix "%s" s) eqn:P; [| discriminate].
  now apply prefix_strip in P.
Qed.

(** ** The loops and the fragments *)

Lemma substitute_placed fc items n missing :
  (value <- element (VArr items) (n - 1) ;; substitute fc value missing)
  = placed fc (selected items n) missing.
Proof.
  rewrite element_nth, bind_ret. unfold selected.
  destruct (Z.leb_spec n 0) as [L | L].
  - replace (n - 1 <? 0)%Z with true by (symmetry; apply Z.ltb_lt; lia).
    reflexivity.
  - replace (n - 1 <? 0)%Z with false by (symmetry; apply Z.ltb_ge; lia).
    cbn [orb].
    destruct (Z.ltb_spec (Z.of_nat (List.length items)) n) as [G | G].
    { rewrite nth_overflow by lia. reflexivity. }
    destruct (nth_error items (Z.to_nat (n - 1))) as [v |] eqn:E.
    + rewrite (nth_error_nth _ _ VUndefined E).
      unfold substitute, placed. now destruct v; destruct (truthy _).
    + rewrite nth_overflow by (now apply nth_error_None). reflexivity.
Qed.

Lemma substitute_placed_nat fc items k missing :
  (value <- element (VArr items) (Z.of_nat k) ;; substitute fc value missing)
  = placed fc (nth_error items k) missing.
Proof.
  pose proof (substitute_placed fc items (Z.of_nat (S k)) missing) as H.
  replace (Z.of_nat (S k) - 1)%Z with (Z.of_nat k) in H by lia.
  rewrite H. unfold selected.
  replace (Z.of_nat (S k) <=? 0)%Z with false
    by (symmetry; apply Z.leb_gt; lia).
  cbn [orb]. replace (Z.to_nat (Z.of_nat (S k) - 1)) with k by lia.
  destruct (Z.ltb_spec (Z.of_nat (List.length items)) (Z.of_nat (S k)))
    as [G | G]; [| reflexivity].
  replace (nth_error items k) with (@None value); [reflexivity |].
  symmetry. apply nth_error_None. lia.
Qed.

Lemma numbered_loop_fragments fc template items tokens :
  forall from result,
    numbered_loop fc template (VArr items) tokens from result
    = (more <- numbered_fragments fc template items tokens from ;;
       ret (result ++ more)).
Proof.
  induction tokens as [| m rest IH]; intros from result;
    cbn [numbered_loop numbered_fragments].
  - now rewrite bind_ret.
  - rewrite <- bind_bind.
    change (parseInt (group1 m)) with (token_number (matched m)).
    rewrite substitute_placed, !bind_bind.
    apply bind_ext. intros node. rewrite IH, bind_bind.
    apply bind_ext. intros more. rewrite bind_ret.
    now rewrite <- !app_assoc.
Qed.

Lemma simple_loop_fragments fc template items tokens :
  forall from k result,
    simple_loop fc template (VArr items) tokens from k result
    = (more <- sequential_fragments fc template items tokens from k ;;
       ret (result ++ more)).
Proof.
  induction tokens as [| m rest IH]; intros from k result;
    cbn [simple_loop sequential_fragments].
  - now rewrite bind_ret.
  - rewrite <- bind_bind, substitute_placed_nat, !bind_bind.
    apply bind_ext. intros node. rewrite IH, bind_bind.
    apply bind_ext. intros more. rewrite bind_ret.
    now rewrite <- !app_assoc.
Qed.

Lemma numbered_token_includes template from m rest :
  occurrences numbered_occurrence template from (m :: rest) ->
  string_includes "$s" template = true.
Proof.
  intros H. inversion H as [| from' m' rest' H1 G O C]; subst.
  destruct O as (ds & tail & D & T & E).
  rewrite <- (take_drop (index m) template), E, T. unfold numbered_token.
  replace (substring 0 (index m) template +++ ("%" +++ ds +++ "$s") +++ tail)
    with ((substring 0 (index m) template +++ "%" +++ ds) +++ "$s" +++ tail)
    by (now rewrite !append_assoc).
  apply string_includes_app.
Qed.

Lemma token_number_token ds : token_number (numbered_token ds) = parseInt ds.
Proof.
  unfold token_number.
  change (substring 1 (String.length (numbered_token ds) - 3)
            (numbered_token ds))
    with (group1 {| index := 0; matched := numbered_token ds |}).
  now rewrite group1_token.
Qed.

(** C5, as amended.  For a key other than ["%s"] that has a template in the
    table, and not the empty one, [formatTranslation] applies numbered
    substitution exactly when the template contains the two code units [$s],
    as every template with a token [%N$s] does, and sequential substitution
    otherwise.  On every
    template and every argument list, numbered substitution takes the
    occurrences of the tokens [%N$s], the leftmost first and each one sought
    after the end of the one before; it yields the text between them and, for
    each token, the argument of number [N], counting from 1: as a text when
    it is a string, rendered when it is a component, and the token itself
    with a warning when there is no such argument or a falsy one.  Sequential
    substitution does the same with the occurrences of [%s], the token of
    position [k], counting from 0, taking the argument of position [k].  The
    warning names the index the program computed, [N - 1] or [k + 1].  The
    template ["%2$s %1$s"] with the arguments ["a"] and ["b"] yields the
    texts "b", " " and "a". *)
Theorem formatTranslation_substitution :
  (forall translations fc key template args,
     (key =? "") = false -> (key =? "%s") = false ->
     translations key = Some template -> template <> "" ->
     formatTranslation translations fc (VStr key) args
     = try_catch
         (if string_includes "$s" template
          then numberedSubstitution fc template args
          else simpleSubstitution fc template args)
         (translation_failed key)) /\
  (forall template,
     (exists tokens, occurrences numbered_occurrence template 0 tokens) /\
     (exists tokens, occurrences simple_occurrence template 0 tokens)) /\
  (forall fc template items tokens,
     occurrences numbered_occurrence template 0 tokens ->
     numberedSubstitution fc template (VArr items)
     = numbered_fragments fc template items tokens 0 /\
     (tokens <> [] -> string_includes "$s" template = true)) /\
  (forall fc template items tokens,
     occurrences simple_occurrence template 0 tokens ->
     simpleSubstitution fc template (VArr items)
     = sequential_fragments fc template items tokens 0 0) /\
  (forall ds, digits ds -> token_number (numbered_token ds) = parseInt ds) /\
  (forall index template token,
     (index <= MAX_SAFE_INTEGER)%Z ->
     missing_argument index template token
     = (Ok (Text token),
        [Warn [LStr (missing_argument_message index template)]])) /\
  (forall fc,
     formatTranslation example_translations fc (VStr "swap")
       (VArr [VStr "a"; VStr "b"])
     = (Ok [Text "b"; Text " "; Text "a"], []) /\
     formatTranslation example_translations fc (VStr "swap") (VArr [VStr "a"])
     = (Ok [Text "%2$s"; Text " "; Text "a"],
        [Warn [LStr (missing_argument_message 1 "%2$s %1$s")]]) /\
     formatTranslation example_translations fc (VStr "chat.type.text")
       (VArr [VStr "Steve"; VStr "hi"])
     = (Ok [Text "<"; Text "Steve"; Text "> "; Text "hi"], []) /\
     simpleSubstitution fc "%s%% of %s" (VArr [VStr "5"; VStr "it"])
     = (Ok [Text "5"; Text "%% of "; Text "it"], []) /\
     numberedSubstitution fc "100% %1$s %0$s" (VArr [VStr "sure"])
     = (Ok [Text "100% "; Text "sure"; Text " "; Text "%0$s"],
        [Warn [LStr (missing_argument_message (-1) "100% %1$s %0$s")]]) /\
     exists message,
       numberedSubstitution fc "%99999999999999999999$s" (VArr [VStr "a"])
       = (Ok [Text "%99999999999999999999$s"], [Warn [message]])).
Proof.
  split; [exact formatTranslation_template |].
  split; [| split; [| split; [| split; [| split]]]].
  - intros template. split.
    + exists (exec_all numbered_at template).
      apply (occurrences_exist numbered_at numbered_occurrence
               numbered_at_sound numbered_match_occurs numbered_occurs_match).
    + exists (exec_all simple_at template).
      apply (occurrences_exist simple_at simple_occurrence
               simple_at_sound simple_match_occurs simple_occurs_match).
  - intros fc template items tokens O. split.
    + rewrite (occurrences_exec_all numbered_at numbered_occurrence
                 numbered_at_sound numbered_match_occurs numbered_occurs_match
                 template tokens O).
      unfold numberedSubstitution.
      rewrite numbered_loop_fragments. simpl app. apply bind_ret_r.
    + destruct tokens as [| m rest]; [contradiction |]. intros _.
      exact (numbered_token_includes template 0 m rest O).
  - intros fc template items tokens O.
    rewrite (occurrences_exec_all simple_at simple_occurrence
               simple_at_sound simple_match_occurs simple_occurs_match
               template tokens O).
    unfold simpleSubstitution.
    rewrite simple_loop_fragments. simpl app. apply bind_ret_r.
  - intros ds _. apply token_number_token.
  - intros index template token L. unfold missing_argument.
    apply Z.leb_le in L. now rewrite L.
  - intros fc. repeat split. eexists. vm_compute. reflexivity.
Qed.

(** C6, as amended.  The texts of the fragments of [linkifyText], in order,
    are the input.  A link is made of each occurrence of a URL, the leftmost
    first and each one sought after the end of the one before, where a URL
    is [http://] or [https://] followed by at least one code unit that is
    not white space, up to the next white space or the end of the input.
    The fragments are exactly these links, the text before each of them when
    there is some, and the text after the last.  The URL of a link is its
    destination and its only text, with [rel] set to "noopener noreferrer"
    and [target] to "_blank"; the texts are not empty and hold no URL. *)
Theorem linkifyText_covers_input :
  (forall text,
     String.concat "" (map textContent (linkifyText text)) = text /\
     well_linked (linkifyText text)) /\
  (forall text,
     exists urls,
       occurrences url_occurrence text 0 urls /\
       (forall urls', occurrences url_occurrence text 0 urls' -> urls' = urls) /\
       linkifyText text = linkify_tail text urls 0) /\
  (forall url,
     href (attributes_of (anchor url)) = Some url /\
     children (anchor url) = [Text url] /\
     rel (attributes_of (anchor url)) = Some "noopener noreferrer" /\
     target (attributes_of (anchor url)) = Some "_blank") /\
  linkifyText "see http://example.com now"
  = [Text "see "; anchor "http://example.com"; Text " now"] /\
  linkifyText "http://a" = [anchor "http://a"] /\
  linkifyText "http://http://x" = [anchor "http://http://x"].
Proof.
  split; [exact linkifyText_well_linked |].
  split; [| split; [now intros url | repeat split]].
  intros text. exists (exec_all url_at text).
  split; [| split].
  - apply (occurrences_exist url_at url_occurrence
             url_at_sound url_match_occurs url_occurs_match).
  - intros urls' O.
    apply (occurrences_exec_all url_at url_occurrence
             url_at_sound url_match_occurs url_occurs_match text urls' O).
  - unfold linkifyText. now rewrite linkify_loop_tail.
Qed.
